(** * NodeModal: the node editor of the JSON graph view

    A shallow embedding of [src/features/modals/NodeModal/index.tsx]:
    [normalizeNodeData], [jsonPathToString], [convertValueByType] and
    [handleSave], together with the part of the ECMAScript run time they
    call ([JSON.parse], [JSON.stringify], [Number], [String], property
    reads, writes and deletes of a strict-mode module).

    Conventions of the embedding.
    - A JavaScript string is the list of its UTF-16 code units.
    - A JavaScript number is an IEEE 754 binary64 value ([spec_float] at
      precision 53), decimal text is rounded to nearest-even and printed
      with the shortest digits that read back as the same value.
    - The value parsed from the document is a tree, so the reference
      [objToEdit] is the access path of the object inside [parsed]; writes
      through the reference are updates of [parsed] at that path.
    - The values are JSON data: objects are ordered own-property maps
      (array-index keys first in ascending order, then the other keys by
      insertion) whose prototype is [Object.prototype], arrays have
      [Array.prototype]. The members the standard gives to the built-in
      prototypes are known by name: a read that finds one returns a
      built-in function or object, which is not data; such a read is [None],
      and so is every step that depends on it. The one accessor among them,
      [__proto__], decides what an assignment to that key does.
    - The file is an ES module and so runs in strict mode: assigning to a
      property of a number, a string or a boolean throws a TypeError unless
      the assignment reaches the setter [__proto__], as does any property
      access on null.
    - An exception is a result [Throw e]; [handleSave] catches it. *)

From Stdlib Require Import ZArith NArith List Bool Lia String Ascii.
From Stdlib Require Import Floats.SpecFloat.
From Stdlib Require DecimalPos DecimalFacts.
Import ListNotations.

Open Scope Z_scope.
Set Warnings "-register-all".

(** ** Strings *)

Module Str.

Definition jsstring := list N.

Definition of_string (s : string) : jsstring :=
  map N_of_ascii (list_ascii_of_string s).

(** Source text that contains double quotes is written with apostrophes. *)
Definition quoted (s : string) : jsstring :=
  map (fun a => if N.eqb (N_of_ascii a) 39 then 34%N else N_of_ascii a)
      (list_ascii_of_string s).

Fixpoint eqb (a b : jsstring) : bool :=
  match a, b with
  | [], [] => true
  | x :: a', y :: b' => N.eqb x y && eqb a' b'
  | _, _ => false
  end.

Definition is_empty (s : jsstring) : bool :=
  match s with [] => true | _ => false end.

End Str.

Abbreviation jsstring := Str.jsstring.
Notation "'js' s" := (Str.of_string s) (at level 9, s at level 0, only parsing).
Notation "'jsq' s" := (Str.quoted s) (at level 9, s at level 0, only parsing).

(** ** Numbers *)

Module Num.

Definition number := spec_float.

Definition prec : Z := 53.
Definition emax : Z := 1024.

Definition NaN : number := S754_nan.

(** [Number.isNaN] *)
Definition isNaN (x : number) : bool :=
  match x with S754_nan => true | _ => false end.

Definition is_finite (x : number) : bool :=
  match x with S754_zero _ | S754_finite _ _ _ => true | _ => false end.

(** The binary64 value nearest to [m * 10 ^ e] (ties to even). *)
Definition of_decimal (neg : bool) (m : Z) (e : Z) : number :=
  match m with
  | Z0 => S754_zero neg
  | Zpos p =>
      if 0 <=? e
      then binary_round prec emax neg (p * Z.to_pos (10 ^ e)) 0
      else SFdiv prec emax (S754_finite neg p 0)
                           (S754_finite false (Z.to_pos (10 ^ (- e))) 0)
  | Zneg _ => S754_nan
  end.

Definition of_Z (z : Z) : number :=
  of_decimal (z <? 0) (Z.abs z) 0.

(** Decimal digits, as code units. *)
Definition digit_code (d : Z) : N := (48 + Z.to_N d)%N.

Fixpoint uint_codes (u : Decimal.uint) : list N :=
  match u with
  | Decimal.Nil => []
  | Decimal.D0 u => 48%N :: uint_codes u
  | Decimal.D1 u => 49%N :: uint_codes u
  | Decimal.D2 u => 50%N :: uint_codes u
  | Decimal.D3 u => 51%N :: uint_codes u
  | Decimal.D4 u => 52%N :: uint_codes u
  | Decimal.D5 u => 53%N :: uint_codes u
  | Decimal.D6 u => 54%N :: uint_codes u
  | Decimal.D7 u => 55%N :: uint_codes u
  | Decimal.D8 u => 56%N :: uint_codes u
  | Decimal.D9 u => 57%N :: uint_codes u
  end.

Definition pos_digits (p : positive) : list N := uint_codes (Pos.to_uint p).

Definition nat_digits (n : Z) : list N :=
  match n with
  | Zpos p => pos_digits p
  | _ => [48%N]
  end.

Definition dlen (p : positive) : Z := Z.of_nat (List.length (pos_digits p)).

Fixpoint strip_zeros_rev (l : list N) : list N :=
  match l with
  | 48%N :: l' => strip_zeros_rev l'
  | _ => l
  end.

Definition strip_trailing_zeros (l : list N) : list N :=
  match rev (strip_zeros_rev (rev l)) with
  | [] => firstn 1 l
  | l' => l'
  end.

(** *** Number::toString for radix 10

    A positive finite value [num / den] is printed from the integers
    [s] and [k] such that [s * 10 ^ (k - n)] reads back as the value, [n]
    (the number of digits of [s]) being as small as possible. *)

Section Shortest.
Variable x : number.       (* the value, positive *)
Variables num den : Z.     (* x = num / den *)

(** is [10 ^ k <= num / den] *)
Definition ge_pow10 (k : Z) : bool :=
  if 0 <=? k then den * 10 ^ k <=? num else den <=? num * 10 ^ (- k).

(** [k0] with [10 ^ (k0 - 1) <= num / den < 10 ^ k0] *)
Definition magnitude : Z :=
  let k := dlen (Z.to_pos num) - dlen (Z.to_pos den) in
  if ge_pow10 k then k + 1 else k.

Definition reads_back (s : Z) (q : Z) : bool :=
  match SFcompare (of_decimal false s q) x with
  | Some Eq => true
  | _ => false
  end.

(** [num / den / 10 ^ q] as a fraction *)
Definition scaled (q : Z) : Z * Z :=
  if 0 <=? q then (num, den * 10 ^ q) else (num * 10 ^ (- q), den).

(** the [n]-digit candidates around the value: the one to print, if any *)
Definition candidate (n : Z) : option (Z * Z) :=
  let q := magnitude - n in
  let '(a, b) := scaled q in
  let lo := a / b in
  let r := a mod b in
  let hi := lo + 1 in
  match reads_back lo q, reads_back hi q with
  | true, true =>
      match 2 * r ?= b with
      | Lt => Some (lo, q)
      | Gt => Some (hi, q)
      | Eq => if Z.even lo then Some (lo, q) else Some (hi, q)
      end
  | true, false => Some (lo, q)
  | false, true => Some (hi, q)
  | false, false => None
  end.

Fixpoint search (fuel : nat) (n : Z) : Z * Z :=
  match candidate n with
  | Some c => c
  | None =>
      match fuel with
      | O => (fst (scaled (magnitude - n)) / snd (scaled (magnitude - n)),
              magnitude - n)
      | S f => search f (n + 1)
      end
  end.

(** digits of [s] and the position [k] of the decimal point *)
Definition shortest : list N * Z :=
  let '(s, q) := search 16 1 in
  let ds := pos_digits (Z.to_pos s) in
  (strip_trailing_zeros ds, q + Z.of_nat (List.length ds)).
End Shortest.

Definition zeros (n : Z) : list N := repeat 48%N (Z.to_nat n).

Definition exponent_text (e : Z) : list N :=
  101%N :: (if e <? 0 then 45%N else 43%N) :: nat_digits (Z.abs e).

Definition format_digits (ds : list N) (k : Z) : list N :=
  let n := Z.of_nat (List.length ds) in
  if (-5 <=? k) && (k <=? 21) then
    if n <=? k then ds ++ zeros (k - n)
    else if 0 <? k then firstn (Z.to_nat k) ds ++ 46%N :: skipn (Z.to_nat k) ds
    else 48%N :: 46%N :: zeros (- k) ++ ds
  else
    match ds with
    | [d] => d :: exponent_text (k - 1)
    | d :: ds' => d :: 46%N :: ds' ++ exponent_text (k - 1)
    | [] => []
    end.

(** [Number::toString(x)] *)
Definition to_string (x : number) : jsstring :=
  match x with
  | S754_nan => js "NaN"
  | S754_zero _ => js "0"
  | S754_infinity s => (if s then [45%N] else []) ++ js "Infinity"
  | S754_finite s m e =>
      let '(num, den) := if 0 <=? e then (Zpos m * 2 ^ e, 1)
                         else (Zpos m, 2 ^ (- e)) in
      let '(ds, k) := shortest (S754_finite false m e) num den in
      (if s then [45%N] else []) ++ format_digits ds k
  end.

End Num.

Abbreviation number := Num.number.


(** ** Values *)

Module JS.

Inductive error := SyntaxError | TypeError | RangeError.

Inductive result (A : Type) :=
| Ok (a : A)
| Throw (e : error).
Arguments Ok {A} a.
Arguments Throw {A} e.

Definition bind {A B} (r : result A) (k : A -> result B) : result B :=
  match r with
  | Ok a => k a
  | Throw e => Throw e
  end.

Notation "x <- r ;; k" := (bind r (fun x => k))
  (at level 61, r at next level, right associativity).

Inductive value :=
| VUndefined
| VNull
| VBool (b : bool)
| VNum (n : number)
| VStr (s : jsstring)
| VArr (elems : list value)
| VObj (props : list (jsstring * value)).

Definition props := list (jsstring * value).

Fixpoint assoc (k : jsstring) (ps : props) : option value :=
  match ps with
  | [] => None
  | (k', x) :: ps' => if Str.eqb k' k then Some x else assoc k ps'
  end.

(** [String(v)]. An object is converted by the [toString] it inherits
    from [Object.prototype], an array by [Array.prototype.join]. An own
    property [toString] of an object hides the inherited method and, being
    data, is not callable; [valueOf] then returns the object itself, and the
    conversion throws a TypeError. *)
Fixpoint ToString (v : value) : result jsstring :=
  match v with
  | VUndefined => Ok (js "undefined")
  | VNull => Ok (js "null")
  | VBool true => Ok (js "true")
  | VBool false => Ok (js "false")
  | VNum n => Ok (Num.to_string n)
  | VStr s => Ok s
  | VArr l =>
      (* Array.prototype.join with the separator "," *)
      (fix join (l : list value) : result jsstring :=
         let item x := match x with
                       | VUndefined | VNull => Ok []
                       | _ => ToString x
                       end in
         match l with
         | [] => Ok []
         | [x] => item x
         | x :: l' => s <- item x ;; t <- join l' ;; Ok (s ++ 44%N :: t)
         end) l
  | VObj ps =>
      match assoc (js "toString") ps with
      | Some _ => Throw TypeError
      | None => Ok (js "[object Object]")
      end
  end.

(** the condition of [acc ? ... : ...] *)
Definition ToBoolean (v : value) : bool :=
  match v with
  | VUndefined | VNull => false
  | VBool b => b
  | VNum (S754_zero _) | VNum S754_nan => false
  | VNum _ => true
  | VStr s => negb (Str.is_empty s)
  | VArr _ | VObj _ => true
  end.

(** the left operand of [??] is dropped when it is null or undefined *)
Definition nullish (v : value) : bool :=
  match v with
  | VUndefined | VNull => true
  | _ => false
  end.

(** *** StringToNumber, the function behind [Number(text)] *)

Definition is_digit (c : N) : bool := ((48 <=? c) && (c <=? 57))%N.

Fixpoint span_digits (l : list N) : list N * list N :=
  match l with
  | c :: r => if is_digit c
              then let '(ds, r') := span_digits r in (c :: ds, r')
              else ([], l)
  | [] => ([], [])
  end.

Definition digits_value (ds : list N) : Z :=
  fold_left (fun acc c => acc * 10 + (Z.of_N c - 48)) ds 0.

Definition is_str_whitespace (c : N) : bool :=
  ((9 <=? c) && (c <=? 13) || (c =? 32) || (c =? 160) || (c =? 5760)
   || (8192 <=? c) && (c <=? 8202) || (c =? 8232) || (c =? 8233)
   || (c =? 8239) || (c =? 8287) || (c =? 12288) || (c =? 65279))%N.

Fixpoint trim_left (l : list N) : list N :=
  match l with
  | c :: r => if is_str_whitespace c then trim_left r else l
  | [] => []
  end.

Definition trim (l : list N) : list N :=
  rev (trim_left (rev (trim_left l))).

(** value of a digit in the given radix *)
Definition radix_digit (radix : Z) (c : N) : option Z :=
  let d := if is_digit c then Z.of_N c - 48
           else if ((97 <=? c) && (c <=? 102))%N then Z.of_N c - 87
           else if ((65 <=? c) && (c <=? 70))%N then Z.of_N c - 55
           else radix in
  if d <? radix then Some d else None.

Fixpoint radix_value (radix : Z) (acc : Z) (l : list N) : option Z :=
  match l with
  | [] => Some acc
  | c :: r => match radix_digit radix c with
              | Some d => radix_value radix (acc * radix + d) r
              | None => None
              end
  end.

(** [0x..], [0o..] and [0b..]: digits after the prefix, unsigned *)
Definition non_decimal (l : list N) : option Z :=
  match l with
  | 48%N :: p :: d :: ds =>
      if ((p =? 120) || (p =? 88))%N then radix_value 16 0 (d :: ds)
      else if ((p =? 111) || (p =? 79))%N then radix_value 8 0 (d :: ds)
      else if ((p =? 98) || (p =? 66))%N then radix_value 2 0 (d :: ds)
      else None
  | _ => None
  end.

(** the exponent part [e], [e+] or [e-] followed by digits, then the end *)
Definition exponent_part (l : list N) : option Z :=
  match l with
  | [] => Some 0
  | c :: r =>
      if ((c =? 101) || (c =? 69))%N then
        let '(neg, r1) := match r with
                          | s :: r' => if (s =? 45)%N then (true, r')
                                       else if (s =? 43)%N then (false, r')
                                       else (false, r)
                          | [] => (false, r)
                          end in
        match span_digits r1 with
        | (d :: ds, []) =>
            Some (if neg then - digits_value (d :: ds) else digits_value (d :: ds))
        | _ => None
        end
      else None
  end.

(** StrUnsignedDecimalLiteral without [Infinity] *)
Definition unsigned_decimal (neg : bool) (l : list N) : number :=
  let '(ip, r) := span_digits l in
  let '(fp, r1, dot) := match r with
                        | c :: r' => if (c =? 46)%N
                                     then let '(fp, r1) := span_digits r' in (fp, r1, true)
                                     else ([], r, false)
                        | [] => ([], r, false)
                        end in
  match ip ++ fp with
  | [] => Num.NaN
  | ds => match exponent_part r1 with
          | Some e => Num.of_decimal neg (digits_value ds) (e - Z.of_nat (List.length fp))
          | None => Num.NaN
          end
  end.

Definition signed_decimal (l : list N) : number :=
  let '(neg, r) := match l with
                   | s :: r' => if (s =? 45)%N then (true, r')
                                else if (s =? 43)%N then (false, r')
                                else (false, l)
                   | [] => (false, l)
                   end in
  if Str.eqb r (js "Infinity") then S754_infinity neg
  else unsigned_decimal neg r.

Definition StringToNumber (s : jsstring) : number :=
  match trim s with
  | [] => S754_zero false
  | l => match non_decimal l with
         | Some z => Num.of_Z z
         | None => signed_decimal l
         end
  end.

(** [Number(v)] *)
Definition ToNumber (v : value) : result number :=
  match v with
  | VUndefined => Ok Num.NaN
  | VNull => Ok (S754_zero false)
  | VBool true => Ok (Num.of_Z 1)
  | VBool false => Ok (S754_zero false)
  | VNum n => Ok n
  | VStr s => Ok (StringToNumber s)
  | VArr _ | VObj _ => s <- ToString v ;; Ok (StringToNumber s)
  end.

(** *** Own properties *)

(** an array index is a canonical numeric key below [2^32 - 1] *)
Definition array_index (k : jsstring) : option Z :=
  match k with
  | [] => None
  | c :: r =>
      if forallb is_digit k && (negb (c =? 48)%N || Str.is_empty r)
      then if digits_value k <? 2 ^ 32 - 1 then Some (digits_value k) else None
      else None
  end.

Fixpoint replace_prop (k : jsstring) (x : value) (ps : props) : props :=
  match ps with
  | [] => []
  | (k', y) :: ps' =>
      if Str.eqb k' k then (k', x) :: ps' else (k', y) :: replace_prop k x ps'
  end.

(** a new index key goes before the first key that is a larger index or
    not an index at all *)
Fixpoint insert_index (i : Z) (k : jsstring) (x : value) (ps : props) : props :=
  match ps with
  | [] => [(k, x)]
  | (k', y) :: ps' =>
      match array_index k' with
      | Some j => if j <? i then (k', y) :: insert_index i k x ps'
                  else (k, x) :: ps
      | None => (k, x) :: ps
      end
  end.

(** [o[k] = x] on an ordinary object *)
Definition obj_set (ps : props) (k : jsstring) (x : value) : props :=
  match assoc k ps with
  | Some _ => replace_prop k x ps
  | None =>
      match array_index k with
      | Some i => insert_index i k x ps
      | None => ps ++ [(k, x)]
      end
  end.

(** [delete o[k]] on an ordinary object *)
Fixpoint obj_delete (ps : props) (k : jsstring) : props :=
  match ps with
  | [] => []
  | (k', y) :: ps' =>
      if Str.eqb k' k then obj_delete ps' k else (k', y) :: obj_delete ps' k
  end.

Definition length_key : jsstring := js "length".

Definition nth_value (l : list value) (i : Z) : value :=
  nth (Z.to_nat i) l VUndefined.

Definition len {A} (l : list A) : Z := Z.of_nat (List.length l).

(** the own property [k] of a value, its wrapper object for a string *)
Definition own (v : value) (k : jsstring) : option value :=
  match v with
  | VObj ps => assoc k ps
  | VArr l =>
      if Str.eqb k length_key then Some (VNum (Num.of_Z (len l)))
      else match array_index k with
           | Some i => if i <? len l then Some (nth_value l i) else None
           | None => None
           end
  | VStr s =>
      if Str.eqb k length_key then Some (VNum (Num.of_Z (len s)))
      else match array_index k with
           | Some i => match nth_error s (Z.to_nat i) with
                       | Some c => Some (VStr [c])
                       | None => None
                       end
           | None => None
           end
  | _ => None
  end.

(** *** The built-in prototypes

    The string-keyed members of [Object.prototype], [Array.prototype],
    [String.prototype], [Number.prototype] and [Boolean.prototype] in
    ECMAScript 2025, with those of its Annex B. All are methods, but for the
    accessor [__proto__]. *)

Definition names (l : list string) : list jsstring := map Str.of_string l.

Definition object_members : list jsstring :=
  names ["constructor"; "hasOwnProperty"; "isPrototypeOf"; "propertyIsEnumerable";
         "toLocaleString"; "toString"; "valueOf"; "__proto__";
         "__defineGetter__"; "__defineSetter__"; "__lookupGetter__";
         "__lookupSetter__"]%string.

Definition array_members : list jsstring :=
  names ["at"; "concat"; "constructor"; "copyWithin"; "entries"; "every"; "fill";
         "filter"; "find"; "findIndex"; "findLast"; "findLastIndex"; "flat";
         "flatMap"; "forEach"; "includes"; "indexOf"; "join"; "keys";
         "lastIndexOf"; "map"; "pop"; "push"; "reduce"; "reduceRight"; "reverse";
         "shift"; "slice"; "some"; "sort"; "splice"; "toLocaleString";
         "toReversed"; "toSorted"; "toSpliced"; "toString"; "unshift"; "values";
         "with"]%string.

Definition string_members : list jsstring :=
  names ["at"; "charAt"; "charCodeAt"; "codePointAt"; "concat"; "constructor";
         "endsWith"; "includes"; "indexOf"; "isWellFormed"; "lastIndexOf";
         "localeCompare"; "match"; "matchAll"; "normalize"; "padEnd"; "padStart";
         "repeat"; "replace"; "replaceAll"; "search"; "slice"; "split";
         "startsWith"; "substring"; "toLocaleLowerCase"; "toLocaleUpperCase";
         "toLowerCase"; "toString"; "toUpperCase"; "toWellFormed"; "trim";
         "trimEnd"; "trimStart"; "valueOf";
         "substr"; "anchor"; "big"; "blink"; "bold"; "fixed"; "fontcolor";
         "fontsize"; "italics"; "link"; "small"; "strike"; "sub"; "sup";
         "trimLeft"; "trimRight"]%string.

Definition number_members : list jsstring :=
  names ["constructor"; "toExponential"; "toFixed"; "toLocaleString";
         "toPrecision"; "toString"; "valueOf"]%string.

Definition boolean_members : list jsstring :=
  names ["constructor"; "toString"; "valueOf"]%string.

Definition named (k : jsstring) (l : list jsstring) : bool := existsb (Str.eqb k) l.

(** [k] is a member of the prototype chain of [v] *)
Definition inherited (v : value) (k : jsstring) : bool :=
  match v with
  | VObj _ => named k object_members
  | VArr _ => named k array_members || named k object_members
  | VStr _ => named k string_members || named k object_members
  | VNum _ => named k number_members || named k object_members
  | VBool _ => named k boolean_members || named k object_members
  | VUndefined | VNull => false
  end.

(** [v[k]] for a value that is neither null nor undefined: the own
    property, [undefined] when there is no such property anywhere, and
    [None] for an inherited member, which is not data. *)
Definition get (v : value) (k : jsstring) : option value :=
  match own v k with
  | Some x => Some x
  | None => if inherited v k then None else Some VUndefined
  end.

Fixpoint set_nth (i : nat) (x : value) (l : list value) : list value :=
  match i, l with
  | O, [] => [x]
  | O, _ :: l' => x :: l'
  | S i', [] => VUndefined :: set_nth i' x []
  | S i', y :: l' => y :: set_nth i' x l'
  end.

(** the integer a number stands for, when it is one *)
Definition integer_value (x : number) : option Z :=
  match x with
  | S754_zero _ => Some 0
  | S754_finite s m e =>
      let sign z := if s then - z else z in
      if 0 <=? e then Some (sign (Zpos m * 2 ^ e))
      else if Zpos m mod 2 ^ (- e) =? 0 then Some (sign (Zpos m / 2 ^ (- e)))
      else None
  | _ => None
  end.

(** ArraySetLength *)
Definition set_length (l : list value) (x : value) : result value :=
  n <- ToNumber x ;;
  match integer_value n with
  | Some n =>
      if (0 <=? n) && (n <? 2 ^ 32) then
        Ok (VArr (firstn (Z.to_nat n) l
                  ++ repeat VUndefined (Z.to_nat n - List.length l)))
      else Throw RangeError
  | None => Throw RangeError
  end.

(** *** Assignment

    [o[k] = x] looks [k] up along the prototype chain of [o]. For every key
    but [__proto__] it finds an own property, a writable method or nothing,
    and the own property is written. For [__proto__] it finds the accessor
    of [Object.prototype], unless the key is an own property of [o] (as
    [JSON.parse] makes it) or the chain has been cut short of the accessor
    by an earlier assignment. The setter makes an object or null the new
    prototype of [o] and ignores any other value.

    An object is assigned to together with the flag [detached]: its
    prototype chain no longer leads to the accessor. *)

Definition proto_key : jsstring := js "__proto__".

Definition reaches_setter (ps : props) (detached : bool) (k : jsstring) : bool :=
  Str.eqb k proto_key && negb detached
  && match assoc k ps with Some _ => false | None => true end.

(** the flag after [o.__proto__ = x] has called the setter *)
Definition set_prototype (x : value) (detached : bool) : bool :=
  match x with
  | VNull => true
  | VObj qs => match assoc proto_key qs with Some _ => true | None => false end
  | VArr _ => false
  | _ => detached
  end.

(** [o[k] = x] on an ordinary object *)
Definition obj_put (o : props * bool) (k : jsstring) (x : value) : props * bool :=
  let '(ps, detached) := o in
  if reaches_setter ps detached k then (ps, set_prototype x detached)
  else (obj_set ps k x, detached).

(** [v[k] = x] in strict mode; the value is [v] after the assignment *)
Definition put (t : value * bool) (k : jsstring) (x : value)
  : result (value * bool) :=
  match fst t with
  | VObj ps => let '(ps', detached) := obj_put (ps, snd t) k x in
               Ok (VObj ps', detached)
  | VArr l =>
      if Str.eqb k length_key then v <- set_length l x ;; Ok (v, snd t)
      else match array_index k with
           | Some i => Ok (VArr (set_nth (Z.to_nat i) x l), snd t)
           | None => Ok t   (* a named property or the prototype: not part
                               of the JSON value *)
           end
  | VBool _ | VNum _ | VStr _ =>
      (* the setter returns without a change; any other key is refused *)
      if Str.eqb k proto_key then Ok t else Throw TypeError
  | VUndefined | VNull => Throw TypeError
  end.

(** [delete v[k]] in strict mode; the value is [v] after the deletion *)
Definition del (v : value) (k : jsstring) : result value :=
  match v with
  | VObj ps => Ok (VObj (obj_delete ps k))
  | VArr l =>
      if Str.eqb k length_key then Throw TypeError
      else match array_index k with
           | Some i => if i <? len l
                       then Ok (VArr (set_nth (Z.to_nat i) VUndefined l))
                       else Ok v
           | None => Ok v
           end
  | VStr s =>
      if Str.eqb k length_key then Throw TypeError
      else match array_index k with
           | Some i => if i <? len s then Throw TypeError else Ok v
           | None => Ok v
           end
  | VNum _ | VBool _ => Ok v
  | VUndefined | VNull => Throw TypeError
  end.

End JS.

Import JS.

(** ** JSON *)

Module JSON.

Definition is_ws (c : N) : bool :=
  ((c =? 32) || (c =? 10) || (c =? 13) || (c =? 9))%N.

Fixpoint skip_ws (l : list N) : list N :=
  match l with
  | c :: r => if is_ws c then skip_ws r else l
  | [] => []
  end.

Fixpoint strip_prefix (p l : list N) : option (list N) :=
  match p, l with
  | [], _ => Some l
  | a :: p', b :: l' => if (a =? b)%N then strip_prefix p' l' else None
  | _ :: _, [] => None
  end.

(** *** Strings *)

Definition hex_value (c : N) : option N :=
  if is_digit c then Some (c - 48)%N
  else if ((97 <=? c) && (c <=? 102))%N then Some (c - 87)%N
  else if ((65 <=? c) && (c <=? 70))%N then Some (c - 55)%N
  else None.

Definition hex4 (a b c d : N) : option N :=
  match hex_value a, hex_value b, hex_value c, hex_value d with
  | Some x, Some y, Some z, Some w => Some (((x * 16 + y) * 16 + z) * 16 + w)%N
  | _, _, _, _ => None
  end.

Definition cons_char (c : N) (r : option (jsstring * list N)) :=
  match r with
  | Some (s, rest) => Some (c :: s, rest)
  | None => None
  end.

(** the characters of a string literal, after its opening quote *)
Fixpoint parse_string (l : list N) : option (jsstring * list N) :=
  match l with
  | [] => None
  | c :: r =>
      if (c =? 34)%N then Some ([], r)
      else if (c =? 92)%N then
        match r with
        | [] => None
        | e :: r' =>
            if (e =? 34)%N then cons_char 34%N (parse_string r')
            else if (e =? 92)%N then cons_char 92%N (parse_string r')
            else if (e =? 47)%N then cons_char 47%N (parse_string r')
            else if (e =? 98)%N then cons_char 8%N (parse_string r')
            else if (e =? 102)%N then cons_char 12%N (parse_string r')
            else if (e =? 110)%N then cons_char 10%N (parse_string r')
            else if (e =? 114)%N then cons_char 13%N (parse_string r')
            else if (e =? 116)%N then cons_char 9%N (parse_string r')
            else if (e =? 117)%N then
              match r' with
              | a :: b :: c' :: d :: r'' =>
                  match hex4 a b c' d with
                  | Some u => cons_char u (parse_string r'')
                  | None => None
                  end
              | _ => None
              end
            else None
        end
      else if (c <? 32)%N then None
      else cons_char c (parse_string r)
  end.

(** *** Numbers: an optional minus sign, an integer part without leading
    zero, an optional fraction and an optional exponent *)

Definition parse_int (l : list N) : option (list N * list N) :=
  match l with
  | c :: r =>
      if (c =? 48)%N then Some ([c], r)
      else if is_digit c then Some (span_digits l)
      else None
  | [] => None
  end.

Definition parse_frac (l : list N) : option (list N * list N) :=
  match l with
  | c :: r =>
      if (c =? 46)%N then
        match span_digits r with
        | ([], _) => None
        | (ds, r') => Some (ds, r')
        end
      else Some ([], l)
  | [] => Some ([], l)
  end.

Definition parse_exp (l : list N) : option (Z * list N) :=
  match l with
  | c :: r =>
      if ((c =? 101) || (c =? 69))%N then
        let '(neg, r1) := match r with
                          | s :: r' => if (s =? 45)%N then (true, r')
                                       else if (s =? 43)%N then (false, r')
                                       else (false, r)
                          | [] => (false, r)
                          end in
        match span_digits r1 with
        | ([], _) => None
        | (ds, r') => Some (if neg then - digits_value ds else digits_value ds, r')
        end
      else Some (0, l)
  | [] => Some (0, l)
  end.

Definition parse_unsigned (neg : bool) (r : list N) : option (number * list N) :=
  match parse_int r with
  | None => None
  | Some (ip, r1) =>
      match parse_frac r1 with
      | None => None
      | Some (fp, r2) =>
          match parse_exp r2 with
          | None => None
          | Some (e, r3) =>
              Some (Num.of_decimal neg (digits_value (ip ++ fp))
                                   (e - Z.of_nat (List.length fp)), r3)
          end
      end
  end.

Definition parse_number (l : list N) : option (number * list N) :=
  match l with
  | c :: r => if (c =? 45)%N then parse_unsigned true r else parse_unsigned false l
  | [] => None
  end.

(** *** Values *)

Definition parse_literal (l : list N) : option (value * list N) :=
  match strip_prefix (js "true") l with
  | Some r => Some (VBool true, r)
  | None =>
  match strip_prefix (js "false") l with
  | Some r => Some (VBool false, r)
  | None =>
  match strip_prefix (js "null") l with
  | Some r => Some (VNull, r)
  | None =>
  match parse_number l with
  | Some (n, r) => Some (VNum n, r)
  | None => None
  end end end end.

Fixpoint parse_value (fuel : nat) (l : list N) : option (value * list N) :=
  match fuel with
  | O => None
  | S f =>
      match skip_ws l with
      | [] => None
      | c :: r =>
          if (c =? 123)%N then
            match skip_ws r with
            | [] => None
            | c' :: r' => if (c' =? 125)%N then Some (VObj [], r')
                          else parse_members f [] (c' :: r')
            end
          else if (c =? 91)%N then
            match skip_ws r with
            | [] => None
            | c' :: r' => if (c' =? 93)%N then Some (VArr [], r')
                          else parse_elements f [] (c' :: r')
            end
          else if (c =? 34)%N then
            match parse_string r with
            | Some (s, r') => Some (VStr s, r')
            | None => None
            end
          else parse_literal (c :: r)
      end
  end

(** the elements of an array, up to its closing bracket *)
with parse_elements (fuel : nat) (acc : list value) (l : list N)
  : option (value * list N) :=
  match fuel with
  | O => None
  | S f =>
      match parse_value f l with
      | None => None
      | Some (v, r) =>
          match skip_ws r with
          | [] => None
          | c :: r' =>
              if (c =? 44)%N then parse_elements f (v :: acc) r'
              else if (c =? 93)%N then Some (VArr (rev (v :: acc)), r')
              else None
          end
      end
  end

(** the members of an object, up to its closing brace *)
with parse_members (fuel : nat) (acc : props) (l : list N)
  : option (value * list N) :=
  match fuel with
  | O => None
  | S f =>
      match skip_ws l with
      | [] => None
      | q :: r0 =>
          if (q =? 34)%N then
            match parse_string r0 with
            | None => None
            | Some (k, r1) =>
                match skip_ws r1 with
                | [] => None
                | c :: r2 =>
                    if (c =? 58)%N then
                      match parse_value f r2 with
                      | None => None
                      | Some (v, r3) =>
                          match skip_ws r3 with
                          | [] => None
                          | c' :: r4 =>
                              if (c' =? 44)%N
                              then parse_members f (obj_set acc k v) r4
                              else if (c' =? 125)%N
                              then Some (VObj (obj_set acc k v), r4)
                              else None
                          end
                      end
                    else None
                end
            end
          else None
      end
  end.

Definition fuel_for (text : jsstring) : nat := 2 * List.length text + 1.

(** [JSON.parse(text)] *)
Definition parse (text : jsstring) : result value :=
  match parse_value (fuel_for text) text with
  | Some (v, r) =>
      match skip_ws r with
      | [] => Ok v
      | _ => Throw SyntaxError
      end
  | None => Throw SyntaxError
  end.

(** *** JSON.stringify(value, null, 2) *)

Definition hex_digit (d : N) : N :=
  if (d <? 10)%N then (48 + d)%N else (87 + d)%N.

Definition unicode_escape (c : N) : list N :=
  [92; 117; hex_digit (c / 4096 mod 16); hex_digit (c / 256 mod 16);
   hex_digit (c / 16 mod 16); hex_digit (c mod 16)]%N.

Definition is_high_surrogate (c : N) : bool := ((55296 <=? c) && (c <=? 56319))%N.
Definition is_low_surrogate (c : N) : bool := ((56320 <=? c) && (c <=? 57343))%N.

(** QuoteJSONString, without the surrounding quotes *)
Fixpoint escape (s : jsstring) : list N :=
  match s with
  | [] => []
  | c :: r =>
      if (c =? 8)%N then 92%N :: 98%N :: escape r
      else if (c =? 9)%N then 92%N :: 116%N :: escape r
      else if (c =? 10)%N then 92%N :: 110%N :: escape r
      else if (c =? 12)%N then 92%N :: 102%N :: escape r
      else if (c =? 13)%N then 92%N :: 114%N :: escape r
      else if (c =? 34)%N then 92%N :: 34%N :: escape r
      else if (c =? 92)%N then 92%N :: 92%N :: escape r
      else if (c <? 32)%N then unicode_escape c ++ escape r
      else if is_high_surrogate c then
        match r with
        | d :: r' => if is_low_surrogate d then c :: d :: escape r'
                     else unicode_escape c ++ escape r
        | [] => unicode_escape c
        end
      else if is_low_surrogate c then unicode_escape c ++ escape r
      else c :: escape r
  end.

Definition quote (s : jsstring) : list N := 34%N :: escape s ++ [34%N].

Definition newline (indent : nat) : list N := 10%N :: repeat 32%N indent.

Fixpoint join (sep : list N) (items : list (list N)) : list N :=
  match items with
  | [] => []
  | [x] => x
  | x :: items' => x ++ sep ++ join sep items'
  end.

Definition null_text : list N := js "null".

(** SerializeJSONProperty at the given indentation; [None] is [undefined] *)
Fixpoint serialize (indent : nat) (v : value) : option (list N) :=
  match v with
  | VUndefined => None
  | VNull => Some null_text
  | VBool true => Some (js "true")
  | VBool false => Some (js "false")
  | VNum n => Some (if Num.is_finite n then Num.to_string n else null_text)
  | VStr s => Some (quote s)
  | VArr l =>
      let items :=
        (fix items (l : list value) : list (list N) :=
           match l with
           | [] => []
           | x :: l' =>
               match serialize (2 + indent) x with
               | Some t => t
               | None => null_text
               end :: items l'
           end) l in
      match items with
      | [] => Some [91; 93]%N
      | _ => Some (91%N :: newline (2 + indent)
                    ++ join (44%N :: newline (2 + indent)) items
                    ++ newline indent ++ [93%N])
      end
  | VObj ps =>
      let members :=
        (fix members (ps : props) : list (list N) :=
           match ps with
           | [] => []
           | (k, x) :: ps' =>
               match serialize (2 + indent) x with
               | Some t => (quote k ++ 58%N :: 32%N :: t) :: members ps'
               | None => members ps'
               end
           end) ps in
      match members with
      | [] => Some [123; 125]%N
      | _ => Some (123%N :: newline (2 + indent)
                    ++ join (44%N :: newline (2 + indent)) members
                    ++ newline indent ++ [125%N])
      end
  end.

(** [JSON.stringify(v, null, 2)] *)
Definition stringify (v : value) : option jsstring := serialize 0 v.

End JSON.

(** ** The component *)

Module NodeModal.

(** a path segment is [string | number] *)
Inductive segment :=
| SegKey (s : jsstring)
| SegIndex (n : number).

(** [NodeRow] of [types/graph]: a key (null for an unnamed value), the raw
    value and the type tag *)
Record NodeRow := {
  key : option jsstring;
  value : JS.value;
  type : option jsstring
}.

(** [NodeData] of [types/graph] *)
Record NodeData := {
  id : jsstring;
  text : list NodeRow;
  path : option (list segment)
}.

(** [!row.key] *)
Definition no_key (r : NodeRow) : bool :=
  match key r with
  | None => true
  | Some k => Str.is_empty k
  end.

(** [type === t] *)
Definition tagged (type : option jsstring) (t : string) : bool :=
  match type with
  | Some s => Str.eqb s (js t)
  | None => false
  end.

Definition type_is (r : NodeRow) (t : string) : bool := tagged (type r) t.

(** *** normalizeNodeData *)

(** the body of [nodeRows.forEach(row => ...)]: [obj[row.key] = row.value]
    on the object [obj] that starts as [{}] *)
Definition add_row (obj : props * bool) (row : NodeRow) : props * bool :=
  if negb (type_is row "array") && negb (type_is row "object") then
    match key row with
    | Some k => if Str.is_empty k then obj else obj_put obj k (value row)
    | None => obj
    end
  else obj.

(** the template literal of the single row throws when [String] does *)
Definition normalizeNodeData (nodeRows : option (list NodeRow))
  : result (option jsstring) :=
  match nodeRows with
  | None | Some [] => Ok (Some (js "{}"))
  | Some ((row0 :: rest) as rows) =>
      if Nat.eqb (List.length rows) 1 && no_key row0
      then s <- ToString (value row0) ;; Ok (Some s)
      else Ok (JSON.stringify (VObj (fst (fold_left add_row rows ([], false)))))
  end.

(** *** jsonPathToString *)

Definition segment_text (seg : segment) : jsstring :=
  match seg with
  | SegIndex n => Num.to_string n
  | SegKey s => 34%N :: s ++ [34%N]
  end.

Definition jsonPathToString (p : option (list segment)) : jsstring :=
  match p with
  | None | Some [] => js "$"
  | Some segs =>
      js "$[" ++ JSON.join (js "][") (map segment_text segs) ++ js "]"
  end.

(** *** State: the stores the component reads and writes *)

Record state := {
  selectedNode : option NodeData;  (* useGraph *)
  json : jsstring;                 (* useJson *)
  contents : option jsstring;      (* useFile: the text given to setContents *)
  hasChanges : bool;               (* useFile *)
  editing : bool;                  (* React state *)
  rows : list NodeRow;             (* React state *)
  warnings : list error            (* console.warn *)
}.

(** *** convertValueByType *)

Definition convertValueByType (type : option jsstring) (value : jsstring) : JS.value :=
  if tagged type "number" then
    let n := StringToNumber value in
    if Num.isNaN n then VStr value else VNum n
  else if tagged type "boolean" then VBool (Str.eqb value (js "true"))
  else if tagged type "null" then VNull
  else VStr value.

(** *** handleSave *)

(** the property key a segment is used as *)
Definition ToPropertyKey (seg : segment) : jsstring :=
  match seg with
  | SegKey s => s
  | SegIndex n => Num.to_string n
  end.

(** [(acc, seg) => (acc ? acc[seg] : undefined)] *)
Definition reducer (acc : JS.value) (seg : segment) : option JS.value :=
  if ToBoolean acc then get acc (ToPropertyKey seg) else Some VUndefined.

(** [targetPath.reduce(reducer, parsed)]; [None] once a segment has named
    a member of a built-in prototype *)
Definition reduce_step (acc : option JS.value) (seg : segment) : option JS.value :=
  match acc with
  | Some v => reducer v seg
  | None => None
  end.

Definition reduce (targetPath : list segment) (parsed : JS.value) : option JS.value :=
  fold_left reduce_step targetPath (Some parsed).

(** A reference into [parsed]: where the object lives and what it holds. *)
Record reference := {
  location : list jsstring;
  referent : JS.value
}.

Definition objToEdit (parsed : JS.value) (targetPath : list segment)
  : option reference :=
  match targetPath with
  | [] => Some {| location := []; referent := parsed |}
  | _ =>
      match reduce targetPath parsed with
      | Some v =>
          Some (if nullish v
                then {| location := []; referent := parsed |}
                else {| location := map ToPropertyKey targetPath; referent := v |})
      | None => None
      end
  end.

(** what [parsed] is once the object at [loc] has become [new] *)
Fixpoint store_at (loc : list jsstring) (new : JS.value) (v : JS.value) : JS.value :=
  match loc with
  | [] => new
  | k :: loc' =>
      match v with
      | VObj ps =>
          match assoc k ps with
          | Some child => VObj (replace_prop k (store_at loc' new child) ps)
          | None => v
          end
      | VArr l =>
          match array_index k with
          | Some i =>
              if i <? len l
              then VArr (set_nth (Z.to_nat i) (store_at loc' new (nth_value l i)) l)
              else v
          | None => v
          end
      | _ => v
      end
  end.

(** the key of [originalRow && originalRow.key && originalRow.key !== newKey],
    which is deleted *)
Definition staleKey (originalRow : option NodeRow) (newKey : jsstring)
  : option jsstring :=
  match originalRow with
  | Some o =>
      match key o with
      | Some ok =>
          if negb (Str.is_empty ok) && negb (Str.eqb ok newKey) then Some ok
          else None
      | None => None
      end
  | None => None
  end.

(** the body of [rows.forEach((r, idx) => ...)], on the object under edit
    and its flag *)
Definition editRow (originalRow : option NodeRow) (r : NodeRow)
  (obj : JS.value * bool) : result (JS.value * bool) :=
  if no_key r then Ok obj
  else
    let newKey := match key r with Some k => k | None => [] end in
    let newValueRaw := value r in
    text <- ToString newValueRaw ;;
    let newValue := convertValueByType (type r) text in
    obj1 <- match staleKey originalRow newKey with
            | Some ok => v <- del (fst obj) ok ;; Ok (v, snd obj)
            | None => Ok obj
            end ;;
    put obj1 newKey newValue.

Fixpoint forEach (idx : nat) (rs : list NodeRow) (original : list NodeRow)
  (obj : JS.value * bool) : result (JS.value * bool) :=
  match rs with
  | [] => Ok obj
  | r :: rs' =>
      obj' <- editRow (nth_error original idx) r obj ;;
      forEach (S idx) rs' original obj'
  end.

Definition targetPath (st : state) : list segment :=
  match selectedNode st with
  | Some nd => match path nd with Some p => p | None => [] end
  | None => []
  end.

Definition originalRows (st : state) : list NodeRow :=
  match selectedNode st with
  | Some nd => text nd
  | None => []
  end.

(** the text [json || "{}"] that [handleSave] parses *)
Definition source_text (st : state) : jsstring :=
  if Str.is_empty (json st) then js "{}" else json st.

(** the rows written to the object of a reference into [parsed] *)
Definition writeRows (st : state) (parsed : JS.value) (target : reference)
  : result JS.value :=
  obj <- forEach 0 (rows st) (originalRows st) (referent target, false) ;;
  Ok (store_at (location target) (fst obj) parsed).

(** the [try] block up to [JSON.stringify]: the edited document, or the
    error thrown. Where the path leads to a built-in object, rows without a
    key still write nothing; a row with a key is written to that object,
    and the outcome is [None]. *)
Definition applyEdits (st : state) : option (result JS.value) :=
  match JSON.parse (source_text st) with
  | Ok parsed =>
      match objToEdit parsed (targetPath st) with
      | Some target => Some (writeRows st parsed target)
      | None => if forallb no_key (rows st) then Some (Ok parsed) else None
      end
  | Throw e => Some (Throw e)
  end.

(** [setContents({ contents: jsonStr, hasChanges: true })] and
    [setEditing(false)] *)
Definition commit (jsonStr : option jsstring) (st : state) : state :=
  {| selectedNode := selectedNode st;
     json := json st;
     contents := jsonStr;
     hasChanges := true;
     editing := false;
     rows := rows st;
     warnings := warnings st |}.

(** [console.warn("Failed to save node edits", e)] *)
Definition warn (e : error) (st : state) : state :=
  {| selectedNode := selectedNode st;
     json := json st;
     contents := contents st;
     hasChanges := hasChanges st;
     editing := editing st;
     rows := rows st;
     warnings := e :: warnings st |}.

Definition handleSave (st : state) : option state :=
  match applyEdits st with
  | Some (Ok parsed) => Some (commit (JSON.stringify parsed) st)
  | Some (Throw e) => Some (warn e st)
  | None => None
  end.

(** the reference to the document itself *)
Definition root (doc : JS.value) : reference :=
  {| location := []; referent := doc |}.

(** the value [handleSave] writes for a row *)
Definition coerced (r : NodeRow) : result JS.value :=
  text <- ToString (value r) ;; Ok (convertValueByType (type r) text).

(** the state in which Save is pressed on a node of the given document *)
Definition pressed (node : option NodeData) (json : jsstring)
  (rows : list NodeRow) : state :=
  {| selectedNode := node;
     json := json;
     contents := Some json;
     hasChanges := false;
     editing := true;
     rows := rows;
     warnings := [] |}.

Definition node_at (p : list segment) (text : list NodeRow) : NodeData :=
  {| id := []; text := text; path := Some p |}.

Definition row (k : string) (v : JS.value) (t : string) : NodeRow :=
  {| key := Some (js k); value := v; type := Some (js t) |}.

(** the object [handleSave] edits, as a value *)
Definition resolve (document : JS.value) (p : list segment) : option JS.value :=
  option_map referent (objToEdit document p).

End NodeModal.

Import NodeModal.

(** ** The specification's wording, for comparison with the code *)

Module Spec.

(** the lookup of the specification: an object key or an array index,
    [undefined] when there is none *)
Definition lookup (v : JS.value) (k : jsstring) : JS.value :=
  match own v k with
  | Some x => x
  | None => VUndefined
  end.

(** indexing one segment at a time, with nothing else in between *)
Definition index (document : JS.value) (p : list segment) : JS.value :=
  fold_left (fun acc seg => lookup acc (ToPropertyKey seg)) p document.

(** PathResolver as the specification words it: the addressed sub-value,
    the root when the path is empty or a lookup finds nothing *)
Definition resolve (document : JS.value) (p : list segment) : JS.value :=
  match p with
  | [] => document
  | _ => match index document p with
         | VUndefined => document
         | v => v
         end
  end.

(** the falsy values a JSON document can hold besides null *)
Definition falsy_scalar (v : JS.value) : Prop :=
  v = VBool false \/ (exists s, v = VNum (S754_zero s)) \/ v = VStr [].


Definition key_of (r : NodeRow) : jsstring :=
  match key r with
  | Some k => k
  | None => []
  end.


End Spec.


(** ** The documents and rows of the scenarios *)

Module Scenario.
Local Open Scope string_scope.

Definition num (z : Z) : JS.value := VNum (Num.of_Z z).
Definition str (s : string) : JS.value := VStr (js s).
Definition obj (ps : list (string * JS.value)) : JS.value :=
  VObj (map (fun kv => (js (fst kv), snd kv)) ps).

(** the end-to-end scenario: the customer is renamed and ages a year *)
Definition customer : JS.value :=
  obj [("customer", obj [("name", str "Alice"); ("age", num 30)])].
Definition customer_text : jsstring :=
  jsq "{'customer':{'name':'Alice','age':30}}".
Definition customer_path : list segment := [SegKey (js "customer")].
Definition customer_original : list NodeRow :=
  [row "name" (str "Alice") "string"; row "age" (num 30) "number"].
Definition customer_edited : list NodeRow :=
  [row "name" (str "Bob") "string"; row "age" (str "31") "number"].
Definition customer_saved : JS.value :=
  obj [("customer", obj [("name", str "Bob"); ("age", num 31)])].
Definition customer_saved_text : jsstring :=
  jsq "{
  'customer': {
    'name': 'Bob',
    'age': 31
  }
}".



(** a path that ends on a number: the write throws after the parse *)
Definition on_a_number : state :=
  pressed (Some (node_at [SegKey (js "a")] [])) (jsq "{'a':5}")
          [row "x" (str "1") "number"].

(** the rename of the specification: [a] becomes [b] *)
Definition rename : state :=
  pressed (Some (node_at [] [row "a" (num 1) "number"])) (jsq "{'a':1}")
          [row "b" (str "2") "number"].

(** a number row whose text is no number *)
Definition not_a_number : state :=
  pressed (Some (node_at [] [row "age" (num 30) "number"])) (jsq "{'age':30}")
          [row "age" (str "abc") "number"].

(** rows that say nothing about the node they are saved on *)
Definition unrelated : state :=
  pressed (Some (node_at [] [row "b" (num 2) "number"])) (jsq "{'a':1}")
          [row "b" (num 2) "number"].

(** a root node whose only row stands for a nested object *)
Definition nested : state :=
  pressed (Some (node_at [] [row "customer" (obj [("name", str "Alice")]) "object"]))
          (jsq "{'customer':{'name':'Alice'}}")
          [row "customer" (obj [("name", str "Alice")]) "object"].

(** a root node saved without edits *)
Definition untouched : state :=
  pressed (Some (node_at [] [row "name" (str "Alice") "string";
                             row "age" (num 30) "number";
                             row "vip" (VBool true) "boolean";
                             row "note" VNull "null"]))
          (jsq "{'name':'Alice','age':30,'vip':true,'note':null,'tags':['a']}")
          [row "name" (str "Alice") "string";
           row "age" (num 30) "number";
           row "vip" (VBool true) "boolean";
           row "note" VNull "null"].

(** a path that ends on null *)
Definition on_null : state :=
  pressed (Some (node_at [SegKey (js "a")] [])) (jsq "{'a':null}")
          [row "x" (str "1") "number"].

(** a path that passes through an empty string *)
Definition through_empty : state :=
  pressed (Some (node_at [SegKey (js "s"); SegKey (js "length")] []))
          (jsq "{'s':''}")
          [row "x" (str "1") "number"].








(** a path that names a method of [Object.prototype] *)
Definition at_valueOf : state :=
  pressed (Some (node_at [SegKey (js "valueOf")] [])) (jsq "{'a':1}")
          [row "x" (str "1") "number"].


End Scenario.

(** ** Notions used to state the facts about JSON text *)

Module JSONText.
Import JSON.

(** the next character, if any, does not satisfy [p] *)
Definition stops (p : N -> bool) (rest : list N) : Prop :=
  match rest with
  | [] => True
  | c :: _ => p c = false
  end.

(** what follows a serialized value: nothing, a comma or a line break *)
Definition terminated (rest : list N) : Prop :=
  match rest with
  | [] => True
  | c :: _ => c = 44%N \/ c = 10%N
  end.

(** digits with a first digit that is not zero *)
Definition digits_nz (ds : list N) : Prop :=
  match ds with
  | [] => False
  | d :: ds' => is_digit d = true /\ d <> 48%N /\ forallb is_digit ds' = true
  end.

Definition mono_at (f : nat) : Prop :=
  (forall l res, parse_value f l = Some res -> parse_value (S f) l = Some res)
  /\ (forall acc l res,
        parse_elements f acc l = Some res -> parse_elements (S f) acc l = Some res)
  /\ (forall acc l res,
        parse_members f acc l = Some res -> parse_members (S f) acc l = Some res).

Definition shrinks_at (f : nat) : Prop :=
  (forall l v r, parse_value f l = Some (v, r) ->
                 (List.length r < List.length l)%nat)
  /\ (forall acc l v r, parse_elements f acc l = Some (v, r) ->
                        (List.length r < List.length l)%nat)
  /\ (forall acc l v r, parse_members f acc l = Some (v, r) ->
                        (List.length r < List.length l)%nat).

Definition adequate_at (n : nat) : Prop :=
  (forall l f res, (List.length l <= n)%nat ->
     parse_value f l = Some res -> parse_value (S (2 * n)) l = Some res)
  /\ (forall acc l f res, (List.length l <= n)%nat ->
        parse_elements f acc l = Some res ->
        parse_elements (S (S (2 * n))) acc l = Some res)
  /\ (forall acc l f res, (List.length l <= n)%nat ->
        parse_members f acc l = Some res ->
        parse_members (S (S (2 * n))) acc l = Some res).

Definition item_text (indent : nat) (x : JS.value) : list N :=
  match serialize indent x with
  | Some t => t
  | None => null_text
  end.

Definition member_text (k : jsstring) (t : list N) : list N :=
  quote k ++ 58%N :: 32%N :: t.

Fixpoint member_texts (indent : nat) (ps : props) : list (list N) :=
  match ps with
  | [] => []
  | (k, x) :: ps' =>
      match serialize indent x with
      | Some t => member_text k t :: member_texts indent ps'
      | None => member_texts indent ps'
      end
  end.

Definition wrap (opening closing : N) (indent : nat) (items : list (list N))
  : list N :=
  match items with
  | [] => [opening; closing]
  | _ => opening :: newline (2 + indent)
           ++ join (44%N :: newline (2 + indent)) items
           ++ newline indent ++ [closing]
  end.

(** a character a value can start with *)
Definition starts_value (c : N) : Prop :=
  is_ws c = false /\ c <> 93%N /\ c <> 125%N.

(** [t] is read as one value, whatever follows it in a serialization *)
Definition reads_value (t : list N) : Prop :=
  (exists c t', t = c :: t' /\ starts_value c)
  /\ forall rest, terminated rest ->
       exists f v, parse_value f (t ++ rest) = Some (v, rest).

Definition reads_member (m : list N) : Prop :=
  exists k t, m = member_text k t /\ reads_value t.

End JSONText.

(** ** Regular expressions, as far as [isHexColor] goes *)

Module Regex.

Inductive regex :=
| Fail
| Eps
| Class (p : N -> bool)
| Seq (a b : regex)
| Alt (a b : regex).

(** [a{n}] *)
Fixpoint times (n : nat) (a : regex) : regex :=
  match n with
  | O => Eps
  | S n' => Seq a (times n' a)
  end.

Fixpoint nullable (r : regex) : bool :=
  match r with
  | Fail => false
  | Eps => true
  | Class _ => false
  | Seq a b => nullable a && nullable b
  | Alt a b => nullable a || nullable b
  end.

(** what is left of [r] once the character [c] is read *)
Fixpoint deriv (c : N) (r : regex) : regex :=
  match r with
  | Fail | Eps => Fail
  | Class p => if p c then Eps else Fail
  | Seq a b => if nullable a then Alt (Seq (deriv c a) b) (deriv c b)
               else Seq (deriv c a) b
  | Alt a b => Alt (deriv c a) (deriv c b)
  end.

(** [/^r$/.test(s)] *)
Definition test (r : regex) (s : jsstring) : bool :=
  nullable (fold_left (fun r c => deriv c r) s r).

End Regex.

(** ** The dialog: what the user can do between opening and saving *)

Module Dialog.

(** the class [[0-9A-F]] under the flag [i] *)
Definition hex_class (c : N) : bool :=
  (is_digit c || (65 <=? c) && (c <=? 70) || (97 <=? c) && (c <=? 102))%N.

(** [/^#([0-9A-F]{3}|[0-9A-F]{6})$/i] *)
Definition hex_color : Regex.regex :=
  Regex.Seq (Regex.Class (N.eqb 35))
            (Regex.Alt (Regex.times 3 (Regex.Class hex_class))
                       (Regex.times 6 (Regex.Class hex_class))).

Definition isHexColor (v : JS.value) : bool :=
  match v with
  | VStr s => Regex.test hex_color s
  | _ => false
  end.

Definition setRows (rs : list NodeRow) (st : state) : state :=
  {| selectedNode := selectedNode st;
     json := json st;
     contents := contents st;
     hasChanges := hasChanges st;
     editing := editing st;
     rows := rs;
     warnings := warnings st |}.

Definition setEditing (b : bool) (st : state) : state :=
  {| selectedNode := selectedNode st;
     json := json st;
     contents := contents st;
     hasChanges := hasChanges st;
     editing := b;
     rows := rows st;
     warnings := warnings st |}.

(** the effect that runs when the node changes or the dialog opens *)
Definition useEffect (st : state) : state :=
  setEditing false (setRows (originalRows st) st).

Definition handleEdit (st : state) : state := setEditing true st.

Definition handleCancel (st : state) : state :=
  setEditing false (setRows (originalRows st) st).

(** [newRows[idx] = { ...newRows[idx], ... }] for a row that is rendered *)
Fixpoint update_row (idx : nat) (f : NodeRow -> NodeRow) (rs : list NodeRow)
  : list NodeRow :=
  match idx, rs with
  | _, [] => []
  | O, r :: rs' => f r :: rs'
  | S idx', r :: rs' => r :: update_row idx' f rs'
  end.

(** [onChange] of the Key input of row [idx] *)
Definition onKeyChange (idx : nat) (text : jsstring) (st : state) : state :=
  setRows (update_row idx
             (fun r => {| key := Some text; value := value r; type := type r |})
             (rows st)) st.

(** [onChange] of the Value input (text or color) of row [idx] *)
Definition onValueChange (idx : nat) (text : jsstring) (st : state) : state :=
  setRows (update_row idx
             (fun r => {| key := key r; value := VStr text; type := type r |})
             (rows st)) st.

Inductive event :=
| Opened
| ClickEdit
| ClickSave
| ClickCancel
| TypeKey (idx : nat) (text : jsstring)
| TypeValue (idx : nat) (text : jsstring).

(** the Key input of row [idx] is rendered *)
Definition key_shown (st : state) (idx : nat) : bool :=
  editing st &&
  match nth_error (rows st) idx with
  | Some r => negb (no_key r)
  | None => false
  end.

(** the Value input of row [idx] is rendered *)
Definition value_shown (st : state) (idx : nat) : bool :=
  editing st &&
  match nth_error (rows st) idx with
  | Some r => negb (no_key r)
              && negb (type_is r "object") && negb (type_is r "array")
  | None => false
  end.

(** the controls the render offers in a state *)
Definition enabled (st : state) (ev : event) : bool :=
  match ev with
  | Opened => true
  | ClickEdit => negb (editing st)
  | ClickSave | ClickCancel => editing st
  | TypeKey idx _ => key_shown st idx
  | TypeValue idx _ => value_shown st idx
  end.

(** the state after the handler; [None] when a save writes a row to a
    built-in object, where the dialog is no longer followed *)
Definition handle (ev : event) (st : state) : option state :=
  match ev with
  | Opened => Some (useEffect st)
  | ClickEdit => Some (handleEdit st)
  | ClickSave => handleSave st
  | ClickCancel => Some (handleCancel st)
  | TypeKey idx text => Some (onKeyChange idx text st)
  | TypeValue idx text => Some (onValueChange idx text st)
  end.

(** an event reaches its handler only through a rendered control *)
Definition fire (st : state) (ev : event) : option state :=
  if enabled st ev then handle ev st else Some st.

Definition step (acc : option state) (ev : event) : option state :=
  match acc with
  | Some st => fire st ev
  | None => None
  end.

Definition run (es : list event) (st : state) : option state :=
  fold_left step es (Some st).

(** a segment between its brackets *)
Definition bracket (seg : segment) : jsstring :=
  91%N :: segment_text seg ++ [93%N].

(** what the component shares with the rest of the application *)
Definition stores (st : state) :=
  (selectedNode st, json st, contents st, hasChanges st, warnings st).

Definition is_container (r : NodeRow) : bool :=
  type_is r "array" || type_is r "object".

(** row [r] of the dialog is row [o] of the node, edited *)
Definition edited_from (r o : NodeRow) : Prop :=
  type r = type o /\ (is_container r = true -> value r = value o).

(** a row whose type tag is the type of its value, for the four leaf types;
    a number has to read back from its own text *)
Definition leaf_row (r : NodeRow) : Prop :=
  match value r with
  | VStr _ => type r = Some (js "string")
  | VBool _ => type r = Some (js "boolean")
  | VNull => type r = Some (js "null")
  | VNum n => type r = Some (js "number") /\ Num.isNaN n = false
              /\ StringToNumber (Num.to_string n) = n
  | _ => False
  end.

(** what a write on it throws for: numbers, strings, booleans and null *)
Definition is_scalar (v : JS.value) : bool :=
  match v with
  | VNull | VBool _ | VNum _ | VStr _ => true
  | _ => false
  end.

(** the target holds, under the key of row [r], what the row saves *)
Definition agrees (ps : props) (r : NodeRow) : Prop :=
  forall k, key r = Some k -> k <> [] ->
  exists x, coerced r = Ok x /\ assoc k ps = Some x.

(** the own properties left once the stale key of a row is deleted *)
Definition pruned (originalRow : option NodeRow) (newKey : jsstring) (ps : props)
  : props :=
  match staleKey originalRow newKey with
  | Some ok => obj_delete ps ok
  | None => ps
  end.

(** no two rows have the same non-empty key *)
Definition distinct_keys (rs : list NodeRow) : Prop :=
  forall i j ri rj k,
  nth_error rs i = Some ri -> nth_error rs j = Some rj -> i <> j ->
  key ri = Some k -> k <> [] -> key rj <> Some k.

(** [String] does not throw on the value *)
Definition printable (v : JS.value) : bool :=
  match ToString v with
  | Ok _ => true
  | Throw _ => false
  end.

(** a row the save passes over, or whose value [String] converts *)
Definition convertible (r : NodeRow) : bool := no_key r || printable (value r).

(** the row has the key [k] *)
Definition keyed (k : jsstring) (r : NodeRow) : bool :=
  match key r with
  | Some k' => Str.eqb k' k
  | None => false
  end.

(** a session: the dialog opens on the node, Edit is clicked, one input
    is typed into and Save is clicked *)
Definition edit_value (idx : nat) (text : jsstring) : list event :=
  [Opened; ClickEdit; TypeValue idx text; ClickSave].

Definition edit_key (idx : nat) (text : jsstring) : list event :=
  [Opened; ClickEdit; TypeKey idx text; ClickSave].

(** a customer node in a document with more fields than the node shows *)
Definition account_doc : JS.value :=
  Scenario.obj
    [("customer"%string,
      Scenario.obj [("name"%string, Scenario.str "Alice");
                    ("age"%string, Scenario.num 30);
                    ("vip"%string, VBool true)]);
     ("total"%string, Scenario.num 2)].

Definition account_target : props :=
  [(js "name", Scenario.str "Alice"); (js "age", Scenario.num 30);
   (js "vip", VBool true)].

Definition account : state :=
  pressed (Some (node_at Scenario.customer_path Scenario.customer_original))
          (jsq "{'customer':{'name':'Alice','age':30,'vip':true},'total':2}")
          Scenario.customer_edited.

(** a node that shows a string and a nested object *)
Definition household_doc : JS.value :=
  Scenario.obj
    [("customer"%string,
      Scenario.obj [("name"%string, Scenario.str "Alice");
                    ("address"%string,
                     Scenario.obj [("city"%string, Scenario.str "Paris")])])].

Definition household_target : props :=
  [(js "name", Scenario.str "Alice");
   (js "address", Scenario.obj [("city"%string, Scenario.str "Paris")])].

Definition household_rows : list NodeRow :=
  [row "name" (Scenario.str "Alice") "string";
   row "address" (Scenario.obj [("city"%string, Scenario.str "Paris")]) "object"].

Definition household : state :=
  pressed (Some (node_at Scenario.customer_path household_rows))
          (jsq "{'customer':{'name':'Alice','address':{'city':'Paris'}}}")
          household_rows.

(** a row that has a key other than [__proto__] *)
Definition assigns (r : NodeRow) : bool :=
  negb (no_key r) && negb (keyed proto_key r).


(** the characters of a JSON number *)
Definition number_char (c : N) : bool :=
  (is_digit c || (c =? 43) || (c =? 45) || (c =? 46) || (c =? 69) || (c =? 101))%N.

(** the rows of the dialog are those of the node, edited in place *)
Definition aligned (st : state) : Prop :=
  Forall2 edited_from (rows st) (originalRows st).

(** events that leave the edited rows in place *)
Definition keeps_rows (ev : event) : bool :=
  match ev with
  | Opened | ClickCancel => false
  | _ => true
  end.

Definition is_save (ev : event) : bool :=
  match ev with
  | ClickSave => true
  | _ => false
  end.

End Dialog.

(** * Facts about the run time *)

Module StrFacts.

Lemma eqb_spec (a b : jsstring) : reflect (a = b) (Str.eqb a b).
Proof.
  revert b; induction a as [|x a IH]; intros [|y b]; simpl;
    try (constructor; congruence).
  destruct (N.eqb_spec x y) as [->|Hne]; simpl.
  - destruct (IH b) as [->|Hne]; constructor; congruence.
  - constructor; congruence.
Qed.

Lemma eqb_refl (a : jsstring) : Str.eqb a a = true.
Proof. destruct (eqb_spec a a); congruence. Qed.

Lemma eqb_neq (a b : jsstring) : a <> b -> Str.eqb a b = false.
Proof. destruct (eqb_spec a b); congruence. Qed.

Lemma eqb_sym (a b : jsstring) : Str.eqb a b = Str.eqb b a.
Proof.
  destruct (eqb_spec a b) as [->|Hne].
  - now rewrite eqb_refl.
  - symmetry; apply eqb_neq; congruence.
Qed.

Lemma is_empty_false (s : jsstring) : s <> [] -> Str.is_empty s = false.
Proof. now destruct s. Qed.

End StrFacts.

Module PropsFacts.
Import StrFacts.

Lemma assoc_replace_prop k k' x ps :
  assoc k (replace_prop k' x ps) =
  match assoc k' ps with
  | Some _ => if Str.eqb k' k then Some x else assoc k ps
  | None => assoc k ps
  end.
Proof.
  induction ps as [|[k0 y] ps IH]; simpl; [reflexivity|].
  destruct (eqb_spec k0 k') as [->|Hne]; simpl.
  - destruct (Str.eqb k' k); reflexivity.
  - rewrite IH. destruct (eqb_spec k0 k) as [->|Hne'].
    + destruct (assoc k' ps); [|reflexivity].
      now rewrite (eqb_neq k' k) by congruence.
    + reflexivity.
Qed.

Lemma assoc_insert_index k i k' x ps :
  assoc k' ps = None ->
  assoc k (insert_index i k' x ps) = if Str.eqb k' k then Some x else assoc k ps.
Proof.
  induction ps as [|[k0 y] ps IH]; simpl; [reflexivity|].
  destruct (eqb_spec k0 k') as [->|Hne]; [discriminate|]. intros Hnone.
  assert (Hcons : assoc k ((k', x) :: (k0, y) :: ps)
                  = if Str.eqb k' k then Some x else assoc k ((k0, y) :: ps))
    by reflexivity.
  destruct (array_index k0) as [j|]; [destruct (j <? i)|]; try exact Hcons.
  simpl. rewrite IH by assumption.
  destruct (eqb_spec k0 k) as [->|Hne']; [|reflexivity].
  now rewrite (eqb_neq k' k) by congruence.
Qed.

Lemma assoc_app k ps qs :
  assoc k (ps ++ qs) = match assoc k ps with Some x => Some x | None => assoc k qs end.
Proof.
  induction ps as [|[k0 y] ps IH]; simpl; [reflexivity|].
  destruct (Str.eqb k0 k); [reflexivity|apply IH].
Qed.

(** reading a property after an assignment *)
Lemma assoc_obj_set k k' x ps :
  assoc k (obj_set ps k' x) = if Str.eqb k' k then Some x else assoc k ps.
Proof.
  unfold obj_set. destruct (assoc k' ps) as [y|] eqn:Hk'.
  - rewrite assoc_replace_prop, Hk'. reflexivity.
  - destruct (array_index k') as [i|].
    + now apply assoc_insert_index.
    + rewrite assoc_app. simpl.
      destruct (eqb_spec k' k) as [->|Hne].
      * now rewrite Hk'.
      * now destruct (assoc k ps).
Qed.

(** reading a property after a deletion *)
Lemma assoc_obj_delete k k' ps :
  assoc k (obj_delete ps k') = if Str.eqb k' k then None else assoc k ps.
Proof.
  induction ps as [|[k0 y] ps IH]; simpl.
  - now destruct (Str.eqb k' k).
  - destruct (eqb_spec k0 k') as [->|Hne]; simpl.
    + rewrite IH. destruct (eqb_spec k' k); reflexivity.
    + rewrite IH. destruct (eqb_spec k0 k) as [->|Hne']; [|reflexivity].
      now rewrite (eqb_neq k' k) by congruence.
Qed.

Lemma replace_prop_same k x ps :
  assoc k ps = Some x -> replace_prop k x ps = ps.
Proof.
  induction ps as [|[k0 y] ps IH]; simpl; [reflexivity|].
  destruct (eqb_spec k0 k) as [->|Hne].
  - now intros [= ->].
  - intros H. now rewrite IH.
Qed.

Lemma fold_digits_nonneg l :
  forall a, 0 <= a -> forallb is_digit l = true ->
  0 <= fold_left (fun acc c => acc * 10 + (Z.of_N c - 48)) l a.
Proof.
  induction l as [|c l IH]; intros a Ha Hl; [exact Ha|].
  cbn [fold_left]. cbn [forallb] in Hl.
  apply andb_true_iff in Hl as [Hc Hl]. apply IH; [|exact Hl].
  unfold is_digit in Hc. apply andb_true_iff in Hc as [H1 H2].
  apply N.leb_le in H1, H2. lia.
Qed.

Lemma array_index_nonneg k i : array_index k = Some i -> 0 <= i.
Proof.
  unfold array_index. destruct k as [|c r]; [discriminate|].
  destruct (forallb is_digit (c :: r)) eqn:Hd; cbn [andb]; [|discriminate].
  destruct (negb _ || _); [|discriminate].
  destruct (_ <? _); [|discriminate]. intros [= <-].
  apply fold_digits_nonneg; [lia|exact Hd].
Qed.

(** assigning the value a property already has changes nothing *)
Lemma obj_set_same k x ps :
  assoc k ps = Some x -> obj_set ps k x = ps.
Proof.
  intros H. unfold obj_set. rewrite H. now apply replace_prop_same.
Qed.

End PropsFacts.

Module JSONFacts.
Import StrFacts PropsFacts JSON JSONText.

(** *** String literals read back *)

Lemma hex_value_digit d : (d < 16)%N -> hex_value (hex_digit d) = Some d.
Proof.
  intros H. unfold hex_digit, hex_value, is_digit.
  destruct (N.ltb_spec d 10).
  - destruct (N.leb_spec 48 (48 + d)); [|lia].
    destruct (N.leb_spec (48 + d) 57); [|lia].
    cbn [andb]. f_equal. lia.
  - destruct (N.leb_spec (87 + d) 57); [lia|].
    rewrite andb_false_r.
    destruct (N.leb_spec 97 (87 + d)); [|lia].
    destruct (N.leb_spec (87 + d) 102); [|lia].
    cbn [andb]. f_equal. lia.
Qed.

Lemma hex4_escape c :
  (c < 65536)%N ->
  hex4 (hex_digit (c / 4096 mod 16)) (hex_digit (c / 256 mod 16))
       (hex_digit (c / 16 mod 16)) (hex_digit (c mod 16)) = Some c.
Proof.
  intros Hc. unfold hex4.
  rewrite !hex_value_digit by (apply N.mod_lt; discriminate).
  f_equal.
  assert (H1 : (c / 4096 < 16)%N) by (apply N.Div0.div_lt_upper_bound; lia).
  rewrite (N.mod_small (c / 4096) 16) by assumption.
  assert (E256 : (c / 256 = c / 16 / 16)%N)
    by (rewrite N.Div0.div_div; reflexivity).
  assert (E4096 : (c / 4096 = c / 16 / 16 / 16)%N)
    by (rewrite !N.Div0.div_div; reflexivity).
  rewrite E256, E4096.
  pose proof (N.div_mod' c 16) as E1.
  pose proof (N.div_mod' (c / 16) 16) as E2.
  pose proof (N.div_mod' (c / 16 / 16) 16) as E3.
  lia.
Qed.

Lemma parse_string_unicode c t :
  (c < 65536)%N ->
  parse_string (unicode_escape c ++ t) = cons_char c (parse_string t).
Proof.
  intros Hc. unfold unicode_escape.
  cbn [app parse_string N.eqb Pos.eqb].
  now rewrite hex4_escape.
Qed.

Lemma parse_string_plain c t :
  c <> 34%N -> c <> 92%N -> (32 <= c)%N ->
  parse_string (c :: t) = cons_char c (parse_string t).
Proof.
  intros H1 H2 H3. cbn [parse_string].
  destruct (N.eqb_spec c 34); [contradiction|].
  destruct (N.eqb_spec c 92); [contradiction|].
  destruct (N.ltb_spec c 32); [lia|reflexivity].
Qed.

Lemma parse_string_escape_len n :
  forall s rest, (List.length s <= n)%nat ->
  parse_string (escape s ++ 34%N :: rest) = Some (s, rest).
Proof.
  induction n as [|n IH]; intros [|c r] rest Hlen; try reflexivity;
    simpl in Hlen; [lia|].
  assert (Hr : parse_string (escape r ++ 34%N :: rest) = Some (r, rest))
    by (apply IH; lia).
  cbn [escape].
  repeat match goal with
  | |- context [N.eqb c ?k] =>
      destruct (N.eqb_spec c k) as [->|?];
      [cbn [app parse_string N.eqb Pos.eqb]; now rewrite Hr|]
  end.
  destruct (N.ltb_spec c 32).
  { rewrite <- app_assoc, parse_string_unicode by lia. now rewrite Hr. }
  destruct (is_high_surrogate c) eqn:Hh.
  - unfold is_high_surrogate in Hh.
    apply andb_true_iff in Hh as [Hh1 Hh2]. apply N.leb_le in Hh1, Hh2.
    destruct r as [|d r'].
    + rewrite parse_string_unicode by lia. reflexivity.
    + destruct (is_low_surrogate d) eqn:Hl.
      * unfold is_low_surrogate in Hl.
        apply andb_true_iff in Hl as [Hl1 Hl2]. apply N.leb_le in Hl1, Hl2.
        cbn [app]. rewrite !parse_string_plain by lia.
        simpl in Hlen. rewrite IH by lia. reflexivity.
      * rewrite <- app_assoc, parse_string_unicode by lia. now rewrite Hr.
  - destruct (is_low_surrogate c) eqn:Hl.
    + unfold is_low_surrogate in Hl.
      apply andb_true_iff in Hl as [Hl1 Hl2]. apply N.leb_le in Hl1, Hl2.
      rewrite <- app_assoc, parse_string_unicode by lia. now rewrite Hr.
    + cbn [app]. rewrite parse_string_plain by lia. now rewrite Hr.
Qed.

(** a quoted string is read back as the string it quotes *)
Lemma parse_string_escape s rest :
  parse_string (escape s ++ 34%N :: rest) = Some (s, rest).
Proof. now apply (parse_string_escape_len (List.length s)). Qed.

(** *** Number text reads back *)

Lemma terminated_stops rest (p : N -> bool) :
  p 44%N = false -> p 10%N = false -> terminated rest -> stops p rest.
Proof. destruct rest as [|c r]; simpl; [trivial|]. now intros ? ? [->| ->]. Qed.

Lemma span_digits_app ds rest :
  forallb is_digit ds = true -> stops is_digit rest ->
  span_digits (ds ++ rest) = (ds, rest).
Proof.
  induction ds as [|d ds IH]; simpl; intros Hds Hrest.
  - destruct rest as [|c r]; [reflexivity|]. simpl in *. now rewrite Hrest.
  - apply andb_true_iff in Hds as [Hd Hds]. rewrite Hd, IH; auto.
Qed.

Lemma digits_nz_all ds : digits_nz ds -> forallb is_digit ds = true.
Proof. destruct ds; simpl; [easy|]. intros (-> & _ & ->). reflexivity. Qed.

Lemma uint_codes_digits u : forallb is_digit (Num.uint_codes u) = true.
Proof. induction u; simpl; auto. Qed.

Lemma nzhead_not_D0 u u' : Decimal.nzhead u <> Decimal.D0 u'.
Proof. induction u; simpl; try discriminate. assumption. Qed.

Lemma to_uint_not_D0 p u : Pos.to_uint p <> Decimal.D0 u.
Proof.
  intros E.
  assert (Hn : Decimal.unorm (Pos.to_uint p) = Pos.to_uint p).
  { rewrite <- DecimalPos.Unsigned.to_of, DecimalPos.Unsigned.of_to. reflexivity. }
  rewrite E in Hn. unfold Decimal.unorm in Hn. simpl in Hn.
  destruct (Decimal.nzhead u) eqn:Hu; try discriminate.
  - injection Hn as <-. now apply (DecimalPos.Unsigned.to_uint_nonzero p).
  - exact (nzhead_not_D0 _ _ Hu).
Qed.

Lemma pos_digits_nz p : digits_nz (Num.pos_digits p).
Proof.
  unfold Num.pos_digits.
  pose proof (uint_codes_digits (Pos.to_uint p)) as Hall.
  pose proof (to_uint_not_D0 p) as H0.
  pose proof (DecimalPos.Unsigned.to_uint_nonnil p) as Hnil.
  destruct (Pos.to_uint p); simpl in *;
    try (repeat split; [discriminate|exact Hall]).
  - congruence.
  - now elim (H0 u).
Qed.

Lemma strip_zeros_rev_suffix l : exists z, l = z ++ Num.strip_zeros_rev l.
Proof.
  induction l as [|c l [z IH]]; [now exists []|].
  destruct (N.eq_dec c 48) as [->|Hne].
  - exists (48%N :: z). simpl. now f_equal.
  - exists []. simpl.
    destruct c as [|p]; [reflexivity|].
    do 6 (destruct p as [p|p|]; try reflexivity). congruence.
Qed.

Lemma strip_trailing_zeros_prefix l :
  l <> [] -> exists j, (1 <= j)%nat /\ Num.strip_trailing_zeros l = firstn j l.
Proof.
  intros Hl. unfold Num.strip_trailing_zeros.
  destruct (strip_zeros_rev_suffix (rev l)) as [z Hz].
  destruct (rev (Num.strip_zeros_rev (rev l))) as [|c t] eqn:Hs.
  - exists 1%nat. split; [lia|reflexivity].
  - exists (List.length (c :: t)). split; [simpl; lia|].
    apply (f_equal (@rev N)) in Hz. rewrite rev_involutive, rev_app_distr, Hs in Hz.
    rewrite Hz, firstn_app, firstn_all, Nat.sub_diag. simpl.
    now rewrite app_nil_r.
Qed.

Lemma forallb_firstn {A} (p : A -> bool) j l :
  forallb p l = true -> forallb p (firstn j l) = true.
Proof.
  revert l; induction j as [|j IH]; intros [|x l]; simpl; auto.
  intros H. apply andb_true_iff in H as [-> H]. simpl. auto.
Qed.

Lemma forallb_skipn {A} (p : A -> bool) j l :
  forallb p l = true -> forallb p (skipn j l) = true.
Proof.
  revert l; induction j as [|j IH]; intros [|x l]; simpl; auto.
  intros H. apply andb_true_iff in H as [_ H]. auto.
Qed.

Lemma digits_nz_firstn j ds : (1 <= j)%nat -> digits_nz ds -> digits_nz (firstn j ds).
Proof.
  destruct j as [|j]; [lia|]. intros _. destruct ds as [|d ds]; simpl; [easy|].
  intros (Hd & Hz & Hall). repeat split; auto. now apply forallb_firstn.
Qed.

Lemma shortest_digits_nz x num den :
  digits_nz (fst (Num.shortest x num den)).
Proof.
  unfold Num.shortest. destruct (Num.search x num den 16 1) as [s q]. simpl.
  pose proof (pos_digits_nz (Z.to_pos s)) as Hnz.
  destruct (strip_trailing_zeros_prefix (Num.pos_digits (Z.to_pos s))) as (j & Hj & ->).
  - intros E. now rewrite E in Hnz.
  - now apply digits_nz_firstn.
Qed.

Lemma parse_int_nz ds r :
  digits_nz ds -> stops is_digit r -> parse_int (ds ++ r) = Some (ds, r).
Proof.
  destruct ds as [|d ds']; [easy|]. intros (Hd & Hz & Hall) Hr.
  unfold parse_int. cbn [app].
  destruct (N.eqb_spec d 48); [contradiction|]. rewrite Hd. f_equal.
  change (d :: ds' ++ r) with ((d :: ds') ++ r).
  apply span_digits_app; [simpl; now rewrite Hd|assumption].
Qed.

Lemma parse_frac_none r :
  stops (fun c => c =? 46)%N r -> parse_frac r = Some ([], r).
Proof. destruct r as [|c r]; simpl; [reflexivity|]. now intros ->. Qed.

Lemma parse_frac_some ds r :
  ds <> [] -> forallb is_digit ds = true -> stops is_digit r ->
  parse_frac (46%N :: ds ++ r) = Some (ds, r).
Proof.
  intros Hne Hds Hr. unfold parse_frac. cbn [N.eqb Pos.eqb].
  rewrite span_digits_app by assumption. now destruct ds.
Qed.

Lemma parse_exp_none r :
  stops (fun c => (c =? 101) || (c =? 69))%N r -> parse_exp r = Some (0, r).
Proof. destruct r as [|c r]; simpl; [reflexivity|]. now intros ->. Qed.

Lemma nat_digits_all n :
  forallb is_digit (Num.nat_digits n) = true /\ Num.nat_digits n <> [].
Proof.
  destruct n; simpl; try (split; [reflexivity|discriminate]).
  pose proof (pos_digits_nz p) as H. split; [now apply digits_nz_all|].
  intros E. now rewrite E in H.
Qed.

Lemma parse_exp_text e r :
  stops is_digit r ->
  exists z, parse_exp (Num.exponent_text e ++ r) = Some (z, r).
Proof.
  intros Hr. destruct (nat_digits_all (Z.abs e)) as [Hall Hne].
  unfold Num.exponent_text, parse_exp. cbn [app N.eqb Pos.eqb orb].
  destruct (e <? 0); cbn [N.eqb Pos.eqb];
    rewrite span_digits_app by assumption;
    destruct (Num.nat_digits (Z.abs e)); try congruence; eexists; reflexivity.
Qed.

(** integer part, fraction and exponent of a number literal *)
Lemma parse_unsigned_parts neg ip fp et rest :
  ip = [48%N] \/ digits_nz ip ->
  forallb is_digit fp = true ->
  et = [] \/ (exists e, et = Num.exponent_text e) ->
  terminated rest ->
  exists x,
    parse_unsigned neg
      (ip ++ match fp with [] => [] | _ => 46%N :: fp end ++ et ++ rest)
    = Some (x, rest).
Proof.
  intros Hip Hfp Het Hrest.
  assert (Hstop : forall p : N -> bool,
             p 44%N = false -> p 10%N = false -> p 101%N = false ->
             stops p (et ++ rest)).
  { intros p H1 H2 H3. destruct Het as [->|[e ->]]; simpl; [|assumption].
    now apply terminated_stops. }
  assert (Hexp : exists z, parse_exp (et ++ rest) = Some (z, rest)).
  { destruct Het as [->|[e ->]].
    - exists 0. apply parse_exp_none. now apply terminated_stops.
    - apply parse_exp_text. now apply terminated_stops. }
  destruct Hexp as [z Hexp].
  assert (Hfrac : parse_frac (match fp with [] => [] | _ => 46%N :: fp end
                              ++ et ++ rest) = Some (fp, et ++ rest)).
  { destruct fp as [|d fp'].
    - apply parse_frac_none. now apply Hstop.
    - cbn [app]. change (d :: fp' ++ et ++ rest) with ((d :: fp') ++ et ++ rest).
      apply parse_frac_some; [discriminate|assumption|now apply Hstop]. }
  assert (Hint : parse_int (ip ++ match fp with [] => [] | _ => 46%N :: fp end
                            ++ et ++ rest)
                 = Some (ip, match fp with [] => [] | _ => 46%N :: fp end
                             ++ et ++ rest)).
  { destruct Hip as [->|Hnz]; [reflexivity|].
    apply parse_int_nz; [assumption|].
    destruct fp; [now apply Hstop|reflexivity]. }
  unfold parse_unsigned. rewrite Hint, Hfrac, Hexp. eexists; reflexivity.
Qed.

Lemma forallb_app_true {A} (p : A -> bool) l1 l2 :
  forallb p l1 = true -> forallb p l2 = true -> forallb p (l1 ++ l2) = true.
Proof. intros H1 H2. rewrite forallb_app, H1, H2. reflexivity. Qed.

Lemma zeros_digits n : forallb is_digit (Num.zeros n) = true.
Proof. unfold Num.zeros. induction (Z.to_nat n); simpl; auto. Qed.

Lemma digits_nz_app ds zs :
  digits_nz ds -> forallb is_digit zs = true -> digits_nz (ds ++ zs).
Proof.
  destruct ds as [|d ds]; simpl; [easy|]. intros (Hd & Hz & Hall) Hzs.
  repeat split; auto. now apply forallb_app_true.
Qed.

(** the text of a positive finite number is a number literal *)
Lemma parse_unsigned_format neg ds k rest :
  digits_nz ds -> terminated rest ->
  exists x, parse_unsigned neg (Num.format_digits ds k ++ rest) = Some (x, rest).
Proof.
  intros Hnz Hrest. unfold Num.format_digits.
  pose proof (digits_nz_all _ Hnz) as Hall.
  destruct ((-5 <=? k) && (k <=? 21)).
  - destruct (Z.leb_spec (Z.of_nat (List.length ds)) k) as [Hk|Hk].
    + destruct (parse_unsigned_parts neg (ds ++ Num.zeros (k - Z.of_nat (List.length ds)))
                  [] [] rest) as [x Hx]; auto.
      { right. apply digits_nz_app; [assumption|apply zeros_digits]. }
      exists x. exact Hx.
    + destruct (Z.ltb_spec 0 k) as [Hk0|Hk0].
      * destruct (parse_unsigned_parts neg (firstn (Z.to_nat k) ds)
                    (skipn (Z.to_nat k) ds) [] rest) as [x Hx]; auto.
        { right. apply digits_nz_firstn; [lia|assumption]. }
        { now apply forallb_skipn. }
        exists x. rewrite <- Hx. rewrite <- app_assoc. f_equal.
        destruct (skipn (Z.to_nat k) ds) eqn:Hs; [|reflexivity].
        apply (f_equal (@List.length N)) in Hs. rewrite length_skipn in Hs.
        simpl in Hs. lia.
      * destruct (parse_unsigned_parts neg [48%N] (Num.zeros (- k) ++ ds) [] rest)
          as [x Hx]; auto.
        { apply forallb_app_true; [apply zeros_digits|assumption]. }
        exists x. rewrite <- Hx. cbn [app]. f_equal.
        destruct (Num.zeros (- k) ++ ds) eqn:Hs.
        -- apply app_eq_nil in Hs as [_ ->]. now simpl in Hnz.
        -- rewrite <- Hs. cbn [app]. now rewrite <- app_assoc.
  - destruct ds as [|d [|d2 ds']]; [easy| |].
    + destruct (parse_unsigned_parts neg [d] [] (Num.exponent_text (k - 1)) rest)
        as [x Hx]; eauto.
    + destruct (parse_unsigned_parts neg [d] (d2 :: ds') (Num.exponent_text (k - 1)) rest)
        as [x Hx]; eauto.
      { right. destruct Hnz as (Hd & Hz & _). now repeat split. }
      { destruct Hnz as (_ & _ & H). exact H. }
      exists x. rewrite <- Hx. cbn [app]. now rewrite <- app_assoc.
Qed.

(** *** More fuel never changes a result *)

Ltac case_head :=
  match goal with
  | |- context [match skip_ws ?l with _ => _ end] =>
      destruct (skip_ws l) as [|? ?]; [intros; discriminate|]
  | |- context [if N.eqb ?a ?b then _ else _] => destruct (N.eqb a b)
  | |- context [match parse_string ?l with _ => _ end] =>
      destruct (parse_string l) as [[? ?]|]; [|intros; discriminate]
  end.

Lemma parse_mono_step f : mono_at f.
Proof.
  induction f as [|f (IHv & IHe & IHm)]; [repeat split; discriminate|].
  repeat split.
  - intros l res H. cbn [parse_value] in H. revert H.
    change (parse_value (S (S f)) l) with
      (match skip_ws l with
       | [] => None
       | c :: r =>
           if (c =? 123)%N then
             match skip_ws r with
             | [] => None
             | c' :: r' => if (c' =? 125)%N then Some (VObj [], r')
                           else parse_members (S f) [] (c' :: r')
             end
           else if (c =? 91)%N then
             match skip_ws r with
             | [] => None
             | c' :: r' => if (c' =? 93)%N then Some (VArr [], r')
                           else parse_elements (S f) [] (c' :: r')
             end
           else if (c =? 34)%N then
             match parse_string r with
             | Some (s, r') => Some (VStr s, r')
             | None => None
             end
           else parse_literal (c :: r)
       end).
    repeat case_head; auto.
  - intros acc l res H. cbn [parse_elements] in H. revert H.
    change (parse_elements (S (S f)) acc l) with
      (match parse_value (S f) l with
       | None => None
       | Some (v, r) =>
           match skip_ws r with
           | [] => None
           | c :: r' =>
               if (c =? 44)%N then parse_elements (S f) (v :: acc) r'
               else if (c =? 93)%N then Some (VArr (rev (v :: acc)), r')
               else None
           end
       end).
    destruct (parse_value f l) as [[v r]|] eqn:E; [|intros; discriminate].
    rewrite (IHv _ _ E). repeat case_head; auto.
  - intros acc l res H. cbn [parse_members] in H. revert H.
    change (parse_members (S (S f)) acc l) with
      (match skip_ws l with
       | [] => None
       | q :: r0 =>
           if (q =? 34)%N then
             match parse_string r0 with
             | None => None
             | Some (k, r1) =>
                 match skip_ws r1 with
                 | [] => None
                 | c :: r2 =>
                     if (c =? 58)%N then
                       match parse_value (S f) r2 with
                       | None => None
                       | Some (v, r3) =>
                           match skip_ws r3 with
                           | [] => None
                           | c' :: r4 =>
                               if (c' =? 44)%N
                               then parse_members (S f) (obj_set acc k v) r4
                               else if (c' =? 125)%N
                               then Some (VObj (obj_set acc k v), r4)
                               else None
                           end
                       end
                     else None
                 end
             end
           else None
       end).
    repeat case_head; auto.
    destruct (parse_value f l2) as [[v r3]|] eqn:E; [|intros; discriminate].
    rewrite (IHv _ _ E). repeat case_head; auto.
Qed.

Lemma parse_value_mono f f' l res :
  (f <= f')%nat -> parse_value f l = Some res -> parse_value f' l = Some res.
Proof.
  induction 1 as [|f' _ IH]; [trivial|].
  intros H. now apply parse_mono_step, IH.
Qed.

Lemma parse_elements_mono f f' acc l res :
  (f <= f')%nat ->
  parse_elements f acc l = Some res -> parse_elements f' acc l = Some res.
Proof.
  induction 1 as [|f' _ IH]; [trivial|].
  intros H. now apply parse_mono_step, IH.
Qed.

Lemma parse_members_mono f f' acc l res :
  (f <= f')%nat ->
  parse_members f acc l = Some res -> parse_members f' acc l = Some res.
Proof.
  induction 1 as [|f' _ IH]; [trivial|].
  intros H. now apply parse_mono_step, IH.
Qed.

(** *** Every parser consumes input *)

Lemma skip_ws_le l : (List.length (skip_ws l) <= List.length l)%nat.
Proof. induction l as [|c l IH]; simpl; [lia|]. destruct (is_ws c); simpl; lia. Qed.

Lemma cons_char_inv c o s r :
  cons_char c o = Some (s, r) -> exists s', o = Some (s', r) /\ s = c :: s'.
Proof.
  destruct o as [[s' r']|]; simpl; [|discriminate].
  intros [= <- <-]. now exists s'.
Qed.

Lemma parse_string_lt_len n :
  forall l s r, (List.length l <= n)%nat ->
  parse_string l = Some (s, r) -> (List.length r < List.length l)%nat.
Proof.
  induction n as [|n IH]; intros [|c l] s r Hlen; simpl in *; try discriminate;
    [lia|].
  assert (Hrec : forall c' l' s', (List.length l' <= n)%nat ->
            cons_char c' (parse_string l') = Some (s', r) ->
            (List.length r < List.length l')%nat).
  { intros c' l' s' Hl H. apply cons_char_inv in H as (s'' & H & _). eauto. }
  destruct (c =? 34)%N; [intros [= <- <-]; lia|].
  destruct (c =? 92)%N.
  - destruct l as [|e l']; [discriminate|]. simpl in Hlen.
    repeat match goal with
    | |- (if N.eqb e ?k then _ else _) = _ -> _ =>
        destruct (N.eqb e k);
        [intros H; apply Hrec in H; simpl; lia|]
    end; try discriminate.
    destruct (e =? 117)%N; [|discriminate].
    destruct l' as [|a [|b [|c' [|d l'']]]]; try discriminate.
    destruct (hex4 a b c' d); [|discriminate].
    simpl in Hlen. intros H. apply Hrec in H; simpl; lia.
  - destruct (c <? 32)%N; [discriminate|].
    intros H. apply Hrec in H; lia.
Qed.

Lemma parse_string_lt l s r :
  parse_string l = Some (s, r) -> (List.length r < List.length l)%nat.
Proof. now apply (parse_string_lt_len (List.length l)). Qed.

Lemma span_digits_eq l : l = fst (span_digits l) ++ snd (span_digits l).
Proof.
  induction l as [|c l IH]; simpl; [reflexivity|].
  destruct (is_digit c); [|reflexivity].
  destruct (span_digits l) as [ds r]. simpl in *. now f_equal.
Qed.

Lemma span_digits_le l : (List.length (snd (span_digits l)) <= List.length l)%nat.
Proof.
  rewrite (span_digits_eq l) at 2. rewrite length_app. lia.
Qed.

Lemma parse_int_lt l ip r :
  parse_int l = Some (ip, r) -> (List.length r < List.length l)%nat.
Proof.
  destruct l as [|c l]; simpl; [discriminate|].
  destruct (c =? 48)%N; [intros [= <- <-]; lia|].
  destruct (is_digit c); [|discriminate].
  pose proof (span_digits_le l).
  destruct (span_digits l) as [ds r']. intros [= <- <-]. simpl in *. lia.
Qed.

Lemma parse_frac_le l fp r :
  parse_frac l = Some (fp, r) -> (List.length r <= List.length l)%nat.
Proof.
  destruct l as [|c l]; simpl; [intros [= <- <-]; simpl; lia|].
  destruct (c =? 46)%N; [|intros [= <- <-]; simpl; lia].
  pose proof (span_digits_le l).
  destruct (span_digits l) as [[|d ds] r']; [discriminate|].
  intros [= <- <-]. simpl in *. lia.
Qed.

Lemma parse_exp_le l e r :
  parse_exp l = Some (e, r) -> (List.length r <= List.length l)%nat.
Proof.
  destruct l as [|c l]; simpl; [intros [= <- <-]; simpl; lia|].
  destruct ((c =? 101) || (c =? 69))%N; [|intros [= <- <-]; simpl; lia].
  assert (H : forall neg r1, (List.length r1 <= List.length l)%nat ->
            match span_digits r1 with
            | ([], _) => None
            | (ds, r') =>
                Some (if neg : bool then - digits_value ds
                      else digits_value ds, r')
            end = Some (e, r) -> (List.length r <= S (List.length l))%nat).
  { intros neg r1 Hr1. pose proof (span_digits_le r1).
    destruct (span_digits r1) as [[|d ds] r']; [discriminate|].
    intros [= <- <-]. simpl in *. lia. }
  destruct l as [|s l']; [apply (H false); simpl; lia|].
  destruct (s =? 45)%N; [apply (H true); simpl; lia|].
  destruct (s =? 43)%N; apply (H false); simpl; lia.
Qed.

Lemma parse_unsigned_lt neg l x r :
  parse_unsigned neg l = Some (x, r) -> (List.length r < List.length l)%nat.
Proof.
  unfold parse_unsigned.
  destruct (parse_int l) as [[ip r1]|] eqn:E1; [|discriminate].
  destruct (parse_frac r1) as [[fp r2]|] eqn:E2; [|discriminate].
  destruct (parse_exp r2) as [[e r3]|] eqn:E3; [|discriminate].
  intros [= <- <-].
  apply parse_int_lt in E1. apply parse_frac_le in E2. apply parse_exp_le in E3.
  lia.
Qed.

Lemma parse_number_lt l x r :
  parse_number l = Some (x, r) -> (List.length r < List.length l)%nat.
Proof.
  destruct l as [|c l]; simpl; [discriminate|].
  destruct (c =? 45)%N; intros H; apply parse_unsigned_lt in H; simpl in *; lia.
Qed.

Lemma strip_prefix_length p l r :
  strip_prefix p l = Some r -> List.length l = (List.length p + List.length r)%nat.
Proof.
  revert l; induction p as [|a p IH]; intros [|b l]; simpl;
    try discriminate; try (intros [= <-]; reflexivity).
  destruct (a =? b)%N; [|discriminate]. intros H. now rewrite (IH _ H).
Qed.

Lemma parse_literal_lt l v r :
  parse_literal l = Some (v, r) -> (List.length r < List.length l)%nat.
Proof.
  unfold parse_literal.
  destruct (strip_prefix (js "true") l) eqn:E1.
  { intros [= <- <-]. apply strip_prefix_length in E1. simpl in E1. lia. }
  destruct (strip_prefix (js "false") l) eqn:E2.
  { intros [= <- <-]. apply strip_prefix_length in E2. simpl in E2. lia. }
  destruct (strip_prefix (js "null") l) eqn:E3.
  { intros [= <- <-]. apply strip_prefix_length in E3. simpl in E3. lia. }
  destruct (parse_number l) as [[n r']|] eqn:E4; [|discriminate].
  intros [= <- <-]. exact (parse_number_lt _ _ _ E4).
Qed.

Ltac case_shrink :=
  match goal with
  | |- context [match skip_ws ?l with _ => _ end] =>
      let H := fresh "Hws" in
      pose proof (skip_ws_le l) as H;
      destruct (skip_ws l) as [|? ?]; [intros; discriminate|]; simpl in H
  | |- context [if N.eqb ?a ?b then _ else _] => destruct (N.eqb a b)
  | |- context [match parse_string ?l with _ => _ end] =>
      let H := fresh "Hstr" in
      destruct (parse_string l) as [[? ?]|] eqn:H; [|intros; discriminate];
      apply parse_string_lt in H; simpl in H
  end.

Lemma parse_shrinks f : shrinks_at f.
Proof.
  induction f as [|f (IHv & IHe & IHm)]; [repeat split; discriminate|].
  repeat split.
  - intros l v r. cbn [parse_value]. repeat case_shrink;
      try (intros [= <- <-]; simpl in *; lia);
      try (intros H; first [apply IHm in H | apply IHe in H
                            | apply parse_literal_lt in H]; simpl in *; lia).
  - intros acc l v r. cbn [parse_elements].
    destruct (parse_value f l) as [[v0 r0]|] eqn:E; [|intros; discriminate].
    apply IHv in E. repeat case_shrink;
      try (intros [= <- <-]; simpl in *; lia);
      try (intros H; apply IHe in H; simpl in *; lia);
      intros; discriminate.
  - intros acc l v r. cbn [parse_members]. repeat case_shrink;
      try (intros; discriminate).
    match goal with
    | |- context [parse_value f ?l0] =>
        destruct (parse_value f l0) as [[v0 r3]|] eqn:E; [|intros; discriminate]
    end.
    apply IHv in E. repeat case_shrink;
      try (intros [= <- <-]; simpl in *; lia);
      try (intros H; apply IHm in H; simpl in *; lia);
      intros; discriminate.
Qed.

(** *** The fuel of [JSON.parse] is enough

    Whatever some amount of fuel reads from a text, the fuel computed from
    the length of the text reads too: a [SyntaxError] of [parse] is never
    a shortage of fuel. *)

Lemma parse_adequate n : adequate_at n.
Proof.
  induction n as [n IH] using lt_wf_ind.
  assert (IHe : forall acc l f res, (List.length l < n)%nat ->
            parse_elements f acc l = Some res ->
            parse_elements (2 * n) acc l = Some res).
  { intros acc l f res Hl H.
    destruct (IH (List.length l) Hl) as (_ & He & _).
    apply (parse_elements_mono (S (S (2 * List.length l)))); [lia|].
    now apply (He acc l f). }
  assert (IHm : forall acc l f res, (List.length l < n)%nat ->
            parse_members f acc l = Some res ->
            parse_members (2 * n) acc l = Some res).
  { intros acc l f res Hl H.
    destruct (IH (List.length l) Hl) as (_ & _ & Hm).
    apply (parse_members_mono (S (S (2 * List.length l)))); [lia|].
    now apply (Hm acc l f). }
  assert (IHv : forall l f res, (List.length l < n)%nat ->
            parse_value f l = Some res ->
            parse_value (2 * n) l = Some res).
  { intros l f res Hl H.
    destruct (IH (List.length l) Hl) as (Hv & _ & _).
    apply (parse_value_mono (S (2 * List.length l))); [lia|].
    now apply (Hv l f). }
  clear IH.
  assert (Av : forall l f res, (List.length l <= n)%nat ->
            parse_value f l = Some res -> parse_value (S (2 * n)) l = Some res).
  { intros l [|f] res Hl; [discriminate|].
    remember (2 * n)%nat as k. cbn [parse_value].
    repeat case_shrink; auto;
      intros H; subst k;
      first [apply (IHm _ _ f) | apply (IHe _ _ f)]; simpl; (lia || assumption). }
  repeat split.
  - exact Av.
  - intros acc l [|f] res Hl; [discriminate|].
    remember (S (2 * n)) as k. cbn [parse_elements].
    destruct (parse_value f l) as [[v r]|] eqn:E; [|intros; discriminate].
    rewrite (Av _ _ _ Hl E). apply (proj1 (parse_shrinks f)) in E.
    repeat case_shrink; auto.
    intros H. apply (parse_elements_mono (2 * n)); [lia|].
    apply (IHe _ _ f); [simpl in *; lia|assumption].
  - intros acc l [|f] res Hl; [discriminate|].
    remember (S (2 * n)) as k. cbn [parse_members].
    repeat case_shrink; auto.
    match goal with
    | |- context [parse_value f ?l0] =>
        destruct (parse_value f l0) as [[v r3]|] eqn:E; [|intros; discriminate];
        assert (E' : parse_value k l0 = Some (v, r3))
          by (apply (parse_value_mono (2 * n)); [lia|];
              apply (IHv _ f); [simpl in *; lia|assumption]);
        rewrite E'; apply (proj1 (parse_shrinks f)) in E
    end.
    repeat case_shrink; auto.
    intros H. apply (parse_members_mono (2 * n)); [lia|].
    apply (IHm _ _ f); [simpl in *; lia|assumption].
Qed.

Lemma parse_value_fuel f text res :
  parse_value f text = Some res -> parse_value (fuel_for text) text = Some res.
Proof.
  intros H. unfold fuel_for.
  replace (2 * List.length text + 1)%nat with (S (2 * List.length text)) by lia.
  now apply (proj1 (parse_adequate (List.length text)) text f).
Qed.

(** [JSON.parse] accepts a text as soon as some amount of fuel reads it
    to its end *)
Theorem parse_fuel_irrelevant f text v r :
  parse_value f text = Some (v, r) -> skip_ws r = [] -> parse text = Ok v.
Proof.
  intros H Hr. unfold parse. now rewrite (parse_value_fuel _ _ _ H), Hr.
Qed.

(** *** The text of [JSON.stringify] is JSON text *)

Lemma value_ind_nested (P : JS.value -> Prop) :
  P VUndefined -> P VNull -> (forall b, P (VBool b)) -> (forall n, P (VNum n)) ->
  (forall s, P (VStr s)) ->
  (forall l, Forall P l -> P (VArr l)) ->
  (forall ps, Forall (fun kv => P (snd kv)) ps -> P (VObj ps)) ->
  forall v, P v.
Proof.
  intros HU HN HB HNum HS HA HO. fix IH 1.
  intros [ | |b|n|s|l|ps];
    [exact HU|exact HN|apply HB|apply HNum|apply HS| |].
  - apply HA. induction l as [|x l IHl]; constructor; [apply IH|exact IHl].
  - apply HO. induction ps as [|[k x] ps IHps]; constructor; [apply IH|exact IHps].
Qed.

Lemma serialize_arr indent l :
  serialize indent (VArr l)
  = Some (wrap 91 93 indent (map (item_text (2 + indent)) l)).
Proof.
  cbn [serialize]. unfold wrap.
  match goal with
  | |- match ?a with _ => _ end = Some (match ?b with _ => _ end) =>
      assert (E : a = b)
  end.
  { induction l as [|x l IH]; [reflexivity|]. cbn [map]. now rewrite <- IH. }
  rewrite E. now destruct (map (item_text (2 + indent)) l).
Qed.

Lemma serialize_obj indent ps :
  serialize indent (VObj ps)
  = Some (wrap 123 125 indent (member_texts (2 + indent) ps)).
Proof.
  cbn [serialize]. unfold wrap.
  match goal with
  | |- match ?a with _ => _ end = Some (match ?b with _ => _ end) =>
      assert (E : a = b)
  end.
  { induction ps as [|[k x] ps IH]; [reflexivity|]. cbn [member_texts].
    rewrite <- IH. unfold member_text. now destruct (serialize (2 + indent) x). }
  rewrite E. now destruct (member_texts (2 + indent) ps).
Qed.

Lemma skip_ws_head c l : is_ws c = false -> skip_ws (c :: l) = c :: l.
Proof. simpl. now intros ->. Qed.

Lemma skip_ws_newline n l : skip_ws (newline n ++ l) = skip_ws l.
Proof. unfold newline. simpl. induction n; simpl; auto. Qed.

Lemma parse_value_newline f n l :
  parse_value f (newline n ++ l) = parse_value f l.
Proof. destruct f; [reflexivity|]. cbn [parse_value]. now rewrite skip_ws_newline. Qed.

Lemma parse_elements_newline f acc n l :
  parse_elements f acc (newline n ++ l) = parse_elements f acc l.
Proof.
  destruct f; [reflexivity|]. cbn [parse_elements]. now rewrite parse_value_newline.
Qed.

Lemma parse_members_newline f acc n l :
  parse_members f acc (newline n ++ l) = parse_members f acc l.
Proof.
  destruct f; [reflexivity|]. cbn [parse_members]. now rewrite skip_ws_newline.
Qed.

Lemma parse_value_space f l : parse_value f (32%N :: l) = parse_value f l.
Proof. destruct f; reflexivity. Qed.

Lemma starts_value_digit c : c = 45%N \/ is_digit c = true -> starts_value c.
Proof.
  intros [->|H]; [repeat split; discriminate|].
  unfold is_digit in H. apply andb_true_iff in H as [H1 H2].
  apply N.leb_le in H1, H2. unfold starts_value, is_ws.
  repeat split; try lia.
  repeat (apply orb_false_iff; split); apply N.eqb_neq; lia.
Qed.

Lemma parse_value_number f c t x r :
  c = 45%N \/ is_digit c = true ->
  parse_number (c :: t) = Some (x, r) ->
  parse_value (S f) (c :: t) = Some (VNum x, r).
Proof.
  intros Hc Hn. destruct (starts_value_digit c Hc) as (Hws & _).
  cbn [parse_value]. rewrite (skip_ws_head c t Hws).
  assert (Hne : forall k, (k = 123 \/ k = 91 \/ k = 34 \/ k = 116 \/ k = 102
                           \/ k = 110)%N -> (k =? c)%N = false).
  { intros k Hk. apply N.eqb_neq. destruct Hc as [->|Hd]; [lia|].
    unfold is_digit in Hd. apply andb_true_iff in Hd as [H1 H2].
    apply N.leb_le in H1, H2. lia. }
  rewrite !(N.eqb_sym c), !Hne by tauto.
  unfold parse_literal. cbn [strip_prefix Str.of_string list_ascii_of_string map
                             N_of_ascii N_of_digits N.add N.mul].
  rewrite !Hne by tauto. now rewrite Hn.
Qed.

Lemma format_head ds k :
  digits_nz ds -> exists c t, Num.format_digits ds k = c :: t /\ is_digit c = true.
Proof.
  destruct ds as [|d ds']; [easy|]. intros (Hd & _ & _).
  unfold Num.format_digits.
  destruct ((-5 <=? k) && (k <=? 21)).
  - destruct (Z.of_nat (List.length (d :: ds')) <=? k).
    + cbn [app]. eauto.
    + destruct (Z.ltb_spec 0 k).
      * destruct (Z.to_nat k) eqn:Ek; [lia|]. cbn [firstn app]. eauto.
      * now exists 48%N; eexists.
  - destruct ds'; eauto.
Qed.

Lemma reads_null : reads_value null_text.
Proof.
  split.
  - exists 110%N, (js "ull"). split; [reflexivity|].
    repeat split; discriminate.
  - intros rest _. now exists 1%nat, VNull.
Qed.

Lemma reads_number n : Num.is_finite n = true -> reads_value (Num.to_string n).
Proof.
  destruct n as [z| | |s m e]; try discriminate; intros _.
  - split.
    + exists 48%N, []. split; [reflexivity|]. apply starts_value_digit. now right.
    + intros rest Hrest.
      destruct (parse_unsigned_parts false [48%N] [] [] rest) as [x Hx]; auto.
      exists 1%nat, (VNum x). apply parse_value_number; [now right|exact Hx].
  - unfold Num.to_string.
    destruct (if 0 <=? e then (Z.pos m * 2 ^ e, 1) else (Z.pos m, 2 ^ (- e)))
      as [num den].
    pose proof (shortest_digits_nz (S754_finite false m e) num den) as Hnz.
    destruct (Num.shortest (S754_finite false m e) num den) as [ds k].
    simpl in Hnz.
    destruct (format_head ds k Hnz) as (c & t & Ef & Hc).
    destruct s; cbn [app].
    + split.
      * exists 45%N, (Num.format_digits ds k). split; [reflexivity|].
        apply starts_value_digit. now left.
      * intros rest Hrest.
        destruct (parse_unsigned_format true ds k rest Hnz Hrest) as [x Hx].
        exists 1%nat, (VNum x). apply parse_value_number; [now left|].
        exact Hx.
    + split.
      * exists c, t. split; [exact Ef|]. apply starts_value_digit. now right.
      * intros rest Hrest.
        destruct (parse_unsigned_format false ds k rest Hnz Hrest) as [x Hx].
        exists 1%nat, (VNum x). rewrite Ef in *. cbn [app] in *.
        apply parse_value_number; [now right|].
        cbn [parse_number].
        replace (c =? 45)%N with false; [exact Hx|].
        symmetry. apply N.eqb_neq. unfold is_digit in Hc.
        apply andb_true_iff in Hc as [H1 H2]. apply N.leb_le in H1, H2. lia.
Qed.

Lemma reads_string s : reads_value (quote s).
Proof.
  split.
  - exists 34%N, (escape s ++ [34%N]). split; [reflexivity|].
    repeat split; discriminate.
  - intros rest _. exists 1%nat, (VStr s). unfold quote.
    cbn [app parse_value skip_ws is_ws N.eqb Pos.eqb orb].
    rewrite <- app_assoc. cbn [app]. now rewrite parse_string_escape.
Qed.

Lemma join_cons sep x items :
  exists tail, join sep (x :: items) = x ++ tail
    /\ match items with
       | [] => tail = []
       | _ => tail = sep ++ join sep items
       end.
Proof.
  destruct items.
  - exists []. split; [now rewrite app_nil_r|reflexivity].
  - eexists. split; reflexivity.
Qed.

(** the elements of a non-empty array, up to the closing bracket *)
Lemma parse_elements_join k j items :
  Forall reads_value items -> items <> [] ->
  forall acc rest,
  exists f v,
    parse_elements f acc
      (join (44%N :: newline k) items ++ newline j ++ 93%N :: rest)
    = Some (v, rest).
Proof.
  induction 1 as [|t items [_ Ht] Hitems IH]; [congruence|]. intros _ acc rest.
  destruct items as [|t2 items'].
  - cbn [join].
    destruct (Ht (newline j ++ 93%N :: rest)) as (f & v & Hv).
    { simpl. now right. }
    exists (S f), (VArr (rev (v :: acc))).
    cbn [parse_elements]. rewrite Hv, skip_ws_newline. reflexivity.
  - destruct (Ht (44%N :: newline k
                   ++ join (44%N :: newline k) (t2 :: items')
                   ++ newline j ++ 93%N :: rest)) as (f1 & v & Hv).
    { simpl. now left. }
    destruct (IH ltac:(discriminate) (v :: acc) rest) as (f2 & v2 & Hv2).
    exists (S (Nat.max f1 f2)), v2.
    change (join (44%N :: newline k) (t :: t2 :: items'))
      with (t ++ (44%N :: newline k) ++ join (44%N :: newline k) (t2 :: items')).
    rewrite <- !app_assoc. cbn [app parse_elements].
    rewrite (parse_value_mono f1 _ _ _ (Nat.le_max_l f1 f2) Hv).
    cbn [app skip_ws is_ws N.eqb Pos.eqb orb].
    rewrite parse_elements_newline.
    exact (parse_elements_mono f2 _ _ _ _ (Nat.le_max_r f1 f2) Hv2).
Qed.

(** the members of a non-empty object, up to the closing brace *)
Lemma parse_members_join k j members :
  Forall reads_member members -> members <> [] ->
  forall acc rest,
  exists f v,
    parse_members f acc
      (join (44%N :: newline k) members ++ newline j ++ 125%N :: rest)
    = Some (v, rest).
Proof.
  induction 1 as [|m members (key & t & -> & _ & Ht) Hmembers IH]; [congruence|].
  intros _ acc rest.
  assert (Hstep : forall f R v,
    parse_value f (t ++ R) = Some (v, R) ->
    parse_members (S f) acc (member_text key t ++ R)
    = match skip_ws R with
      | [] => None
      | c' :: r4 =>
          if (c' =? 44)%N then parse_members f (obj_set acc key v) r4
          else if (c' =? 125)%N then Some (VObj (obj_set acc key v), r4)
          else None
      end).
  { intros f R v Hv. unfold member_text, quote.
    cbn [parse_members app skip_ws is_ws N.eqb Pos.eqb orb].
    rewrite <- !app_assoc. cbn [app].
    rewrite parse_string_escape.
    cbn [skip_ws is_ws N.eqb Pos.eqb orb].
    rewrite parse_value_space, Hv. reflexivity. }
  destruct members as [|m2 members'].
  - cbn [join].
    destruct (Ht (newline j ++ 125%N :: rest)) as (f & v & Hv).
    { simpl. now right. }
    exists (S f), (VObj (obj_set acc key v)).
    rewrite (Hstep _ _ _ Hv), skip_ws_newline. reflexivity.
  - destruct (Ht (44%N :: newline k
                   ++ join (44%N :: newline k) (m2 :: members')
                   ++ newline j ++ 125%N :: rest)) as (f1 & v & Hv).
    { simpl. now left. }
    destruct (IH ltac:(discriminate) (obj_set acc key v) rest) as (f2 & v2 & Hv2).
    exists (S (Nat.max f1 f2)), v2.
    change (join (44%N :: newline k) (member_text key t :: m2 :: members'))
      with (member_text key t ++ (44%N :: newline k)
            ++ join (44%N :: newline k) (m2 :: members')).
    rewrite <- !app_assoc. cbn [app].
    rewrite (Hstep _ _ _ (parse_value_mono f1 _ _ _ (Nat.le_max_l f1 f2) Hv)).
    cbn [app skip_ws is_ws N.eqb Pos.eqb orb].
    rewrite parse_members_newline.
    exact (parse_members_mono f2 _ _ _ _ (Nat.le_max_r f1 f2) Hv2).
Qed.

Lemma reads_wrap_arr indent items :
  Forall reads_value items -> reads_value (wrap 91 93 indent items).
Proof.
  intros Hitems. split.
  - unfold wrap. destruct items; eexists; eexists;
      (split; [reflexivity|repeat split; discriminate]).
  - intros rest _. destruct items as [|t items'].
    + now exists 1%nat, (VArr []).
    + destruct (parse_elements_join (2 + indent) indent (t :: items') Hitems
                  ltac:(discriminate) [] rest) as (f & v & Hv).
      exists (S f), v. unfold wrap.
      inversion Hitems as [|? ? [(c & t' & -> & Hws & Hc & _) _] _]; subst.
      destruct (join_cons (44%N :: newline (2 + indent)) (c :: t') items')
        as (tail & Ej & _).
      rewrite Ej in *. cbn [app] in Hv.
      cbn [app parse_value skip_ws is_ws N.eqb Pos.eqb orb].
      rewrite <- !app_assoc. cbn [app].
      rewrite skip_ws_newline. cbn [app]. rewrite (skip_ws_head _ _ Hws).
      destruct (N.eqb_spec c 93); [contradiction|].
      repeat (progress (rewrite <- ?app_assoc; cbn [app])).
      repeat (progress (rewrite <- ?app_assoc in Hv; cbn [app] in Hv)).
      exact Hv.
Qed.

Lemma reads_wrap_obj indent members :
  Forall reads_member members -> reads_value (wrap 123 125 indent members).
Proof.
  intros Hmembers. split.
  - unfold wrap. destruct members; eexists; eexists;
      (split; [reflexivity|repeat split; discriminate]).
  - intros rest _. destruct members as [|m members'].
    + now exists 1%nat, (VObj []).
    + destruct (parse_members_join (2 + indent) indent (m :: members') Hmembers
                  ltac:(discriminate) [] rest) as (f & v & Hv).
      exists (S f), v. unfold wrap.
      inversion Hmembers as [|? ? (key & t & -> & _) _]; subst.
      destruct (join_cons (44%N :: newline (2 + indent)) (member_text key t)
                  members') as (tail & Ej & _).
      rewrite Ej in *. unfold member_text, quote in Hv |- *. cbn [app] in Hv.
      cbn [app parse_value skip_ws is_ws N.eqb Pos.eqb orb].
      rewrite <- !app_assoc. cbn [app].
      rewrite skip_ws_newline. cbn [app skip_ws is_ws N.eqb Pos.eqb orb].
      repeat (progress (rewrite <- ?app_assoc; cbn [app])).
      repeat (progress (rewrite <- ?app_assoc in Hv; cbn [app] in Hv)).
      exact Hv.
Qed.

Lemma member_texts_read indent ps :
  Forall (fun kv => forall indent t,
            serialize indent (snd kv) = Some t -> reads_value t) ps ->
  Forall reads_member (member_texts indent ps).
Proof.
  induction 1 as [|[k x] ps Hx _ IH]; [constructor|]. cbn [member_texts].
  destruct (serialize indent x) as [t|] eqn:E; [|exact IH].
  constructor; [|exact IH]. exists k, t. split; [reflexivity|].
  exact (Hx indent t E).
Qed.

(** Whatever [JSON.stringify] writes for a value is read as one value. *)
Theorem serialize_reads v :
  forall indent t, serialize indent v = Some t -> reads_value t.
Proof.
  induction v as [ | |b|n|s|l IH|ps IH] using value_ind_nested; intros indent t.
  - discriminate.
  - intros [= <-]. apply reads_null.
  - destruct b; intros [= <-]; (split;
      [eexists; eexists; split; [reflexivity|repeat split; discriminate]
      |intros rest _; exists 1%nat; eexists; reflexivity]).
  - cbn [serialize]. intros [= <-].
    destruct (Num.is_finite n) eqn:E; [now apply reads_number|apply reads_null].
  - intros [= <-]. apply reads_string.
  - rewrite serialize_arr. intros [= <-]. apply reads_wrap_arr.
    induction IH as [|x l Hx _ IHl]; [constructor|].
    constructor; [|exact IHl]. unfold item_text.
    match goal with
    | |- context [serialize ?i x] =>
        destruct (serialize i x) eqn:E; [eauto|apply reads_null]
    end.
  - rewrite serialize_obj. intros [= <-]. apply reads_wrap_obj.
    now apply member_texts_read.
Qed.

Lemma serialize_defined indent v :
  v <> VUndefined -> exists t, serialize indent v = Some t.
Proof.
  destruct v as [ | |[|]|n|s|l|ps]; try congruence; intros _;
    try (eexists; reflexivity).
  - rewrite serialize_arr. eauto.
  - rewrite serialize_obj. eauto.
Qed.

Lemma parse_value_defined f l v r :
  parse_value f l = Some (v, r) -> v <> VUndefined.
Proof.
  destruct f as [|f]; [discriminate|]. cbn [parse_value].
  assert (He : forall f acc l, parse_elements f acc l = Some (v, r) ->
                               v <> VUndefined).
  { clear. induction f as [|f IH]; [discriminate|]. intros acc l.
    cbn [parse_elements]. destruct (parse_value f l) as [[v0 r0]|]; [|discriminate].
    destruct (skip_ws r0) as [|c r']; [discriminate|].
    destruct (c =? 44)%N; [apply IH|].
    destruct (c =? 93)%N; [|discriminate]. now intros [= <- <-]. }
  assert (Hm : forall f acc l, parse_members f acc l = Some (v, r) ->
                               v <> VUndefined).
  { clear. induction f as [|f IH]; [discriminate|]. intros acc l.
    cbn [parse_members]. repeat case_head; try (intros; discriminate).
    match goal with
    | |- context [parse_value f ?l0] =>
        destruct (parse_value f l0) as [[v0 r3]|]; [|discriminate]
    end.
    repeat case_head; try (intros; discriminate); [apply IH|].
    now intros [= <- <-]. }
  repeat case_head; eauto; try (now intros [= <- <-]).
  unfold parse_literal.
  repeat match goal with
  | |- context [match strip_prefix ?p ?l with _ => _ end] =>
      destruct (strip_prefix p l); [now intros [= <- <-]|]
  end.
  destruct (parse_number _) as [[x r']|]; [|discriminate]. now intros [= <- <-].
Qed.

Lemma parse_defined text v : parse text = Ok v -> v <> VUndefined.
Proof.
  unfold parse.
  destruct (parse_value (fuel_for text) text) as [[v0 r]|] eqn:E; [|discriminate].
  destruct (skip_ws r); [|discriminate]. intros [= <-].
  exact (parse_value_defined _ _ _ _ E).
Qed.

(** [JSON.parse(JSON.stringify(v, null, 2))] does not throw. *)
Theorem parse_stringify v t :
  stringify v = Some t -> exists v', parse t = Ok v'.
Proof.
  intros H. destruct (serialize_reads v 0 t H) as [_ Hread].
  destruct (Hread [] I) as (f & v' & Hv). rewrite app_nil_r in Hv.
  exists v'. unfold parse. now rewrite (parse_value_fuel _ _ _ Hv).
Qed.

End JSONFacts.


(** * Numbers as text *)

Module NumberFacts.
Import StrFacts PropsFacts JSONText JSONFacts Dialog.

Lemma trim_left_blank w l :
  forallb is_str_whitespace w = true -> trim_left (w ++ l) = trim_left l.
Proof.
  induction w as [|c w IH]; [reflexivity|]. cbn [forallb app trim_left].
  intros H. apply andb_true_iff in H as [-> H]. now apply IH.
Qed.

Lemma trim_left_app t w :
  trim_left t <> [] -> trim_left (t ++ w) = trim_left t ++ w.
Proof.
  induction t as [|c t IH]; [intros H; now contradiction H|].
  cbn [app trim_left].
  destruct (is_str_whitespace c); [exact IH|reflexivity].
Qed.

Lemma trim_left_all_blank w :
  forallb is_str_whitespace w = true -> trim_left w = [].
Proof.
  intros H. rewrite <- (app_nil_r w). now rewrite trim_left_blank.
Qed.

Lemma forallb_rev {A} (p : A -> bool) l : forallb p (rev l) = forallb p l.
Proof.
  induction l as [|x l IH]; [reflexivity|]. cbn [rev forallb].
  rewrite forallb_app, IH. cbn [forallb]. now destruct (forallb p l), (p x).
Qed.

Lemma trim_padded w1 t w2 :
  forallb is_str_whitespace w1 = true -> forallb is_str_whitespace w2 = true ->
  trim (w1 ++ t ++ w2) = trim t.
Proof.
  intros H1 H2. unfold trim. rewrite (trim_left_blank w1 _ H1).
  destruct (trim_left t) as [|c t'] eqn:Et.
  - assert (E : trim_left (t ++ w2) = []).
    { clear - Et H2. induction t as [|x t IH]; [now apply trim_left_all_blank|].
      cbn [app trim_left] in *. destruct (is_str_whitespace x); [auto|discriminate]. }
    now rewrite E.
  - rewrite trim_left_app by (rewrite Et; discriminate).
    rewrite Et, rev_app_distr, trim_left_blank; [reflexivity|].
    now rewrite forallb_rev.
Qed.

Lemma number_char_not_blank c : number_char c = true -> is_str_whitespace c = false.
Proof.
  unfold number_char, is_digit. intros H.
  assert (Hc : (43 <= c <= 101)%N).
  { repeat (apply orb_true_iff in H as [H|H]);
      try (apply N.eqb_eq in H; subst c; split; discriminate).
    apply andb_true_iff in H as [H1 H2].
    apply N.leb_le in H1. apply N.leb_le in H2. lia. }
  clear H. unfold is_str_whitespace.
  repeat match goal with
         | |- context [(?a <=? ?b)%N] =>
             destruct (N.leb_spec a b); try (exfalso; lia)
         | |- context [(?a =? ?b)%N] =>
             destruct (N.eqb_spec a b); try (exfalso; lia)
         end.
  reflexivity.
Qed.

Lemma digit_number_char c : is_digit c = true -> number_char c = true.
Proof. unfold number_char. now intros ->. Qed.

Lemma digits_number_chars ds :
  forallb is_digit ds = true -> forallb number_char ds = true.
Proof.
  induction ds as [|d ds IH]; [reflexivity|]. cbn [forallb].
  intros H. apply andb_true_iff in H as [Hd H].
  now rewrite (digit_number_char _ Hd), IH.
Qed.

Lemma trim_unpadded l : forallb number_char l = true -> trim l = l.
Proof.
  intros H.
  assert (Hl : forall l', forallb number_char l' = true -> trim_left l' = l').
  { intros [|c l'] Hc; [reflexivity|]. cbn [forallb] in Hc.
    apply andb_true_iff in Hc as [Hc _]. cbn [trim_left].
    now rewrite (number_char_not_blank _ Hc). }
  unfold trim. rewrite (Hl l H), Hl by (now rewrite forallb_rev).
  apply rev_involutive.
Qed.

Lemma span_digits_inv l :
  forall ds r,
  span_digits l = (ds, r) ->
  l = ds ++ r /\ forallb is_digit ds = true /\ stops is_digit r.
Proof.
  induction l as [|c l IH]; intros ds r; cbn [span_digits].
  - intros [= <- <-]. now repeat split.
  - destruct (is_digit c) eqn:Hc.
    + destruct (span_digits l) as [ds' r']. intros [= <- <-].
      destruct (IH ds' r' eq_refl) as (-> & Hd & Hs).
      cbn [forallb app]. rewrite Hc, Hd. now repeat split.
    + intros [= <- <-]. cbn [stops forallb app]. now repeat split.
Qed.

Lemma parse_exp_end r2 e :
  JSON.parse_exp r2 = Some (e, []) ->
  exponent_part r2 = Some e /\ forallb number_char r2 = true /\ stops is_digit r2.
Proof.
  destruct r2 as [|c r]; cbn [JSON.parse_exp exponent_part].
  - intros [= <-]. now repeat split.
  - destruct ((c =? 101) || (c =? 69))%N eqn:Hc; [|discriminate].
    assert (Hcc : number_char c = true /\ is_digit c = false).
    { apply orb_true_iff in Hc as [Hc|Hc]; apply N.eqb_eq in Hc; now subst c. }
    assert (Hs : forall neg r1,
               forallb number_char (firstn (List.length r - List.length r1) r) = true ->
               r = firstn (List.length r - List.length r1) r ++ r1 ->
               match span_digits r1 with
               | ([], _) => None
               | (ds, r') =>
                   Some (if neg : bool then - digits_value ds else digits_value ds, r')
               end = Some (e, []) ->
               match span_digits r1 with
               | (d :: ds, []) =>
                   Some (if neg then - digits_value (d :: ds)
                         else digits_value (d :: ds))
               | _ => None
               end = Some e
               /\ forallb number_char (c :: r) = true /\ stops is_digit (c :: r)).
    { intros neg r1 Hpre Hr.
      destruct (span_digits r1) as [ds r'] eqn:Es.
      destruct (span_digits_inv _ _ _ Es) as (E1 & Hd & _).
      destruct ds as [|d ds]; [discriminate|]. intros [= <- ->].
      split; [reflexivity|]. split; [|exact (proj2 Hcc)].
      cbn [forallb]. rewrite (proj1 Hcc), Hr, forallb_app, Hpre, E1, app_nil_r.
      now rewrite (digits_number_chars _ Hd). }
    destruct r as [|s r'].
    + apply (Hs false []); reflexivity.
    + destruct (N.eqb_spec s 45) as [->|H45].
      * apply (Hs true r').
        -- cbn [List.length]. replace (S (List.length r') - List.length r')%nat
             with 1%nat by lia. reflexivity.
        -- cbn [List.length]. replace (S (List.length r') - List.length r')%nat
             with 1%nat by lia. reflexivity.
      * destruct (N.eqb_spec s 43) as [->|H43].
        -- apply (Hs false r').
           ++ cbn [List.length]. replace (S (List.length r') - List.length r')%nat
                with 1%nat by lia. reflexivity.
           ++ cbn [List.length]. replace (S (List.length r') - List.length r')%nat
                with 1%nat by lia. reflexivity.
        -- apply (Hs false (s :: r')).
           ++ now rewrite Nat.sub_diag.
           ++ now rewrite Nat.sub_diag.
Qed.

Lemma parse_int_inv r ip r1 :
  JSON.parse_int r = Some (ip, r1) ->
  r = ip ++ r1 /\ forallb is_digit ip = true
  /\ (exists d ip', ip = d :: ip')
  /\ (stops is_digit r1 -> span_digits r = (ip, r1)).
Proof.
  destruct r as [|c r]; cbn [JSON.parse_int]; [discriminate|].
  destruct (N.eqb_spec c 48) as [->|Hc].
  - intros [= <- <-]. repeat split; eauto.
    intros Hs. now apply (span_digits_app [48%N] r).
  - destruct (is_digit c) eqn:Hd; [|discriminate]. intros [= H].
    destruct (span_digits_inv (c :: r) ip r1 H) as (E & Hall & Hs).
    repeat split; auto.
    cbn [span_digits] in H. rewrite Hd in H.
    destruct (span_digits r) as [ds r']. injection H as <- <-. eauto.
Qed.

Lemma parse_unsigned_end neg r n :
  JSON.parse_unsigned neg r = Some (n, []) ->
  unsigned_decimal neg r = n
  /\ forallb number_char r = true
  /\ exists d rest, r = d :: rest /\ is_digit d = true.
Proof.
  unfold JSON.parse_unsigned.
  destruct (JSON.parse_int r) as [[ip r1]|] eqn:Ei; [|discriminate].
  destruct (JSON.parse_frac r1) as [[fp r2]|] eqn:Ef; [|discriminate].
  destruct (JSON.parse_exp r2) as [[e r3]|] eqn:Ee; [|discriminate].
  intros [= <- ->].
  destruct (parse_exp_end _ _ Ee) as (Hexp & Hch2 & Hs2).
  destruct (parse_int_inv _ _ _ Ei) as (Er & Hip & (d & ip' & Eip) & Hspan).
  assert (Hhead : exists d rest, r = d :: rest /\ is_digit d = true).
  { subst ip. rewrite Er. cbn [app]. exists d, (ip' ++ r1). split; [reflexivity|].
    cbn [forallb] in Hip. now apply andb_true_iff in Hip as [Hip _]. }
  unfold JSON.parse_frac in Ef. destruct r1 as [|c r1'].
  - injection Ef as <- <-.
    split; [|split; [|exact Hhead]].
    + unfold unsigned_decimal. rewrite (Hspan I). rewrite app_nil_r.
      subst ip. rewrite Hexp. reflexivity.
    + rewrite Er, app_nil_r. now apply digits_number_chars.
  - destruct (N.eqb_spec c 46) as [->|Hc].
    + destruct (span_digits r1') as [fp' r2'] eqn:Es.
      destruct (span_digits_inv _ _ _ Es) as (E1 & Hfp & Hs).
      destruct fp' as [|f fp']; [discriminate|]. injection Ef as <- <-.
      split; [|split; [|exact Hhead]].
      * unfold unsigned_decimal. rewrite (Hspan eq_refl).
        cbn [N.eqb Pos.eqb]. rewrite Es. subst ip. cbn [app].
        rewrite Hexp. reflexivity.
      * rewrite Er, forallb_app, (digits_number_chars _ Hip). cbn [forallb andb].
        change (number_char 46) with true. cbn [andb].
        now rewrite E1, forallb_app, (digits_number_chars _ Hfp), Hch2.
    + injection Ef as <- <-.
      split; [|split; [|exact Hhead]].
      * unfold unsigned_decimal. rewrite (Hspan Hs2).
        rewrite (proj2 (N.eqb_neq c 46) Hc). rewrite app_nil_r.
        subst ip. rewrite Hexp. reflexivity.
      * now rewrite Er, forallb_app, (digits_number_chars _ Hip), Hch2.
Qed.

Lemma non_decimal_head c l : c <> 48%N -> non_decimal (c :: l) = None.
Proof.
  intros Hc. destruct c as [|q]; [reflexivity|].
  repeat (destruct q as [q|q|]; try reflexivity).
  now contradiction Hc.
Qed.

Lemma parse_unsigned_decimal l n :
  JSON.parse_unsigned false l = Some (n, []) -> non_decimal l = None.
Proof.
  intros H. destruct l as [|c l]; [reflexivity|].
  destruct (N.eqb_spec c 48) as [->|Hc]; [|now apply non_decimal_head].
  destruct l as [|p [|d ds]]; try reflexivity.
  unfold JSON.parse_unsigned in H. cbn [JSON.parse_int N.eqb Pos.eqb] in H.
  unfold JSON.parse_frac in H.
  destruct (N.eqb_spec p 46) as [->|Hp]; [reflexivity|].
  unfold JSON.parse_exp in H.
  destruct ((p =? 101) || (p =? 69))%N eqn:He; [|discriminate].
  apply orb_true_iff in He as [He|He]; apply N.eqb_eq in He; now subst p.
Qed.

(** a text that the document parser reads to its end as a number is the
    same number for [Number] *)
Lemma json_number_read text n :
  JSON.parse_number text = Some (n, []) -> StringToNumber text = n.
Proof.
  intros H. destruct text as [|c r]; [discriminate|]. cbn [JSON.parse_number] in H.
  destruct (N.eqb_spec c 45) as [->|Hc].
  - destruct (parse_unsigned_end _ _ _ H) as (Hu & Hch & d & rest & -> & Hd).
    unfold StringToNumber.
    rewrite trim_unpadded
      by (apply (proj2 (andb_true_iff (number_char 45)
                          (forallb number_char (d :: rest)))); now split).
    change (non_decimal (45%N :: d :: rest)) with (@None Z). cbv iota.
    unfold signed_decimal. cbn [N.eqb Pos.eqb Str.eqb].
    assert (Hi : (d =? 73)%N = false).
    { apply N.eqb_neq. intros ->. discriminate. }
    change (js "Infinity") with (73%N :: js "nfinity"). cbn [Str.eqb].
    rewrite Hi. exact Hu.
  - destruct (parse_unsigned_end _ _ _ H) as (Hu & Hch & d & rest & [= -> ->] & Hd).
    unfold StringToNumber. rewrite trim_unpadded by exact Hch.
    rewrite (parse_unsigned_decimal _ _ H).
    unfold signed_decimal. rewrite (proj2 (N.eqb_neq d 45) Hc).
    assert (H43 : (d =? 43)%N = false).
    { apply N.eqb_neq. intros ->. discriminate. }
    assert (Hi : (d =? 73)%N = false).
    { apply N.eqb_neq. intros ->. discriminate. }
    rewrite H43. change (js "Infinity") with (73%N :: js "nfinity").
    cbn [Str.eqb]. rewrite Hi. exact Hu.
Qed.





End NumberFacts.

(** * The component *)

Module NodeModalFacts.
Import StrFacts PropsFacts JSONText JSONFacts Dialog.

(** *** Reading a property *)

Lemma get_own v k x : own v k = Some x -> get v k = Some x.
Proof. unfold get. now intros ->. Qed.

Lemma get_missing v k :
  own v k = None -> inherited v k = false -> get v k = Some VUndefined.
Proof. unfold get. now intros -> ->. Qed.

Lemma get_inherited v k : own v k = None -> inherited v k = true -> get v k = None.
Proof. unfold get. now intros -> ->. Qed.

Lemma lookup_own v k : Spec.lookup v k <> VUndefined -> own v k = Some (Spec.lookup v k).
Proof. unfold Spec.lookup. destruct (own v k); [reflexivity|congruence]. Qed.

Lemma get_lookup v k : Spec.lookup v k <> VUndefined -> get v k = Some (Spec.lookup v k).
Proof. intros H. now apply get_own, lookup_own. Qed.

(** what the code reads is what the lookup finds, unless it is inherited *)
Lemma get_cases v k : get v k = Some (Spec.lookup v k) \/ get v k = None.
Proof.
  unfold get, Spec.lookup. destruct (own v k); [now left|].
  destruct (inherited v k); [now right|now left].
Qed.

(** *** Path resolution *)

Lemma fold_none p : fold_left reduce_step p None = None.
Proof. induction p as [|seg p IH]; [reflexivity|exact IH]. Qed.

Lemma fold_undefined p : fold_left reduce_step p (Some VUndefined) = Some VUndefined.
Proof. induction p as [|seg p IH]; [reflexivity|exact IH]. Qed.

Lemma reducer_falsy acc seg :
  ToBoolean acc = false -> reducer acc seg = Some VUndefined.
Proof. unfold reducer. now intros ->. Qed.

Lemma reducer_truthy acc seg :
  ToBoolean acc = true -> reducer acc seg = get acc (ToPropertyKey seg).
Proof. unfold reducer. now intros ->. Qed.

Lemma reduce_snoc doc p seg :
  reduce (p ++ [seg]) doc = reduce_step (reduce p doc) seg.
Proof. unfold reduce. now rewrite fold_left_app. Qed.

Lemma reduce_app doc p q :
  reduce (p ++ q) doc = fold_left reduce_step q (reduce p doc).
Proof. unfold reduce. now rewrite fold_left_app. Qed.

Lemma index_snoc doc p seg :
  Spec.index doc (p ++ [seg]) = Spec.lookup (Spec.index doc p) (ToPropertyKey seg).
Proof. unfold Spec.index. now rewrite fold_left_app. Qed.

Lemma index_app doc p q : Spec.index doc (p ++ q) = Spec.index (Spec.index doc p) q.
Proof. unfold Spec.index. now rewrite fold_left_app. Qed.

Lemma index_undefined p : Spec.index VUndefined p = VUndefined.
Proof. induction p as [|seg p IH]; [reflexivity|exact IH]. Qed.

Lemma index_prefix doc p q :
  Spec.index doc (p ++ q) <> VUndefined -> Spec.index doc p <> VUndefined.
Proof.
  rewrite index_app. intros H E. rewrite E in H. now rewrite index_undefined in H.
Qed.

(** the reducer follows plain indexing, as long as that finds something,
    until it gives up *)
Lemma reduce_cases doc p :
  Spec.index doc p <> VUndefined ->
  reduce p doc = Some (Spec.index doc p) \/ reduce p doc = Some VUndefined.
Proof.
  induction p as [|seg p IH] using rev_ind; [now left|]. intros H.
  rewrite reduce_snoc.
  destruct (IH (index_prefix _ _ _ H)) as [-> | ->]; [|now right].
  cbn [reduce_step]. rewrite index_snoc in H |- *.
  destruct (ToBoolean (Spec.index doc p)) eqn:E.
  - left. rewrite (reducer_truthy _ _ E). now apply get_lookup.
  - right. now apply reducer_falsy.
Qed.


Lemma reduce_falsy doc p1 seg p2 :
  ToBoolean (Spec.index doc p1) = false -> Spec.index doc p1 <> VUndefined ->
  reduce (p1 ++ seg :: p2) doc = Some VUndefined.
Proof.
  intros H Hd. rewrite reduce_app. cbn [fold_left].
  assert (E : reduce_step (reduce p1 doc) seg = Some VUndefined).
  { destruct (reduce_cases doc p1 Hd) as [-> | ->]; cbn [reduce_step];
      now apply reducer_falsy. }
  rewrite E. apply fold_undefined.
Qed.

Lemma reduce_nullish doc p :
  Spec.index doc p = VNull ->
  exists v, reduce p doc = Some v /\ nullish v = true.
Proof.
  intros H.
  destruct (reduce_cases doc p) as [E|E]; [now rewrite H| |].
  - exists VNull. now rewrite E, H.
  - now exists VUndefined.
Qed.

Lemma objToEdit_nullish doc p v :
  reduce p doc = Some v -> nullish v = true -> objToEdit doc p = Some (root doc).
Proof.
  destruct p; [reflexivity|]. intros H Hn. unfold objToEdit. now rewrite H, Hn.
Qed.



Lemma objToEdit_cases doc p target :
  objToEdit doc p = Some target ->
  target = root doc
  \/ exists v, reduce p doc = Some v /\ nullish v = false
               /\ target = {| location := map ToPropertyKey p; referent := v |}.
Proof.
  destruct p as [|seg p]; [intros [= <-]; now left|]. unfold objToEdit.
  destruct (reduce (seg :: p) doc) as [v|]; [|discriminate].
  destruct (nullish v) eqn:Hn; intros [= <-]; [now left|right; eauto].
Qed.

(** *** Writing through the reference *)

Lemma set_nth_same i l :
  (i < List.length l)%nat -> set_nth i (nth i l VUndefined) l = l.
Proof.
  revert l; induction i as [|i IH]; intros [|x l]; simpl; try lia; [reflexivity|].
  intros H. f_equal. apply IH. lia.
Qed.

(** storing back what the reference holds leaves the document as it is *)
Lemma store_at_reduced p :
  forall doc v,
  reduce p doc = Some v -> nullish v = false ->
  store_at (map ToPropertyKey p) v doc = doc.
Proof.
  induction p as [|seg p IH]; intros doc v; [now intros [= <-]|].
  unfold reduce. cbn [fold_left map store_at reduce_step]. intros Hr Hn.
  destruct (ToBoolean doc) eqn:Hb.
  2:{ rewrite (reducer_falsy _ seg Hb), fold_undefined in Hr.
      injection Hr as <-. discriminate. }
  rewrite (reducer_truthy _ seg Hb) in Hr.
  destruct (get doc (ToPropertyKey seg)) as [child|] eqn:Hg;
    [|now rewrite fold_none in Hr].
  pose proof (IH child v Hr Hn) as Hs.
  unfold get in Hg.
  destruct (own doc (ToPropertyKey seg)) as [x|] eqn:Ho.
  2:{ destruct (inherited doc (ToPropertyKey seg)); [discriminate|].
      injection Hg as <-. rewrite fold_undefined in Hr. injection Hr as <-.
      discriminate. }
  injection Hg as ->.
  destruct doc as [ | |b|n|s|l|ps]; try reflexivity.
  - cbn [own] in Ho.
    destruct (array_index (ToPropertyKey seg)) as [i|] eqn:Ei; [|reflexivity].
    destruct (Z.ltb_spec i (len l)) as [Hi|Hi]; [|reflexivity].
    destruct (Str.eqb (ToPropertyKey seg) length_key) eqn:El.
    { destruct (eqb_spec (ToPropertyKey seg) length_key) as [E|]; [|discriminate].
      rewrite E in Ei. discriminate. }
    injection Ho as <-. rewrite Hs. unfold nth_value.
    rewrite set_nth_same; [reflexivity|].
    pose proof (array_index_nonneg _ _ Ei). unfold len in Hi. lia.
  - cbn [own] in Ho. rewrite Ho, Hs. now rewrite replace_prop_same.
Qed.

Lemma store_at_referent doc p target :
  objToEdit doc p = Some target ->
  store_at (location target) (referent target) doc = doc.
Proof.
  intros H. destruct (objToEdit_cases _ _ _ H) as [->|(v & Hr & Hn & ->)];
    [reflexivity|].
  now apply store_at_reduced.
Qed.

Lemma store_at_defined loc new doc :
  doc <> VUndefined -> new <> VUndefined -> store_at loc new doc <> VUndefined.
Proof.
  destruct loc as [|k loc]; [trivial|]. intros Hdoc _. cbn [store_at].
  destruct doc as [ | |b|n|s|l|ps]; try assumption.
  - destruct (array_index k); [|discriminate].
    destruct (_ <? _); discriminate.
  - destruct (assoc k ps); discriminate.
Qed.

Lemma referent_defined doc p target :
  objToEdit doc p = Some target -> doc <> VUndefined -> referent target <> VUndefined.
Proof.
  intros H Hdoc. destruct (objToEdit_cases _ _ _ H) as [->|(v & Hr & Hn & ->)];
    [exact Hdoc|].
  cbn [referent]. intros E. now rewrite E in Hn.
Qed.

(** closed goals: an equation or an inequation between computed values *)
Ltac decide_closed :=
  first [ vm_compute; reflexivity
        | discriminate
        | let E := fresh "E" in intros E; vm_compute in E; discriminate ].

(** *** Assignments and deletes on an object *)

Lemma put_ordinary ps b k x :
  k <> proto_key -> put (VObj ps, b) k x = Ok (VObj (obj_set ps k x), b).
Proof.
  intros Hk. unfold put, obj_put, reaches_setter. cbn [fst snd].
  now rewrite (eqb_neq k proto_key Hk).
Qed.

Lemma put_own ps b k x y :
  assoc k ps = Some y -> put (VObj ps, b) k x = Ok (VObj (obj_set ps k x), b).
Proof.
  intros Hk. unfold put, obj_put, reaches_setter. cbn [fst snd].
  now rewrite Hk, andb_false_r.
Qed.

(** an assignment to an object gives an object, and leaves the other keys *)
Lemma put_object ps b k x :
  exists ps' b', put (VObj ps, b) k x = Ok (VObj ps', b')
                 /\ (forall k', k' <> k -> assoc k' ps' = assoc k' ps)
                 /\ (assoc k ps = None -> assoc k ps' = None \/ assoc k ps' = Some x).
Proof.
  unfold put, obj_put. cbn [fst snd].
  destruct (reaches_setter ps b k).
  - exists ps, (set_prototype x b). split; [reflexivity|]. split; auto.
  - exists (obj_set ps k x), b. split; [reflexivity|]. split.
    + intros k' Hk'. rewrite assoc_obj_set. now rewrite (eqb_neq k k') by congruence.
    + intros _. right. now rewrite assoc_obj_set, eqb_refl.
Qed.

Lemma put_defined t k x t' : put t k x = Ok t' -> fst t' <> VUndefined.
Proof.
  destruct t as [v b]. unfold put. cbn [fst snd].
  destruct v as [ | |c|n|s|l|ps]; try discriminate.
  - destruct (Str.eqb k proto_key); [|discriminate]. now intros [= <-].
  - destruct (Str.eqb k proto_key); [|discriminate]. now intros [= <-].
  - destruct (Str.eqb k proto_key); [|discriminate]. now intros [= <-].
  - destruct (Str.eqb k length_key).
    + unfold set_length, bind. destruct (ToNumber x) as [n|]; [|discriminate].
      destruct (integer_value n); [|discriminate].
      destruct (_ && _); [|discriminate]. now intros [= <-].
    + destruct (array_index k); now intros [= <-].
  - destruct (obj_put (ps, b) k x). now intros [= <-].
Qed.

(** *** One row *)

Lemma no_key_false r k : key r = Some k -> k <> [] -> no_key r = false.
Proof. unfold no_key. intros -> Hk. now apply is_empty_false. Qed.

Lemma no_key_keyed r : no_key r = false -> exists k, key r = Some k /\ k <> [].
Proof.
  unfold no_key. destruct (key r) as [k|]; [|discriminate].
  intros H. exists k. split; [reflexivity|]. now intros ->.
Qed.

Lemma convertible_text r :
  convertible r = true -> no_key r = false -> exists s, ToString (value r) = Ok s.
Proof.
  unfold convertible, printable. intros H Hn. rewrite Hn in H. cbn [orb] in H.
  destruct (ToString (value r)) as [s|]; [eauto|discriminate].
Qed.

Lemma coerced_text r s :
  ToString (value r) = Ok s -> coerced r = Ok (convertValueByType (type r) s).
Proof. unfold coerced. now intros ->. Qed.

Lemma coerced_inv r x :
  coerced r = Ok x ->
  exists s, ToString (value r) = Ok s /\ x = convertValueByType (type r) s.
Proof.
  unfold coerced, bind. destruct (ToString (value r)) as [s|]; [|discriminate].
  intros [= <-]. eauto.
Qed.

Lemma editRow_unkeyed o r t : no_key r = true -> editRow o r t = Ok t.
Proof. unfold editRow. now intros ->. Qed.

(** a row whose value [String] refuses stops the loop before it writes *)
Lemma editRow_throws o r t e :
  no_key r = false -> ToString (value r) = Throw e -> editRow o r t = Throw e.
Proof. unfold editRow. now intros -> ->. Qed.

(** a row with a key, on an object: the stale key is deleted, then the key
    is assigned *)
Lemma editRow_object o r k s ps b :
  key r = Some k -> k <> [] -> ToString (value r) = Ok s ->
  editRow o r (VObj ps, b)
  = put (VObj (pruned o k ps), b) k (convertValueByType (type r) s).
Proof.
  intros Hk Hne Hs. unfold editRow, pruned.
  rewrite (no_key_false r k Hk Hne), Hk, Hs. cbn [bind fst snd].
  now destruct (staleKey o k).
Qed.

Lemma assoc_pruned o k ps k' :
  (forall o', o = Some o' -> key o' <> Some k') ->
  assoc k' (pruned o k ps) = assoc k' ps.
Proof.
  intros Ho. unfold pruned, staleKey. destruct o as [o'|]; [|reflexivity].
  specialize (Ho o' eq_refl).
  destruct (key o') as [ok|]; [|reflexivity].
  destruct (_ && _); [|reflexivity].
  rewrite assoc_obj_delete. now rewrite (eqb_neq ok k') by congruence.
Qed.

Lemma assoc_pruned_none o k ps k' :
  assoc k' ps = None -> assoc k' (pruned o k ps) = None.
Proof.
  intros H. unfold pruned. destruct (staleKey o k) as [ok|]; [|exact H].
  rewrite assoc_obj_delete, H. now destruct (Str.eqb ok k').
Qed.

Lemma pruned_renamed o k old ps :
  key o = Some old -> old <> [] -> old <> k ->
  pruned (Some o) k ps = obj_delete ps old.
Proof.
  intros Ho Hne Hk. unfold pruned, staleKey.
  now rewrite Ho, (is_empty_false _ Hne), (eqb_neq _ _ Hk).
Qed.

Lemma pruned_kept o k ps :
  o = None \/ (exists o', o = Some o' /\ (no_key o' = true \/ key o' = Some k)) ->
  pruned o k ps = ps.
Proof.
  unfold pruned, staleKey. intros [->|(o' & -> & [Ho|Ho])]; [reflexivity| |].
  - unfold no_key in Ho. destruct (key o') as [ok|]; [|reflexivity]. now rewrite Ho.
  - rewrite Ho, eqb_refl. now rewrite andb_false_r.
Qed.

Lemma editRow_object_ok o r ps b :
  convertible r = true ->
  exists ps' b', editRow o r (VObj ps, b) = Ok (VObj ps', b').
Proof.
  intros Hc. destruct (no_key r) eqn:Hn.
  - exists ps, b. now apply editRow_unkeyed.
  - destruct (no_key_keyed r Hn) as (k & Hk & Hne).
    destruct (convertible_text r Hc Hn) as [s Hs].
    rewrite (editRow_object o r k s ps b Hk Hne Hs).
    destruct (put_object (pruned o k ps) b k (convertValueByType (type r) s))
      as (ps' & b' & H & _). eauto.
Qed.

Lemma editRow_object_inv o r ps b t :
  editRow o r (VObj ps, b) = Ok t -> exists ps' b', t = (VObj ps', b').
Proof.
  destruct (no_key r) eqn:Hn.
  - rewrite (editRow_unkeyed _ _ _ Hn). intros [= <-]. eauto.
  - destruct (no_key_keyed r Hn) as (k & Hk & Hne).
    destruct (ToString (value r)) as [s|e] eqn:Hs.
    + rewrite (editRow_object o r k s ps b Hk Hne Hs).
      destruct (put_object (pruned o k ps) b k (convertValueByType (type r) s))
        as (ps' & b' & -> & _). intros [= <-]. eauto.
    + now rewrite (editRow_throws _ _ _ _ Hn Hs).
Qed.

(** a key that neither the row nor its original row has is left alone *)
Lemma editRow_frame o r ps b ps' b' k' :
  editRow o r (VObj ps, b) = Ok (VObj ps', b') ->
  key r <> Some k' -> (forall o', o = Some o' -> key o' <> Some k') ->
  assoc k' ps' = assoc k' ps.
Proof.
  intros He Hr Ho. destruct (no_key r) eqn:Hn.
  - rewrite (editRow_unkeyed _ _ _ Hn) in He. now injection He as <- <-.
  - destruct (no_key_keyed r Hn) as (k & Hk & Hne).
    destruct (ToString (value r)) as [s|e] eqn:Hs;
      [|now rewrite (editRow_throws _ _ _ _ Hn Hs) in He].
    rewrite (editRow_object o r k s ps b Hk Hne Hs) in He.
    destruct (put_object (pruned o k ps) b k (convertValueByType (type r) s))
      as (ps1 & b1 & Hp & Hf & _).
    rewrite Hp in He. injection He as <- <-.
    rewrite Hf by congruence. now apply assoc_pruned.
Qed.

(** a key that the row does not have and the target does not hold is not
    created *)
Lemma editRow_absent o r ps b ps' b' k' :
  editRow o r (VObj ps, b) = Ok (VObj ps', b') ->
  key r <> Some k' -> assoc k' ps = None -> assoc k' ps' = None.
Proof.
  intros He Hr Ha. destruct (no_key r) eqn:Hn.
  - rewrite (editRow_unkeyed _ _ _ Hn) in He. now injection He as <- <-.
  - destruct (no_key_keyed r Hn) as (k & Hk & Hne).
    destruct (ToString (value r)) as [s|e] eqn:Hs;
      [|now rewrite (editRow_throws _ _ _ _ Hn Hs) in He].
    rewrite (editRow_object o r k s ps b Hk Hne Hs) in He.
    destruct (put_object (pruned o k ps) b k (convertValueByType (type r) s))
      as (ps1 & b1 & Hp & Hf & _).
    rewrite Hp in He. injection He as <- <-.
    rewrite Hf by congruence. now apply assoc_pruned_none.
Qed.

(** a row with a key other than [__proto__] writes its coerced value *)
Lemma editRow_writes o r k s ps b :
  key r = Some k -> k <> [] -> k <> proto_key -> ToString (value r) = Ok s ->
  editRow o r (VObj ps, b)
  = Ok (VObj (obj_set (pruned o k ps) k (convertValueByType (type r) s)), b).
Proof.
  intros Hk Hne Hp Hs. rewrite (editRow_object o r k s ps b Hk Hne Hs).
  now apply put_ordinary.
Qed.

(** *** The loop over the rows *)

Lemma forEach_app a :
  forall idx b original obj,
  forEach idx (a ++ b) original obj
  = bind (forEach idx a original obj)
         (fun obj' => forEach (idx + List.length a) b original obj').
Proof.
  induction a as [|r a IH]; intros idx b original obj.
  - cbn [app forEach bind List.length]. now rewrite Nat.add_0_r.
  - cbn [app forEach List.length].
    destruct (editRow (nth_error original idx) r obj) as [obj1|e]; [|reflexivity].
    cbn [bind]. rewrite IH. now rewrite Nat.add_succ_r.
Qed.


Lemma forEach_object rs :
  forall idx original ps b,
  forallb convertible rs = true ->
  exists ps' b', forEach idx rs original (VObj ps, b) = Ok (VObj ps', b').
Proof.
  induction rs as [|r rs IH]; intros idx original ps b H; cbn [forEach]; [eauto|].
  cbn [forallb] in H. apply andb_true_iff in H as [Hr Hrs].
  destruct (editRow_object_ok (nth_error original idx) r ps b Hr) as (ps1 & b1 & ->).
  cbn [bind]. now apply IH.
Qed.

Lemma forEach_object_inv rs :
  forall idx original ps b t,
  forEach idx rs original (VObj ps, b) = Ok t -> exists ps' b', t = (VObj ps', b').
Proof.
  induction rs as [|r rs IH]; intros idx original ps b t; cbn [forEach].
  - intros [= <-]. eauto.
  - destruct (editRow (nth_error original idx) r (VObj ps, b)) as [t1|e] eqn:He;
      [|discriminate].
    destruct (editRow_object_inv _ _ _ _ _ He) as (ps1 & b1 & ->). cbn [bind].
    apply IH.
Qed.

(** keys that no row from here on has, as its key or as the key of its
    original row, are left alone *)
Lemma forEach_frame k rs :
  forall idx original ps b ps' b',
  forEach idx rs original (VObj ps, b) = Ok (VObj ps', b') ->
  (forall r, In r rs -> key r <> Some k) ->
  (forall i o, (idx <= i)%nat -> nth_error original i = Some o -> key o <> Some k) ->
  assoc k ps' = assoc k ps.
Proof.
  induction rs as [|r rs IH]; intros idx original ps b ps' b' Hf Hr Ho.
  - now injection Hf as <- <-.
  - cbn [forEach] in Hf.
    destruct (editRow (nth_error original idx) r (VObj ps, b)) as [t1|e] eqn:He;
      [|discriminate].
    destruct (editRow_object_inv _ _ _ _ _ He) as (ps1 & b1 & ->).
    cbn [bind] in Hf.
    rewrite (IH _ _ _ _ _ _ Hf).
    + apply (editRow_frame _ _ _ _ _ _ _ He); [apply Hr; now left|].
      intros o' Hn. now apply (Ho idx o').
    + intros r' Hin. apply Hr. now right.
    + intros i o Hi. apply Ho. lia.
Qed.

(** a key that no row from here on has is not created *)
Lemma forEach_absent k rs :
  forall idx original ps b ps' b',
  forEach idx rs original (VObj ps, b) = Ok (VObj ps', b') ->
  (forall r, In r rs -> key r <> Some k) ->
  assoc k ps = None -> assoc k ps' = None.
Proof.
  induction rs as [|r rs IH]; intros idx original ps b ps' b' Hf Hr Ha.
  - now injection Hf as <- <-.
  - cbn [forEach] in Hf.
    destruct (editRow (nth_error original idx) r (VObj ps, b)) as [t1|e] eqn:He;
      [|discriminate].
    destruct (editRow_object_inv _ _ _ _ _ He) as (ps1 & b1 & ->).
    cbn [bind] in Hf.
    apply (IH _ _ _ _ _ _ Hf); [intros r' Hin; apply Hr; now right|].
    apply (editRow_absent _ _ _ _ _ _ _ He); [apply Hr; now left|exact Ha].
Qed.




Lemma editRow_defined o r t t' :
  editRow o r t = Ok t' -> fst t <> VUndefined -> fst t' <> VUndefined.
Proof.
  unfold editRow. destruct (no_key r); [now intros [= <-]|].
  intros H _. unfold bind in H.
  destruct (ToString (value r)); [|discriminate].
  destruct (match staleKey o _ with Some _ => _ | None => _ end); [|discriminate].
  exact (put_defined _ _ _ _ H).
Qed.

Lemma forEach_defined rs :
  forall idx original t t',
  forEach idx rs original t = Ok t' -> fst t <> VUndefined -> fst t' <> VUndefined.
Proof.
  induction rs as [|r rs IH]; intros idx original t t'; cbn [forEach].
  - now intros [= <-].
  - unfold bind.
    destruct (editRow (nth_error original idx) r t) as [t1|] eqn:E; [|discriminate].
    intros H Ht. apply (IH _ _ _ _ H). exact (editRow_defined _ _ _ _ E Ht).
Qed.

(** *** The save *)

(** what [applyEdits] returns, step by step *)
Lemma applyEdits_ok st edited :
  applyEdits st = Some (Ok edited) ->
  exists parsed,
    JSON.parse (source_text st) = Ok parsed
    /\ ((exists target obj,
           objToEdit parsed (targetPath st) = Some target
           /\ forEach 0 (rows st) (originalRows st) (referent target, false) = Ok obj
           /\ edited = store_at (location target) (fst obj) parsed)
        \/ (objToEdit parsed (targetPath st) = None
            /\ forallb no_key (rows st) = true /\ edited = parsed)).
Proof.
  unfold applyEdits, writeRows, bind.
  destruct (JSON.parse (source_text st)) as [parsed|] eqn:Hp; [|discriminate].
  intros H. exists parsed. split; [reflexivity|]. revert H.
  destruct (objToEdit parsed (targetPath st)) as [target|] eqn:Ht.
  - destruct (forEach 0 (rows st) (originalRows st) (referent target, false))
      as [obj|] eqn:Hf; [|discriminate].
    intros [= <-]. left. exists target, obj. repeat split; assumption.
  - destruct (forallb no_key (rows st)); [|discriminate].
    intros [= <-]. right. repeat split.
Qed.

Lemma applyEdits_defined st edited :
  applyEdits st = Some (Ok edited) -> edited <> VUndefined.
Proof.
  intros H.
  destruct (applyEdits_ok _ _ H)
    as (parsed & Hp & [(target & obj & Ht & Hf & ->)|(_ & _ & ->)]);
    pose proof (parse_defined _ _ Hp) as Hd; [|exact Hd].
  apply store_at_defined; [exact Hd|].
  exact (forEach_defined _ _ _ _ _ Hf (referent_defined _ _ _ Ht Hd)).
Qed.

Lemma applyEdits_at st doc target :
  JSON.parse (source_text st) = Ok doc ->
  objToEdit doc (targetPath st) = Some target ->
  applyEdits st = Some (writeRows st doc target).
Proof. unfold applyEdits. now intros -> ->. Qed.

(** the loop has completed on the object of the reference *)
Lemma applyEdits_looped st doc target t :
  JSON.parse (source_text st) = Ok doc ->
  objToEdit doc (targetPath st) = Some target ->
  forEach 0 (rows st) (originalRows st) (referent target, false) = Ok t ->
  applyEdits st = Some (Ok (store_at (location target) (fst t) doc)).
Proof.
  intros Hp Ht Hf. rewrite (applyEdits_at st doc target Hp Ht).
  unfold writeRows. now rewrite Hf.
Qed.

Lemma handleSave_ok st edited :
  applyEdits st = Some (Ok edited) ->
  handleSave st = Some (commit (JSON.stringify edited) st).
Proof. unfold handleSave. now intros ->. Qed.

Lemma handleSave_throw st e :
  applyEdits st = Some (Throw e) -> handleSave st = Some (warn e st).
Proof. unfold handleSave. now intros ->. Qed.



Lemma source_text_parsed st doc :
  JSON.parse (json st) = Ok doc -> source_text st = json st.
Proof.
  unfold source_text. destruct (json st); [discriminate|reflexivity].
Qed.

(** on a target that is an object the save completes, when [String]
    converts the value of every row that has a key *)
Lemma save_on_object st doc target ps :
  JSON.parse (source_text st) = Ok doc ->
  objToEdit doc (targetPath st) = Some target -> referent target = VObj ps ->
  forallb convertible (rows st) = true ->
  exists ps' b',
    forEach 0 (rows st) (originalRows st) (VObj ps, false) = Ok (VObj ps', b')
    /\ applyEdits st = Some (Ok (store_at (location target) (VObj ps') doc))
    /\ handleSave st
       = Some (commit (JSON.stringify (store_at (location target) (VObj ps') doc)) st).
Proof.
  intros Hp Ht Hr Hc.
  destruct (forEach_object (rows st) 0 (originalRows st) ps false Hc)
    as (ps' & b' & Hf).
  exists ps', b'. split; [exact Hf|].
  assert (Ha : applyEdits st = Some (Ok (store_at (location target) (VObj ps') doc))).
  { rewrite <- Hr in Hf. exact (applyEdits_looped st doc target _ Hp Ht Hf). }
  split; [exact Ha|]. now apply handleSave_ok.
Qed.


(** * The claims *)

(** C2. Whenever the save completes, the text it hands to the document
    store parses as JSON: it is the 2-space serialization of the in-memory
    value that came from parsing the document text, or the text of an empty
    object when the document text is empty. *)
Theorem save_writes_json st edited :
  applyEdits st = Some (Ok edited) ->
  exists parsed new_text reread,
    JSON.parse (if Str.is_empty (json st) then js "{}" else json st) = Ok parsed
    /\ JSON.stringify edited = Some new_text
    /\ handleSave st = Some (commit (Some new_text) st)
    /\ contents (commit (Some new_text) st) = Some new_text
    /\ JSON.parse new_text = Ok reread.
Proof.
  intros H. destruct (applyEdits_ok _ _ H) as (parsed & Hp & _).
  destruct (serialize_defined 0 edited (applyEdits_defined _ _ H)) as [t Ht].
  destruct (parse_stringify edited t Ht) as [v Hv].
  exists parsed, t, v. repeat split; try assumption.
  rewrite (handleSave_ok _ _ H). unfold JSON.stringify. now rewrite Ht.
Qed.

(** C1. The end-to-end scenario: on any text of the document
    [{"customer":{"name":"Alice","age":30}}], at path [["customer"]], with
    the rows [name = "Bob"] (string) and [age = "31"] (number), the save
    writes a text whose value is [{"customer":{"name":"Bob","age":31}}]:
    the string is kept, the number text becomes the number 31. *)
Theorem customer_scenario text :
  JSON.parse text = Ok Scenario.customer ->
  let st := pressed (Some (node_at Scenario.customer_path Scenario.customer_original))
                    text Scenario.customer_edited in
  applyEdits st = Some (Ok Scenario.customer_saved)
  /\ JSON.parse Scenario.customer_saved_text = Ok Scenario.customer_saved
  /\ exists st', handleSave st = Some st'
                 /\ contents st' = Some Scenario.customer_saved_text
                 /\ hasChanges st' = true
                 /\ editing st' = false.
Proof.
  intros Hp st.
  assert (Ha : applyEdits st = Some (Ok Scenario.customer_saved)).
  { unfold applyEdits. rewrite (source_text_parsed st _ Hp). cbn [json st pressed].
    rewrite Hp. vm_compute. reflexivity. }
  split; [exact Ha|]. split; [vm_compute; reflexivity|].
  eexists. split; [exact (handleSave_ok _ _ Ha)|].
  repeat split; vm_compute; reflexivity.
Qed.

Lemma customer_scenario_witness :
  JSON.parse Scenario.customer_text = Ok Scenario.customer
  /\ applyEdits
       (pressed (Some (node_at Scenario.customer_path Scenario.customer_original))
                Scenario.customer_text Scenario.customer_edited)
     = Some (Ok Scenario.customer_saved).
Proof.
  split; [vm_compute; reflexivity|].
  apply (customer_scenario Scenario.customer_text). vm_compute. reflexivity.
Defined.

Lemma save_writes_json_witness :
  applyEdits Scenario.rename = Some (Ok (Scenario.obj [("b"%string, Scenario.num 2)]))
  /\ exists parsed new_text reread,
       JSON.parse (if Str.is_empty (json Scenario.rename) then js "{}"
                   else json Scenario.rename) = Ok parsed
       /\ JSON.stringify (Scenario.obj [("b"%string, Scenario.num 2)]) = Some new_text
       /\ handleSave Scenario.rename = Some (commit (Some new_text) Scenario.rename)
       /\ contents (commit (Some new_text) Scenario.rename) = Some new_text
       /\ JSON.parse new_text = Ok reread.
Proof.
  split; [vm_compute; reflexivity|].
  apply (save_writes_json Scenario.rename). vm_compute. reflexivity.
Defined.




(** a failure after the parse leaves the stores untouched as well *)
Example write_on_a_number_throws :
  applyEdits Scenario.on_a_number = Some (Throw TypeError)
  /\ handleSave Scenario.on_a_number = Some (warn TypeError Scenario.on_a_number).
Proof. split; vm_compute; reflexivity. Qed.

(** a path that names an inherited method leaves the document *)
Example path_to_a_method :
  resolve (Scenario.obj [("a"%string, Scenario.num 1)]) [SegKey (js "valueOf")] = None
  /\ applyEdits Scenario.at_valueOf = None
  /\ handleSave Scenario.at_valueOf = None.
Proof. repeat split; vm_compute; reflexivity. Qed.

(** *** The other coercions, the path locator *)

Lemma boolean_coercion text :
  convertValueByType (Some (js "boolean")) text = VBool (Str.eqb text (js "true")).
Proof. reflexivity. Qed.

Lemma null_coercion text : convertValueByType (Some (js "null")) text = VNull.
Proof. reflexivity. Qed.

Example path_locator :
  jsonPathToString None = js "$"
  /\ jsonPathToString (Some []) = js "$"
  /\ jsonPathToString (Some [SegKey (js "customer"); SegIndex (Num.of_Z 0)])
     = jsq "$['customer'][0]".
Proof. repeat split; vm_compute; reflexivity. Qed.

(** *** Key rename *)




(** a row whose key is unchanged overwrites in place *)
Example same_key_overwrites :
  editRow (Some (row "a" (Scenario.num 1) "number"))
          (row "a" (Scenario.str "2") "number")
          (VObj [(js "a", Scenario.num 1); (js "c", VNull)], false)
  = Ok (VObj [(js "a", Scenario.num 2); (js "c", VNull)], false).
Proof. vm_compute. reflexivity. Qed.

(** *** Numeric coercion *)




(** the text written for the row whose number text is ["abc"] *)
Example not_a_number_saved :
  option_map contents (handleSave Scenario.not_a_number)
  = Some (Some (jsq "{
  'age': 'abc'
}")).
Proof. vm_compute. reflexivity. Qed.

(** *** Rows that stand for arrays and objects *)




(** *** The fall-back to the root *)

(** C9. The target also falls back to the root when the path resolves to
    the end and the value there is null, and when a value the path passes
    through is false, 0 or the empty string; the rows are then written to
    the document root. *)
Theorem null_and_falsy_fall_back_to_root :
  (forall doc p, Spec.index doc p = VNull -> objToEdit doc p = Some (root doc))
  /\ (forall doc p1 seg p2,
        Spec.falsy_scalar (Spec.index doc p1) ->
        objToEdit doc (p1 ++ seg :: p2) = Some (root doc))
  /\ (forall st doc,
        JSON.parse (source_text st) = Ok doc ->
        Spec.index doc (targetPath st) = VNull
        \/ (exists p1 seg p2, targetPath st = p1 ++ seg :: p2
              /\ Spec.falsy_scalar (Spec.index doc p1)) ->
        applyEdits st
        = Some (obj <- forEach 0 (rows st) (originalRows st) (doc, false) ;;
                Ok (fst obj)))
  /\ applyEdits Scenario.on_null
     = Some (Ok (Scenario.obj [("a"%string, VNull); ("x"%string, Scenario.num 1)]))
  /\ applyEdits Scenario.through_empty
     = Some (Ok (Scenario.obj [("s"%string, VStr []); ("x"%string, Scenario.num 1)])).
Proof.
  assert (Hnull : forall doc p,
             Spec.index doc p = VNull -> objToEdit doc p = Some (root doc)).
  { intros doc p H. destruct (reduce_nullish doc p H) as (v & Hr & Hn).
    exact (objToEdit_nullish doc p v Hr Hn). }
  assert (Hfalsy : forall doc p1 seg p2,
             Spec.falsy_scalar (Spec.index doc p1) ->
             objToEdit doc (p1 ++ seg :: p2) = Some (root doc)).
  { intros doc p1 seg p2 H.
    apply (objToEdit_nullish doc _ VUndefined); [|reflexivity].
    apply reduce_falsy; destruct H as [-> |[[s ->]| ->]];
      (reflexivity || discriminate). }
  split; [exact Hnull|]. split; [exact Hfalsy|].
  split; [|split; vm_compute; reflexivity].
  intros st doc Hp H.
  assert (E : objToEdit doc (targetPath st) = Some (root doc)).
  { destruct H as [H|(p1 & seg & p2 & -> & H)]; auto. }
  rewrite (applyEdits_at st doc (root doc) Hp E). reflexivity.
Qed.

Lemma null_and_falsy_fall_back_to_root_witness :
  objToEdit (Scenario.obj [("a"%string, VNull)]) [SegKey (js "a")]
  = Some (root (Scenario.obj [("a"%string, VNull)]))
  /\ objToEdit (Scenario.obj [("s"%string, VStr [])])
       ([SegKey (js "s")] ++ SegKey (js "length") :: [])
     = Some (root (Scenario.obj [("s"%string, VStr [])]))
  /\ applyEdits Scenario.on_null
     = Some (obj <- forEach 0 (rows Scenario.on_null) (originalRows Scenario.on_null)
                      (Scenario.obj [("a"%string, VNull)], false) ;;
             Ok (fst obj)).
Proof.
  destruct null_and_falsy_fall_back_to_root as (Hnull & Hfalsy & Hsave & _).
  split; [|split].
  - apply Hnull. reflexivity.
  - apply Hfalsy. right. right. reflexivity.
  - apply Hsave; [vm_compute; reflexivity|]. left. reflexivity.
Defined.

(** *** Path resolution against the specification *)




(** *** Saving without edits *)

(** C4, as stated, fails: rows that do not describe the target are added
    to it, and a row that stands for a nested object replaces the object by
    a string, although edited and original rows are the same. *)
Lemma save_without_edits_counterexample :
  (JSON.parse (json Scenario.unrelated)
   = Ok (Scenario.obj [("a"%string, Scenario.num 1)])
   /\ rows Scenario.unrelated = originalRows Scenario.unrelated
   /\ applyEdits Scenario.unrelated
      = Some (Ok (Scenario.obj [("a"%string, Scenario.num 1);
                                ("b"%string, Scenario.num 2)]))
   /\ Scenario.obj [("a"%string, Scenario.num 1); ("b"%string, Scenario.num 2)]
      <> Scenario.obj [("a"%string, Scenario.num 1)])
  /\ (JSON.parse (json Scenario.nested)
      = Ok (Scenario.obj [("customer"%string,
                           Scenario.obj [("name"%string, Scenario.str "Alice")])])
      /\ rows Scenario.nested = originalRows Scenario.nested
      /\ applyEdits Scenario.nested
         = Some (Ok (Scenario.obj [("customer"%string,
                                    Scenario.str "[object Object]")]))
      /\ Scenario.obj [("customer"%string, Scenario.str "[object Object]")]
         <> Scenario.obj [("customer"%string,
                           Scenario.obj [("name"%string, Scenario.str "Alice")])]).
Proof.
  split; (split; [vm_compute; reflexivity|]; split; [reflexivity|];
          split; [vm_compute; reflexivity|discriminate]).
Qed.

Lemma forEach_unedited ps b suf :
  forall pre,
  (forall r, In r suf -> no_key r = false ->
             exists x, coerced r = Ok x /\ assoc (Spec.key_of r) ps = Some x) ->
  forEach (List.length pre) suf (pre ++ suf) (VObj ps, b) = Ok (VObj ps, b).
Proof.
  induction suf as [|r suf IH]; intros pre H; [reflexivity|].
  cbn [forEach].
  assert (Hr : editRow (nth_error (pre ++ r :: suf) (List.length pre)) r (VObj ps, b)
               = Ok (VObj ps, b)).
  { rewrite nth_error_app2, Nat.sub_diag by lia. cbn [nth_error].
    destruct (no_key r) eqn:Hn; [now apply editRow_unkeyed|].
    destruct (H r (or_introl eq_refl) Hn) as (x & Hx & Ha).
    destruct (no_key_keyed r Hn) as (k & Hk & Hne).
    destruct (coerced_inv r x Hx) as (s & Hs & ->).
    unfold Spec.key_of in Ha. rewrite Hk in Ha.
    rewrite (editRow_object _ r k s ps b Hk Hne Hs).
    rewrite (pruned_kept (Some r) k ps)
      by (right; exists r; split; [reflexivity|now right]).
    rewrite (put_own ps b k _ _ Ha). now rewrite (obj_set_same _ _ _ Ha). }
  rewrite Hr. cbn [bind].
  replace (S (List.length pre)) with (List.length (pre ++ [r]))
    by (rewrite length_app; simpl; lia).
  replace (pre ++ r :: suf) with ((pre ++ [r]) ++ suf)
    by (now rewrite <- app_assoc).
  apply IH. intros r' Hin. apply H. now right.
Qed.

(** C4, amended. When the path's target is an object and every row with
    a key, coerced by its type, is what the target holds under that key,
    saving with the edited rows equal to the original rows leaves the
    document value as it was; the text written is its serialization. *)
Theorem save_without_edits st doc ps :
  JSON.parse (source_text st) = Ok doc ->
  rows st = originalRows st ->
  resolve doc (targetPath st) = Some (VObj ps) ->
  (forall r, In r (rows st) -> no_key r = false ->
             exists x, coerced r = Ok x /\ assoc (Spec.key_of r) ps = Some x) ->
  applyEdits st = Some (Ok doc)
  /\ handleSave st = Some (commit (JSON.stringify doc) st).
Proof.
  intros Hp Hrows Hr Hagree.
  assert (Ha : applyEdits st = Some (Ok doc)).
  { unfold resolve in Hr.
    destruct (objToEdit doc (targetPath st)) as [target|] eqn:Ht; [|discriminate].
    injection Hr as Hr.
    pose proof (forEach_unedited ps false (rows st) [] Hagree) as Hf.
    cbn [List.length app] in Hf. rewrite Hrows in Hf at 2. rewrite <- Hr in Hf.
    rewrite (applyEdits_looped st doc target _ Hp Ht Hf). cbn [fst].
    now rewrite (store_at_referent doc _ target Ht). }
  split; [exact Ha|]. now apply handleSave_ok.
Qed.

Lemma save_without_edits_witness :
  JSON.parse (source_text Scenario.untouched)
  = Ok (Scenario.obj [("name"%string, Scenario.str "Alice");
                      ("age"%string, Scenario.num 30);
                      ("vip"%string, VBool true);
                      ("note"%string, VNull);
                      ("tags"%string, VArr [Scenario.str "a"])])
  /\ applyEdits Scenario.untouched
     = Some (Ok (Scenario.obj [("name"%string, Scenario.str "Alice");
                               ("age"%string, Scenario.num 30);
                               ("vip"%string, VBool true);
                               ("note"%string, VNull);
                               ("tags"%string, VArr [Scenario.str "a"])])).
Proof.
  assert (Hp : JSON.parse (source_text Scenario.untouched)
               = Ok (Scenario.obj [("name"%string, Scenario.str "Alice");
                                   ("age"%string, Scenario.num 30);
                                   ("vip"%string, VBool true);
                                   ("note"%string, VNull);
                                   ("tags"%string, VArr [Scenario.str "a"])]))
    by (vm_compute; reflexivity).
  split; [exact Hp|].
  eapply (save_without_edits Scenario.untouched); [exact Hp|reflexivity|reflexivity|].
  intros r [<-|[<-|[<-|[<-|[]]]]] _; eexists; split; vm_compute; reflexivity.
Defined.

(** rows of the four leaf types agree with the value they were read from *)
Lemma coerced_leaf r :
  (type r = Some (js "string") /\ exists s, value r = VStr s)
  \/ (type r = Some (js "boolean") /\ exists b, value r = VBool b)
  \/ (type r = Some (js "null") /\ value r = VNull)
  \/ (type r = Some (js "number")
      /\ exists n, value r = VNum n /\ Num.isNaN n = false
                   /\ StringToNumber (Num.to_string n) = n) ->
  coerced r = Ok (value r).
Proof.
  unfold coerced.
  intros [[-> [s ->]]|[[-> [b ->]]|[[-> ->]|[-> (n & -> & Hn & Hs)]]]].
  - reflexivity.
  - now destruct b.
  - reflexivity.
  - cbn [ToString bind]. unfold convertValueByType.
    replace (tagged (Some (js "number")) "number") with true by reflexivity.
    now rewrite Hs, Hn.
Qed.

(** *** Row normalization *)







End NodeModalFacts.
(** * The rest of the component *)

Module RegexFacts.
Import Regex.

Lemma test_cons r c s : test r (c :: s) = test (deriv c r) s.
Proof. reflexivity. Qed.

Lemma test_Fail s : test Fail s = false.
Proof. induction s as [|c s IH]; [reflexivity|]. now rewrite test_cons. Qed.

Lemma test_Eps s : test Eps s = Str.is_empty s.
Proof. destruct s as [|c s]; [reflexivity|]. rewrite test_cons. apply test_Fail. Qed.

Lemma test_Alt s : forall a b, test (Alt a b) s = test a s || test b s.
Proof.
  induction s as [|c s IH]; intros a b; [reflexivity|].
  rewrite !test_cons. apply IH.
Qed.

Lemma test_Seq_Fail b s : test (Seq Fail b) s = false.
Proof. induction s as [|c s IH]; [reflexivity|]. now rewrite test_cons. Qed.

Lemma test_Seq_Eps b s : test (Seq Eps b) s = test b s.
Proof.
  destruct s as [|c s]; [reflexivity|].
  rewrite !test_cons. cbn [deriv nullable]. now rewrite test_Alt, test_Seq_Fail.
Qed.

(** a class, then the rest *)
Lemma test_Seq_Class p b s :
  test (Seq (Class p) b) s
  = match s with
    | [] => false
    | c :: s' => p c && test b s'
    end.
Proof.
  destruct s as [|c s]; [reflexivity|].
  rewrite test_cons. cbn [deriv nullable].
  destruct (p c); [apply test_Seq_Eps|apply test_Seq_Fail].
Qed.

(** [n] characters of a class *)
Lemma test_times p n :
  forall s, test (times n (Class p)) s = Nat.eqb (List.length s) n && forallb p s.
Proof.
  induction n as [|n IH]; intros s; cbn [times].
  - rewrite test_Eps. now destruct s.
  - rewrite test_Seq_Class. destruct s as [|c s]; [reflexivity|].
    rewrite IH. cbn [List.length Nat.eqb forallb].
    now destruct (p c), (Nat.eqb (List.length s) n).
Qed.

End RegexFacts.


Module DialogFacts.
Import StrFacts PropsFacts JSONText JSONFacts NodeModalFacts RegexFacts Dialog.

(** X3. [isHexColor] holds exactly of the strings made of [#] and then
    three or six hexadecimal digits, in either case; no other value, and no
    string with anything before or after, is a color. *)
Theorem isHexColor_spec v :
  isHexColor v = true
  <-> exists h, v = VStr (35%N :: h)
                /\ (List.length h = 3%nat \/ List.length h = 6%nat)
                /\ forallb hex_class h = true.
Proof.
  unfold isHexColor, hex_color. split.
  - destruct v as [ | |b|n|s|l|ps]; try discriminate.
    rewrite test_Seq_Class. destruct s as [|c h]; [discriminate|].
    rewrite test_Alt, !test_times. intros H.
    apply andb_true_iff in H as [Hc H]. apply N.eqb_eq in Hc. subst c.
    exists h. split; [reflexivity|].
    apply orb_true_iff in H as [H|H]; apply andb_true_iff in H as [Hl Hh];
      apply Nat.eqb_eq in Hl; auto.
  - intros (h & -> & Hl & Hh).
    rewrite test_Seq_Class, test_Alt, !test_times, Hh.
    destruct Hl as [-> | ->]; reflexivity.
Qed.

Lemma isHexColor_spec_witness :
  isHexColor (VStr (js "#1aF")) = true
  /\ exists h, VStr (js "#a0B1c2") = VStr (35%N :: h)
               /\ (List.length h = 3%nat \/ List.length h = 6%nat)
               /\ forallb hex_class h = true.
Proof.
  split.
  - apply (proj2 (isHexColor_spec (VStr (js "#1aF")))).
    exists (js "1aF"). repeat split; auto.
  - apply (proj1 (isHexColor_spec (VStr (js "#a0B1c2")))). reflexivity.
Defined.

(** *** The path locator *)

Lemma join_brackets segs :
  segs <> [] ->
  91%N :: JSON.join (js "][") (map segment_text segs) ++ [93%N]
  = List.concat (map bracket segs).
Proof.
  induction segs as [|x segs IH]; [congruence|]. intros _.
  destruct segs as [|y segs].
  - cbn [map JSON.join List.concat]. unfold bracket. now rewrite app_nil_r.
  - change (JSON.join (js "][") (map segment_text (x :: y :: segs)))
      with (segment_text x ++ [93%N; 91%N]
            ++ JSON.join (js "][") (map segment_text (y :: segs))).
    change (List.concat (map bracket (x :: y :: segs)))
      with (bracket x ++ List.concat (map bracket (y :: segs))).
    rewrite <- IH by discriminate.
    unfold bracket. cbn [app]. rewrite <- !app_assoc. reflexivity.
Qed.

(** X1. The path locator is [$] followed by every segment between
    brackets, in order: a number as its decimal text, a string between
    double quotes; an absent or empty path is [$] alone. *)
Theorem jsonPathToString_brackets p :
  jsonPathToString p
  = 36%N :: List.concat (map bracket (match p with Some segs => segs | None => [] end)).
Proof.
  destruct p as [[|x segs]|]; try reflexivity.
  unfold jsonPathToString. rewrite <- join_brackets by discriminate. reflexivity.
Qed.

Lemma locator_of_brackets segs :
  jsonPathToString (Some segs) = 36%N :: List.concat (map bracket segs).
Proof.
  destruct segs as [|x segs]; [reflexivity|].
  unfold jsonPathToString. rewrite <- join_brackets by discriminate. reflexivity.
Qed.

(** X2. The locator does not escape the keys: a key that contains
    ["]["] reads like two segments, so two different paths can have the same
    locator. *)
Theorem jsonPathToString_collides a b :
  [SegKey (a ++ jsq "']['" ++ b)] <> [SegKey a; SegKey b]
  /\ jsonPathToString (Some [SegKey (a ++ jsq "']['" ++ b)])
     = jsonPathToString (Some [SegKey a; SegKey b]).
Proof.
  split; [discriminate|].
  rewrite !locator_of_brackets. cbn [map List.concat]. unfold bracket, segment_text.
  cbn [app]. rewrite <- !app_assoc. reflexivity.
Qed.

(** *** What the events leave alone *)

Lemma handleSave_rows st st' :
  handleSave st = Some st' ->
  rows st' = rows st /\ selectedNode st' = selectedNode st.
Proof.
  unfold handleSave. destruct (applyEdits st) as [[edited|e]|]; try discriminate;
    intros [= <-]; now split.
Qed.

Lemma handleSave_originalRows st st' :
  handleSave st = Some st' -> originalRows st' = originalRows st.
Proof.
  intros H. unfold originalRows. now rewrite (proj2 (handleSave_rows _ _ H)).
Qed.

Lemma fold_step_none es : fold_left step es None = None.
Proof. induction es as [|ev es IH]; [reflexivity|exact IH]. Qed.

Lemma run_cons ev es st :
  run (ev :: es) st
  = match fire st ev with
    | Some st1 => run es st1
    | None => None
    end.
Proof.
  unfold run. cbn [fold_left step].
  destruct (fire st ev); [reflexivity|apply fold_step_none].
Qed.

Lemma fire_stores st ev :
  is_save ev = false -> exists st', fire st ev = Some st' /\ stores st' = stores st.
Proof.
  unfold fire. destruct (enabled st ev); [|eauto].
  destruct ev; try discriminate; intros _; eexists; split; reflexivity.
Qed.

Lemma run_stores es :
  forall st, forallb (fun ev => negb (is_save ev)) es = true ->
  exists st', run es st = Some st' /\ stores st' = stores st.
Proof.
  induction es as [|ev es IH]; intros st H; [now exists st|].
  cbn [forallb] in H. apply andb_true_iff in H as [Hev Hes].
  destruct (fire_stores st ev) as (st1 & Hf & Hs); [now destruct (is_save ev)|].
  destruct (IH st1 Hes) as (st' & Hr & Hs').
  exists st'. rewrite run_cons, Hf. split; [exact Hr|congruence].
Qed.

(** X4. Nothing but Save writes outside the dialog: after any sequence
    of openings, clicks on Edit and Cancel, and typing, the selected node,
    the document text, the file contents, the change flag and the log are
    what they were. *)
Theorem only_save_writes es st :
  forallb (fun ev => negb (is_save ev)) es = true ->
  exists st',
    run es st = Some st'
    /\ selectedNode st' = selectedNode st
    /\ json st' = json st
    /\ contents st' = contents st
    /\ hasChanges st' = hasChanges st
    /\ warnings st' = warnings st.
Proof.
  intros H. destruct (run_stores es st H) as (st' & Hr & E). unfold stores in E.
  exists st'. injection E as -> -> -> -> ->. now repeat split.
Qed.

Lemma only_save_writes_witness :
  exists st',
    run [ClickEdit; TypeKey 0 (js "last"); TypeValue 0 (js "Carol"); ClickCancel]
        (useEffect Scenario.rename) = Some st'
    /\ contents st' = contents (useEffect Scenario.rename).
Proof.
  destruct (only_save_writes
              [ClickEdit; TypeKey 0 (js "last"); TypeValue 0 (js "Carol"); ClickCancel]
              (useEffect Scenario.rename)) as (st' & Hr & _ & _ & Hc & _);
    [reflexivity|].
  now exists st'.
Defined.

(** X6. Cancel discards the edits: after any sequence of events without a
    save, Cancel leads to the state Cancel would have led to at once, the
    rows being those of the node again and editing left. *)
Theorem cancel_discards_edits es st :
  forallb (fun ev => negb (is_save ev)) es = true ->
  exists st',
    run es st = Some st'
    /\ handleCancel st' = handleCancel st
    /\ rows (handleCancel st') = originalRows st
    /\ editing (handleCancel st') = false.
Proof.
  intros H. destruct (run_stores es st H) as (st' & Hr & E). unfold stores in E.
  injection E as E1 E2 E3 E4 E5.
  assert (Eq : handleCancel st' = handleCancel st).
  { unfold handleCancel, setEditing, setRows, originalRows. cbn.
    now rewrite E1, E2, E3, E4, E5. }
  exists st'. split; [exact Hr|]. split; [exact Eq|]. rewrite Eq. split; reflexivity.
Qed.

Lemma cancel_discards_edits_witness :
  exists st',
    run [ClickEdit; TypeKey 0 (js "last"); TypeValue 0 (js "Carol")]
        (useEffect Scenario.rename) = Some st'
    /\ rows (handleCancel st') = originalRows (useEffect Scenario.rename).
Proof.
  destruct (cancel_discards_edits
              [ClickEdit; TypeKey 0 (js "last"); TypeValue 0 (js "Carol")]
              (useEffect Scenario.rename)) as (st' & Hr & _ & Hrows & _);
    [reflexivity|].
  now exists st'.
Defined.

(** *** Rows and node stay aligned *)

Lemma is_container_type r :
  is_container r = true ->
  type r = Some (js "array") \/ type r = Some (js "object").
Proof.
  unfold is_container, type_is, tagged. destruct (type r) as [t|]; [|discriminate].
  intros H. apply orb_true_iff in H as [H|H].
  - left. destruct (eqb_spec t (js "array")) as [E|]; [now rewrite E|discriminate].
  - right. destruct (eqb_spec t (js "object")) as [E|]; [now rewrite E|discriminate].
Qed.

Lemma edited_from_refl o : edited_from o o.
Proof. now split. Qed.

Lemma Forall2_refl_edited os : Forall2 edited_from os os.
Proof. induction os; constructor; [apply edited_from_refl|assumption]. Qed.

Lemma update_row_aligned f rs os :
  Forall2 edited_from rs os ->
  forall idx,
  (forall r o, nth_error rs idx = Some r -> edited_from r o -> edited_from (f r) o) ->
  Forall2 edited_from (update_row idx f rs) os.
Proof.
  induction 1 as [|r o rs os Hro Hrest IH]; intros idx Hf.
  - destruct idx; constructor.
  - destruct idx as [|idx]; cbn [update_row].
    + constructor; [now apply Hf|assumption].
    + constructor; [assumption|]. apply IH. intros r' o' Hn. now apply Hf.
Qed.

Lemma fire_aligned st ev st' : aligned st -> fire st ev = Some st' -> aligned st'.
Proof.
  unfold fire. destruct (enabled st ev) eqn:He; [|now intros Ha [= <-]].
  intros Ha. destruct ev as [ | | | |idx text|idx text]; cbn [handle].
  - intros [= <-]. apply Forall2_refl_edited.
  - intros [= <-]. exact Ha.
  - intros Hs. unfold aligned.
    now rewrite (proj1 (handleSave_rows _ _ Hs)), (handleSave_originalRows _ _ Hs).
  - intros [= <-]. apply Forall2_refl_edited.
  - intros [= <-]. apply (update_row_aligned _ _ _ Ha). intros r o _ [Ht Hv].
    now split.
  - intros [= <-]. apply (update_row_aligned _ _ _ Ha). intros r o Hn [Ht Hv].
    split; [exact Ht|].
    cbn [enabled] in He. unfold value_shown in He. rewrite Hn in He.
    unfold is_container, type_is. cbn [type].
    fold (type_is r "array"). fold (type_is r "object").
    destruct (type_is r "array"), (type_is r "object");
      rewrite ?andb_false_r in He; try discriminate.
    all: cbn; discriminate.
Qed.

Lemma run_aligned es :
  forall st st', aligned st -> run es st = Some st' -> aligned st'.
Proof.
  induction es as [|ev es IH]; intros st st' H; [now intros [= <-]|].
  rewrite run_cons. destruct (fire st ev) as [st1|] eqn:Hf; [|discriminate].
  apply IH. exact (fire_aligned _ _ _ H Hf).
Qed.

Lemma opened_aligned st : aligned (useEffect st).
Proof. apply Forall2_refl_edited. Qed.

Lemma Forall2_types rs os :
  Forall2 edited_from rs os -> map type rs = map type os.
Proof. induction 1 as [|r o rs os [Ht _] _ IH]; [reflexivity|]. cbn. now f_equal. Qed.

Lemma Forall2_nth rs os :
  Forall2 edited_from rs os ->
  forall idx r, nth_error rs idx = Some r ->
  exists o, nth_error os idx = Some o /\ edited_from r o.
Proof.
  induction 1 as [|r0 o0 rs os Hro _ IH]; intros [|idx] r; try discriminate.
  - intros [= <-]. now exists o0.
  - apply IH.
Qed.

(** X5. From the opening of the dialog on, whatever is clicked and typed,
    the edited rows stay index-aligned with the rows of the node: as many
    rows, with the same type tags in the same order. This holds of every
    state the dialog reaches; it reaches none once a save has written a row
    to a built-in object. *)
Theorem rows_stay_aligned es st st' :
  run es (useEffect st) = Some st' ->
  map type (rows st') = map type (originalRows st')
  /\ List.length (rows st') = List.length (originalRows st').
Proof.
  intros Hr. pose proof (run_aligned es _ _ (opened_aligned st) Hr) as H.
  pose proof (Forall2_types _ _ H) as E. split; [exact E|].
  apply (f_equal (@List.length _)) in E. now rewrite !length_map in E.
Qed.

Lemma rows_stay_aligned_witness :
  exists st',
    run [ClickEdit; TypeKey 0 (js "b"); TypeValue 0 (js "2"); ClickSave; ClickEdit]
        (useEffect Scenario.rename) = Some st'
    /\ map type (rows st') = map type (originalRows st').
Proof.
  eexists. split; [vm_compute; reflexivity|].
  apply (rows_stay_aligned
           [ClickEdit; TypeKey 0 (js "b"); TypeValue 0 (js "2"); ClickSave; ClickEdit]
           Scenario.rename).
  vm_compute. reflexivity.
Defined.

(** X8. No control changes the value of a row that stands for an array or
    an object: after any events such a row still holds the value of the
    node's row at its index, and that value, as [String] converts it, is
    what a save writes for it. *)
Theorem container_rows_keep_their_value es st st' idx r :
  run es (useEffect st) = Some st' ->
  nth_error (rows st') idx = Some r ->
  is_container r = true ->
  exists o, nth_error (originalRows st') idx = Some o
            /\ value r = value o
            /\ coerced r = (s <- ToString (value o) ;; Ok (VStr s)).
Proof.
  intros Hr Hn Hc.
  destruct (Forall2_nth _ _ (run_aligned es _ _ (opened_aligned st) Hr) idx r Hn)
    as (o & Ho & Ht & Hv).
  exists o. split; [exact Ho|]. rewrite <- (Hv Hc). split; [reflexivity|].
  unfold coerced. destruct (ToString (value r)) as [s|e]; [|reflexivity].
  cbn [bind]. destruct (is_container_type r Hc) as [-> | ->]; reflexivity.
Qed.

Lemma container_rows_keep_their_value_witness :
  exists st' o,
    run [ClickEdit; TypeValue 0 (js "x"); TypeKey 0 (js "client")]
        (useEffect Scenario.nested) = Some st'
    /\ nth_error (originalRows st') 0 = Some o
    /\ Scenario.obj [("name"%string, Scenario.str "Alice")] = value o.
Proof.
  eexists.
  assert (Hr : run [ClickEdit; TypeValue 0 (js "x"); TypeKey 0 (js "client")]
                   (useEffect Scenario.nested) = Some _)
    by (vm_compute; reflexivity).
  destruct (container_rows_keep_their_value
              [ClickEdit; TypeValue 0 (js "x"); TypeKey 0 (js "client")]
              Scenario.nested _ 0
              {| key := Some (js "client");
                 value := Scenario.obj [("name"%string, Scenario.str "Alice")];
                 type := Some (js "object") |} Hr)
    as (o & Ho & Hv & _); [reflexivity|reflexivity|].
  exists o. split; [exact Hr|]. now split.
Defined.

(** *** A key that was cleared *)

Lemma nth_error_update_row f rs :
  forall idx idx',
  nth_error (update_row idx f rs) idx'
  = if Nat.eqb idx idx' then option_map f (nth_error rs idx')
    else nth_error rs idx'.
Proof.
  induction rs as [|r rs IH]; intros [|idx] [|idx']; try reflexivity.
  - cbn [update_row nth_error]. now destruct (Nat.eqb (S idx) (S idx')).
  - cbn [update_row nth_error Nat.eqb]. apply IH.
Qed.

Lemma fire_keyless st ev st' idx r :
  nth_error (rows st) idx = Some r -> no_key r = true -> keeps_rows ev = true ->
  fire st ev = Some st' ->
  nth_error (rows st') idx = Some r.
Proof.
  intros Hn Hk Hev. unfold fire.
  destruct (enabled st ev) eqn:He; [|now intros [= <-]].
  destruct ev as [ | | | |i text|i text]; try discriminate; cbn [handle].
  - now intros [= <-].
  - intros Hs. now rewrite (proj1 (handleSave_rows _ _ Hs)).
  - intros [= <-]. cbn [onKeyChange setRows rows]. rewrite nth_error_update_row.
    destruct (Nat.eqb_spec i idx) as [->|]; [|exact Hn].
    cbn [enabled] in He. unfold key_shown in He. rewrite Hn, Hk in He.
    now rewrite andb_false_r in He.
  - intros [= <-]. cbn [onValueChange setRows rows]. rewrite nth_error_update_row.
    destruct (Nat.eqb_spec i idx) as [->|]; [|exact Hn].
    cbn [enabled] in He. unfold value_shown in He. rewrite Hn, Hk in He.
    now rewrite andb_false_r in He.
Qed.

Lemma run_keyless es :
  forall st st' idx r,
  nth_error (rows st) idx = Some r -> no_key r = true ->
  forallb keeps_rows es = true ->
  run es st = Some st' ->
  nth_error (rows st') idx = Some r.
Proof.
  induction es as [|ev es IH]; intros st st' idx r Hn Hk H; [now intros [= <-]|].
  cbn [forallb] in H. apply andb_true_iff in H as [Hev Hes].
  rewrite run_cons. destruct (fire st ev) as [st1|] eqn:Hf; [|discriminate].
  apply IH; try assumption. exact (fire_keyless _ _ _ _ _ Hn Hk Hev Hf).
Qed.

(** X7. A key that is cleared is out of reach: once the Key input of a
    row is emptied, the row's inputs are no longer rendered, so until
    Cancel or a reopening the row stays as it is whatever is typed, and
    Save passes over it, leaving the target as the other rows make it. *)
Theorem cleared_key_is_out_of_reach st idx r es st' :
  key_shown st idx = true ->
  nth_error (rows st) idx = Some r ->
  forallb keeps_rows es = true ->
  run (TypeKey idx [] :: es) st = Some st' ->
  let cleared := {| key := Some []; value := value r; type := type r |} in
  nth_error (rows st') idx = Some cleared
  /\ key_shown st' idx = false
  /\ value_shown st' idx = false
  /\ forall o obj, editRow o cleared obj = Ok obj.
Proof.
  intros Hs Hn Hes Hr cleared.
  assert (H1 : fire st (TypeKey idx [])
               = Some (onKeyChange idx [] st)).
  { unfold fire. cbn [enabled]. now rewrite Hs. }
  assert (H2 : nth_error (rows st') idx = Some cleared).
  { rewrite run_cons, H1 in Hr.
    apply (run_keyless es _ _ idx cleared) in Hr; [exact Hr| |reflexivity|exact Hes].
    cbn [onKeyChange setRows rows].
    now rewrite nth_error_update_row, Nat.eqb_refl, Hn. }
  split; [exact H2|]. unfold key_shown, value_shown. rewrite H2.
  cbn [no_key key cleared Str.is_empty negb andb].
  rewrite !andb_false_r. now repeat split.
Qed.

Lemma cleared_key_is_out_of_reach_witness :
  exists st',
    run [TypeKey 0 []; TypeKey 0 (js "again"); TypeValue 0 (js "9"); ClickSave]
        (handleEdit (useEffect Scenario.rename)) = Some st'
    /\ nth_error (rows st') 0
       = Some {| key := Some []; value := Scenario.num 1; type := Some (js "number") |}.
Proof.
  eexists. split; [vm_compute; reflexivity|].
  apply (cleared_key_is_out_of_reach (handleEdit (useEffect Scenario.rename)) 0
           (row "a" (Scenario.num 1) "number")
           [TypeKey 0 (js "again"); TypeValue 0 (js "9"); ClickSave]);
    vm_compute; reflexivity.
Defined.

End DialogFacts.

Module SaveFacts.
Import StrFacts PropsFacts JSONText JSONFacts NumberFacts NodeModalFacts Dialog DialogFacts.

(** *** Coercion *)

(** X9. A leaf row as it is loaded coerces back to its own value: the
    text of a string is the string, the text of a boolean gives the boolean,
    a null row gives null, and a number whose text reads back as itself
    gives the number. Saving an untouched leaf row writes the value it
    shows. *)
Theorem leaf_rows_coerce_back r : leaf_row r -> coerced r = Ok (value r).
Proof.
  unfold leaf_row, coerced.
  destruct (value r) as [ | |b|n|s|l|ps]; try contradiction.
  - now intros ->.
  - intros ->. now destruct b.
  - intros (-> & Hn & Hs). cbn [ToString bind]. unfold convertValueByType.
    replace (tagged (Some (js "number")) "number") with true by reflexivity.
    now rewrite Hs, Hn.
  - now intros ->.
Qed.

Lemma leaf_rows_coerce_back_witness :
  coerced (row "age" (Scenario.num 30) "number") = Ok (Scenario.num 30)
  /\ coerced (row "ratio" (VNum (Num.of_decimal false 15 (-1))) "number")
     = Ok (VNum (Num.of_decimal false 15 (-1)))
  /\ coerced (row "vip" (VBool false) "boolean") = Ok (VBool false).
Proof.
  split; [|split].
  - apply (leaf_rows_coerce_back (row "age" (Scenario.num 30) "number")).
    vm_compute. repeat split; reflexivity.
  - apply (leaf_rows_coerce_back
             (row "ratio" (VNum (Num.of_decimal false 15 (-1))) "number")).
    vm_compute. repeat split; reflexivity.
  - apply (leaf_rows_coerce_back (row "vip" (VBool false) "boolean")).
    reflexivity.
Defined.

(** X10. The number coercion ignores blanks around the text, and a text
    of blanks only, the empty text among them, is the number 0: a number
    field that is cleared saves 0. *)
Theorem number_text_ignores_blanks w1 t w2 :
  forallb is_str_whitespace w1 = true -> forallb is_str_whitespace w2 = true ->
  StringToNumber (w1 ++ t ++ w2) = StringToNumber t
  /\ convertValueByType (Some (js "number")) w1 = VNum (S754_zero false)
  /\ (Num.isNaN (StringToNumber t) = false ->
      convertValueByType (Some (js "number")) (w1 ++ t ++ w2)
      = convertValueByType (Some (js "number")) t).
Proof.
  intros H1 H2.
  assert (E : StringToNumber (w1 ++ t ++ w2) = StringToNumber t)
    by (unfold StringToNumber; now rewrite trim_padded).
  split; [exact E|]. split.
  - unfold convertValueByType.
    replace (tagged (Some (js "number")) "number") with true by reflexivity.
    assert (Ew : StringToNumber w1 = S754_zero false).
    { unfold StringToNumber, trim. now rewrite (trim_left_all_blank _ H1). }
    now rewrite Ew.
  - intros Hn. unfold convertValueByType.
    replace (tagged (Some (js "number")) "number") with true by reflexivity.
    now rewrite E, Hn.
Qed.

Lemma number_text_ignores_blanks_witness :
  StringToNumber (js "  " ++ js "31" ++ js " ") = StringToNumber (js "31")
  /\ convertValueByType (Some (js "number")) (js "  ") = VNum (S754_zero false).
Proof.
  destruct (number_text_ignores_blanks (js "  ") (js "31") (js " ")) as (H1 & H2 & _);
    try reflexivity.
  now split.
Defined.

(** X20. Number rows read numbers as the document does: a text that is
    a JSON number, read to its end by the parser of the document, is
    converted by [Number] to the same value, and a number row with that
    text saves that number. *)
Theorem number_rows_read_json_numbers text n :
  JSON.parse_number text = Some (n, []) ->
  StringToNumber text = n
  /\ (Num.isNaN n = false ->
      convertValueByType (Some (js "number")) text = VNum n).
Proof.
  intros H. pose proof (json_number_read text n H) as E.
  split; [exact E|]. intros Hn. unfold convertValueByType.
  replace (tagged (Some (js "number")) "number") with true by reflexivity.
  now rewrite E, Hn.
Qed.

Lemma number_rows_read_json_numbers_witness :
  StringToNumber (js "-12.5e3") = Num.of_decimal true 125 2
  /\ convertValueByType (Some (js "number")) (js "-12.5e3")
     = VNum (Num.of_decimal true 125 2).
Proof.
  destruct (number_rows_read_json_numbers (js "-12.5e3") (Num.of_decimal true 125 2))
    as [H1 H2]; [vm_compute; reflexivity|].
  split; [exact H1|]. apply H2. vm_compute. reflexivity.
Defined.

(** *** Saves that change nothing, saves that fail *)



Lemma ToString_array x l :
  ToString (VArr (x :: l))
  = match l with
    | [] => match x with VUndefined | VNull => Ok [] | _ => ToString x end
    | _ => s <- match x with VUndefined | VNull => Ok [] | _ => ToString x end ;;
           t <- ToString (VArr l) ;; Ok (s ++ 44%N :: t)
    end.
Proof. destruct l; reflexivity. Qed.

(** [String] throws nothing but a TypeError *)
Lemma ToString_throws v : forall e, ToString v = Throw e -> e = TypeError.
Proof.
  induction v as [ | |b|n|s|l IH|ps IH] using value_ind_nested; intros e;
    try discriminate.
  - destruct b; discriminate.
  - induction IH as [|x l Hx Hl IHl]; [discriminate|].
    rewrite ToString_array.
    assert (Hitem : forall e', match x with
                               | VUndefined | VNull => Ok []
                               | _ => ToString x
                               end = Throw e' -> e' = TypeError).
    { intros e'. destruct x; try discriminate; apply Hx. }
    destruct l as [|y l]; [apply Hitem|].
    destruct (match x with VUndefined | VNull => Ok [] | _ => ToString x end)
      as [s|e'] eqn:Ex.
    + cbn [bind]. destruct (ToString (VArr (y :: l))) as [t|e''] eqn:Et.
      * discriminate.
      * cbn [bind]. intros [= <-]. now apply IHl.
    + cbn [bind]. intros [= <-]. now apply Hitem.
  - cbn [ToString]. destruct (assoc (js "toString") ps); [|discriminate].
    now intros [= <-].
Qed.

(** a row on a number, a string, a boolean or null: passed over, ignored
    when it is named [__proto__], or a TypeError *)
Lemma editRow_scalar o r v b :
  is_scalar v = true ->
  (editRow o r (v, b) = Ok (v, b) \/ editRow o r (v, b) = Throw TypeError)
  /\ (assigns r = true -> editRow o r (v, b) = Throw TypeError).
Proof.
  intros Hv. unfold assigns. destruct (no_key r) eqn:Hn.
  { rewrite (editRow_unkeyed _ _ _ Hn). split; [now left|discriminate]. }
  destruct (no_key_keyed r Hn) as (k & Hk & Hne).
  unfold editRow, keyed. rewrite Hn, Hk.
  destruct (ToString (value r)) as [s|e] eqn:Hs.
  2:{ rewrite (ToString_throws _ _ Hs). cbn [bind]. split; [now right|reflexivity]. }
  cbn [bind fst snd].
  assert (Hdel : forall ok,
             (v' <- del v ok ;; Ok (v', b)) = Ok (v, b)
             \/ (v' <- del v ok ;; Ok (v', b)) = Throw TypeError).
  { intros ok. destruct v as [ | |c|n|t|l|ps]; try discriminate; cbn [del bind];
      auto.
    destruct (Str.eqb ok length_key); auto.
    destruct (array_index ok); auto. destruct (_ <? _); auto. }
  assert (Hput : (put (v, b) k (convertValueByType (type r) s) = Ok (v, b)
                  /\ Str.eqb k proto_key = true)
                 \/ (put (v, b) k (convertValueByType (type r) s) = Throw TypeError
                     /\ (v = VNull \/ Str.eqb k proto_key = false))).
  { unfold put. cbn [fst snd].
    destruct v as [ | |c|n|t|l|ps]; try discriminate;
      try (destruct (Str.eqb k proto_key); [now left|right; auto]).
    right. auto. }
  destruct (staleKey o k) as [ok|].
  - destruct (Hdel ok) as [-> | ->]; cbn [bind].
    + destruct Hput as [[-> Hp]|[-> Hp]]; (split; [auto|]).
      * rewrite Hp. discriminate.
      * reflexivity.
    + split; [now right|reflexivity].
  - cbn [bind]. destruct Hput as [[-> Hp]|[-> Hp]]; (split; [auto|]).
    + rewrite Hp. discriminate.
    + reflexivity.
Qed.

Lemma forEach_scalar rs :
  forall idx original v b,
  is_scalar v = true ->
  (forEach idx rs original (v, b) = Ok (v, b)
   \/ forEach idx rs original (v, b) = Throw TypeError)
  /\ (existsb assigns rs = true -> forEach idx rs original (v, b) = Throw TypeError).
Proof.
  induction rs as [|r rs IH]; intros idx original v b Hv.
  - split; [now left|discriminate].
  - cbn [forEach existsb].
    destruct (editRow_scalar (nth_error original idx) r v b Hv) as [[-> | ->] Ha];
      cbn [bind].
    + destruct (IH (S idx) original v b Hv) as [Hc Ht]. split; [exact Hc|].
      intros H. apply orb_true_iff in H as [H|H]; [now specialize (Ha H)|auto].
    + split; [now right|reflexivity].
Qed.

(** X14. When the target is a number, a string, a boolean or null, a save
    with a row that has a key other than [__proto__] throws a TypeError: the
    error is logged, nothing is written and editing goes on. *)
Theorem keyed_row_on_a_scalar_throws st doc target :
  JSON.parse (source_text st) = Ok doc ->
  objToEdit doc (targetPath st) = Some target ->
  is_scalar (referent target) = true ->
  existsb assigns (rows st) = true ->
  applyEdits st = Some (Throw TypeError)
  /\ handleSave st = Some (warn TypeError st).
Proof.
  intros Hp Ht Hs Hk.
  assert (Ha : applyEdits st = Some (Throw TypeError)).
  { rewrite (applyEdits_at st doc target Hp Ht). unfold writeRows.
    now rewrite (proj2 (forEach_scalar (rows st) 0 (originalRows st)
                          (referent target) false Hs) Hk). }
  split; [exact Ha|]. now apply handleSave_throw.
Qed.

Lemma keyed_row_on_a_scalar_throws_witness :
  handleSave Scenario.on_a_number = Some (warn TypeError Scenario.on_a_number).
Proof.
  apply (keyed_row_on_a_scalar_throws Scenario.on_a_number
           (Scenario.obj [("a"%string, Scenario.num 5)])
           {| location := [js "a"]; referent := Scenario.num 5 |});
    vm_compute; reflexivity.
Defined.

(** *** Renames *)

(** X12. A renamed field moves to the end of its object: when the new
    key is not an array index, is not [__proto__] and is not yet a key of
    the target, the row is written after the fields that remain. *)
Theorem rename_moves_to_the_end o r old_key new_key ps b x :
  key o = Some old_key -> old_key <> [] ->
  key r = Some new_key -> new_key <> [] -> new_key <> proto_key ->
  old_key <> new_key ->
  coerced r = Ok x ->
  assoc new_key ps = None -> array_index new_key = None ->
  editRow (Some o) r (VObj ps, b)
  = Ok (VObj (obj_delete ps old_key ++ [(new_key, x)]), b).
Proof.
  intros Ho Hok Hr Hk Hp Hne Hx Ha Hi.
  destruct (coerced_inv r x Hx) as (s & Hs & ->).
  rewrite (editRow_writes (Some o) r new_key s ps b Hr Hk Hp Hs).
  rewrite (pruned_renamed o new_key old_key ps Ho Hok Hne).
  unfold obj_set. rewrite assoc_obj_delete, Ha, Hi.
  now destruct (Str.eqb old_key new_key).
Qed.

Lemma rename_moves_to_the_end_witness :
  editRow (Some (row "a" (Scenario.num 1) "number"))
          (row "z" (Scenario.num 1) "number")
          (VObj [(js "a", Scenario.num 1); (js "b", VNull)], false)
  = Ok (VObj (obj_delete [(js "a", Scenario.num 1); (js "b", VNull)] (js "a")
              ++ [(js "z", Scenario.num 1)]), false).
Proof.
  apply (rename_moves_to_the_end (row "a" (Scenario.num 1) "number")
           (row "z" (Scenario.num 1) "number") (js "a") (js "z"));
    decide_closed.
Defined.

(** X13. Exchanging the keys of two rows loses a field: the rows are
    written one after the other, so the second rename deletes the key the
    first one has just written; the target ends without the first row's
    new key. The key that is kept is not [__proto__], and [String] converts
    the values of both rows. *)
Theorem swapped_keys_lose_a_field o0 o1 r0 r1 a b ps d x0 x1 :
  key o0 = Some a -> key o1 = Some b ->
  key r0 = Some b -> key r1 = Some a ->
  a <> [] -> b <> [] -> a <> b -> a <> proto_key ->
  coerced r0 = Ok x0 -> coerced r1 = Ok x1 ->
  exists ps' d',
    forEach 0 [r0; r1] [o0; o1] (VObj ps, d) = Ok (VObj ps', d')
    /\ assoc b ps' = None
    /\ assoc a ps' = Some x1.
Proof.
  intros Ho0 Ho1 Hr0 Hr1 Ha Hb Hab Hp Hx0 Hx1.
  destruct (coerced_inv r0 x0 Hx0) as (s0 & Hs0 & ->).
  destruct (coerced_inv r1 x1 Hx1) as (s1 & Hs1 & ->).
  cbn [forEach nth_error].
  rewrite (editRow_object (Some o0) r0 b s0 ps d Hr0 Hb Hs0).
  destruct (put_object (pruned (Some o0) b ps) d b (convertValueByType (type r0) s0))
    as (ps1 & d1 & -> & _). cbn [bind].
  rewrite (editRow_writes (Some o1) r1 a s1 ps1 d1 Hr1 Ha Hp Hs1). cbn [bind].
  rewrite (pruned_renamed o1 a b ps1 Ho1 Hb) by congruence.
  eexists. eexists. split; [reflexivity|].
  rewrite !assoc_obj_set, !assoc_obj_delete, !eqb_refl.
  now rewrite (eqb_neq a b Hab).
Qed.

Lemma swapped_keys_lose_a_field_witness :
  exists ps' d',
    forEach 0 [row "b" (Scenario.num 1) "number"; row "a" (Scenario.num 2) "number"]
              [row "a" (Scenario.num 1) "number"; row "b" (Scenario.num 2) "number"]
              (VObj [(js "a", Scenario.num 1); (js "b", Scenario.num 2)], false)
    = Ok (VObj ps', d')
    /\ assoc (js "b") ps' = None
    /\ assoc (js "a") ps' = Some (Scenario.num 2).
Proof.
  apply (swapped_keys_lose_a_field
           (row "a" (Scenario.num 1) "number") (row "b" (Scenario.num 2) "number")
           (row "b" (Scenario.num 1) "number") (row "a" (Scenario.num 2) "number")
           (js "a") (js "b") _ false (Scenario.num 1) (Scenario.num 2));
    decide_closed.
Defined.

(** *** What a save leaves alone *)

Lemma get_same_own ps qs k :
  assoc k ps = assoc k qs -> get (VObj ps) k = get (VObj qs) k.
Proof. unfold get. cbn [own inherited]. now intros ->. Qed.

(** X11. A save touches only what the rows name. When the target is an
    object and [String] converts the value of every row that has a key,
    the save completes, and a field of the target that is the key of no
    edited row and of no original row keeps its value; in a document that
    is an object, every top-level field other than the one the path enters
    is kept as well. *)
Theorem save_keeps_other_fields st doc target ps :
  JSON.parse (source_text st) = Ok doc ->
  objToEdit doc (targetPath st) = Some target ->
  referent target = VObj ps ->
  forallb convertible (rows st) = true ->
  exists ps',
    applyEdits st = Some (Ok (store_at (location target) (VObj ps') doc))
    /\ handleSave st
       = Some (commit (JSON.stringify (store_at (location target) (VObj ps') doc)) st)
    /\ (forall k,
          (forall r, In r (rows st) -> key r <> Some k) ->
          (forall o, In o (originalRows st) -> key o <> Some k) ->
          assoc k ps' = assoc k ps)
    /\ (forall k0 rest k,
          location target = k0 :: rest ->
          (exists dps, doc = VObj dps) -> k <> k0 ->
          get (store_at (location target) (VObj ps') doc) k = get doc k).
Proof.
  intros Hp Ht Hr Hc.
  destruct (save_on_object st doc target ps Hp Ht Hr Hc) as (ps' & b' & Hf & Ha & Hs).
  exists ps'. split; [exact Ha|]. split; [exact Hs|]. split.
  - intros k Hrows Horig.
    apply (forEach_frame k _ _ _ _ _ _ _ Hf Hrows).
    intros i o _ Hn. apply Horig. exact (nth_error_In _ _ Hn).
  - intros k0 rest k -> [dps ->] Hk. cbn [store_at].
    destruct (assoc k0 dps) as [child|] eqn:Hch; [|reflexivity].
    apply get_same_own. rewrite assoc_replace_prop, Hch.
    now rewrite (eqb_neq k0 k) by congruence.
Qed.

Lemma save_keeps_other_fields_witness :
  exists ps',
    applyEdits account
    = Some (Ok (store_at [js "customer"] (VObj ps') account_doc))
    /\ assoc (js "vip") ps' = Some (VBool true).
Proof.
  destruct (save_keeps_other_fields account account_doc
              {| location := [js "customer"]; referent := VObj account_target |}
              account_target)
    as (ps' & H & _ & Hf & _); try (vm_compute; reflexivity).
  exists ps'. split; [exact H|].
  rewrite (Hf (js "vip")); [reflexivity| |];
    intros r [<-|[<-|[]]]; discriminate.
Defined.

Lemma map_fst_replace_prop k x ps :
  map fst (replace_prop k x ps) = map fst ps.
Proof.
  induction ps as [|[k0 y] ps IH]; [reflexivity|]. cbn [replace_prop].
  destruct (Str.eqb k0 k); cbn [map fst]; [reflexivity|now rewrite IH].
Qed.

Lemma forEach_keys rs :
  forall idx original ps b,
  forallb convertible rs = true ->
  (forall i r, nth_error rs i = Some r ->
               exists o, nth_error original (idx + i) = Some o /\ key o = key r) ->
  (forall r k, In r rs -> key r = Some k -> k <> [] -> assoc k ps <> None) ->
  exists ps', forEach idx rs original (VObj ps, b) = Ok (VObj ps', b)
              /\ map fst ps' = map fst ps.
Proof.
  induction rs as [|r rs IH]; intros idx original ps b Hc Hi Hb; [now exists ps|].
  cbn [forallb] in Hc. apply andb_true_iff in Hc as [Hcr Hcrs].
  cbn [forEach].
  assert (He : exists ps1,
             editRow (nth_error original idx) r (VObj ps, b) = Ok (VObj ps1, b)
             /\ map fst ps1 = map fst ps
             /\ (forall k, assoc k ps <> None -> assoc k ps1 <> None)).
  { destruct (no_key r) eqn:Hn.
    { exists ps. now rewrite (editRow_unkeyed _ _ _ Hn). }
    destruct (no_key_keyed r Hn) as (k & Hk & Hne).
    destruct (convertible_text r Hcr Hn) as [s Hs].
    destruct (Hi 0%nat r eq_refl) as (o & Ho & Hko). rewrite Nat.add_0_r in Ho.
    rewrite (editRow_object _ r k s ps b Hk Hne Hs), Ho.
    rewrite pruned_kept by (right; exists o; split; [reflexivity|right; congruence]).
    destruct (assoc k ps) as [y|] eqn:Hy;
      [|now destruct (Hb r k (or_introl eq_refl) Hk Hne)].
    rewrite (put_own ps b k _ y Hy).
    exists (obj_set ps k (convertValueByType (type r) s)).
    split; [reflexivity|]. split.
    - unfold obj_set. rewrite Hy. apply map_fst_replace_prop.
    - intros k'. rewrite assoc_obj_set. destruct (Str.eqb k k'); congruence. }
  destruct He as (ps1 & -> & Hm & Hkeep). cbn [bind].
  destruct (IH (S idx) original ps1 b Hcrs) as (ps' & Hf & Hm').
  - intros i r' Hn. destruct (Hi (S i) r' Hn) as (o & Ho & Hko).
    exists o. split; [|exact Hko]. now rewrite Nat.add_succ_r in Ho.
  - intros r' k Hin Hk Hne. apply Hkeep. apply (Hb r' k); auto. now right.
  - exists ps'. split; [exact Hf|]. now rewrite Hm'.
Qed.

(** X16. Editing values keeps the order of the fields. When the rows
    have the keys of the original rows, every key of a row is a field of
    the target and [String] converts the value of every row that has a
    key, the save leaves the target with the same keys in the same order. *)
Theorem value_edits_keep_the_order st doc target ps :
  JSON.parse (source_text st) = Ok doc ->
  objToEdit doc (targetPath st) = Some target ->
  referent target = VObj ps ->
  forallb convertible (rows st) = true ->
  map key (rows st) = map key (originalRows st) ->
  (forall r k, In r (rows st) -> key r = Some k -> k <> [] -> assoc k ps <> None) ->
  exists ps',
    applyEdits st = Some (Ok (store_at (location target) (VObj ps') doc))
    /\ map fst ps' = map fst ps.
Proof.
  intros Hp Ht Hr Hc Hk Hb.
  destruct (forEach_keys (rows st) 0 (originalRows st) ps false Hc) as (ps' & Hf & Hm).
  - intros i r Hn. cbn [Nat.add].
    pose proof (nth_error_map key i (rows st)) as H1.
    rewrite Hn, Hk, nth_error_map in H1. cbn [option_map] in H1.
    destruct (nth_error (originalRows st) i) as [o|]; [|discriminate].
    exists o. split; [reflexivity|]. now injection H1.
  - exact Hb.
  - exists ps'. split; [|exact Hm].
    rewrite <- Hr in Hf. exact (applyEdits_looped st doc target _ Hp Ht Hf).
Qed.

Lemma value_edits_keep_the_order_witness :
  exists ps',
    applyEdits account
    = Some (Ok (store_at [js "customer"] (VObj ps') account_doc))
    /\ map fst ps' = map fst account_target.
Proof.
  apply (value_edits_keep_the_order account account_doc
           {| location := [js "customer"]; referent := VObj account_target |}
           account_target); try (vm_compute; reflexivity).
  intros r k [<-|[<-|[]]] [= <-] _; discriminate.
Defined.

(** *** What the dialog shows *)

(** X15. The text the dialog shows for a node is JSON whenever the node
    is not a single value without a key: with no rows it is the empty
    object, otherwise the serialization of the object of the rows. *)
Theorem normalized_rows_are_json nodeRows :
  (forall r, nodeRows = Some [r] -> no_key r = false) ->
  exists text v,
    normalizeNodeData nodeRows = Ok (Some text) /\ JSON.parse text = Ok v.
Proof.
  intros H. destruct nodeRows as [[|r0 rest]|];
    try (exists (js "{}"), (VObj []); split; [reflexivity|vm_compute; reflexivity]).
  cbn [normalizeNodeData].
  assert (E : Nat.eqb (List.length (r0 :: rest)) 1 && no_key r0 = false).
  { destruct rest as [|r1 rest]; [|reflexivity].
    now rewrite (H r0 eq_refl). }
  rewrite E.
  destruct (serialize_defined 0
              (VObj (fst (fold_left add_row (r0 :: rest) ([], false)))))
    as [t Ht]; [discriminate|].
  destruct (parse_stringify _ _ Ht) as [v Hv].
  exists t, v. split; [now f_equal|exact Hv].
Qed.

Lemma normalized_rows_are_json_witness :
  exists text v,
    normalizeNodeData (Some [row "name" (Scenario.str "Alice") "string";
                             row "age" (Scenario.num 30) "number"]) = Ok (Some text)
    /\ JSON.parse text = Ok v.
Proof.
  apply (normalized_rows_are_json
           (Some [row "name" (Scenario.str "Alice") "string";
                  row "age" (Scenario.num 30) "number"])).
  intros r. discriminate.
Defined.

(** *** One edit, from the opening of the dialog to the save *)

(** what the row of index [j] writes is there after the loop, when no
    later row and no later original row has its key *)
Lemma forEach_written rs original ps b ps' b' j r k s :
  forEach 0 rs original (VObj ps, b) = Ok (VObj ps', b') ->
  nth_error rs j = Some r ->
  key r = Some k -> k <> [] -> k <> proto_key -> ToString (value r) = Ok s ->
  (forall i r', (j < i)%nat -> nth_error rs i = Some r' -> key r' <> Some k) ->
  (forall i o, (j < i)%nat -> nth_error original i = Some o -> key o <> Some k) ->
  assoc k ps' = Some (convertValueByType (type r) s).
Proof.
  intros Hf Hn Hk Hne Hp Hs Hrs Hos.
  destruct (nth_error_split _ _ Hn) as (pre & suf & -> & <-).
  rewrite forEach_app in Hf.
  destruct (forEach 0 pre original (VObj ps, b)) as [t1|] eqn:H1; [|discriminate].
  destruct (forEach_object_inv _ _ _ _ _ _ H1) as (ps1 & b1 & ->).
  cbn [bind Nat.add forEach] in Hf.
  rewrite (editRow_writes _ r k s ps1 b1 Hk Hne Hp Hs) in Hf. cbn [bind] in Hf.
  rewrite (forEach_frame k _ _ _ _ _ _ _ Hf).
  - now rewrite assoc_obj_set, eqb_refl.
  - intros r' Hin. destruct (In_nth_error _ _ Hin) as [i Hi].
    apply (Hrs (List.length pre + S i)%nat r'); [lia|].
    rewrite nth_error_app2 by lia.
    now replace (List.length pre + S i - List.length pre)%nat with (S i) by lia.
  - intros i o Hi. apply Hos. lia.
Qed.

(** the key that the rename of the row of index [j] deletes is gone after
    the loop, when no later row has it *)
Lemma forEach_deleted rs original ps b ps' b' j r k o old :
  forEach 0 rs original (VObj ps, b) = Ok (VObj ps', b') ->
  nth_error rs j = Some r -> key r = Some k -> k <> [] ->
  nth_error original j = Some o -> key o = Some old -> old <> [] -> old <> k ->
  (forall i r', (j < i)%nat -> nth_error rs i = Some r' -> key r' <> Some old) ->
  assoc old ps' = None.
Proof.
  intros Hf Hn Hk Hne Ho Hold Holdne Hdiff Hrs.
  destruct (nth_error_split _ _ Hn) as (pre & suf & -> & <-).
  rewrite forEach_app in Hf.
  destruct (forEach 0 pre original (VObj ps, b)) as [t1|] eqn:H1; [|discriminate].
  destruct (forEach_object_inv _ _ _ _ _ _ H1) as (ps1 & b1 & ->).
  cbn [bind Nat.add forEach] in Hf.
  destruct (editRow (nth_error original (List.length pre)) r (VObj ps1, b1))
    as [t2|] eqn:H2; [|discriminate].
  destruct (editRow_object_inv _ _ _ _ _ H2) as (ps2 & b2 & ->).
  cbn [bind] in Hf.
  apply (forEach_absent old _ _ _ _ _ _ _ Hf).
  - intros r' Hin. destruct (In_nth_error _ _ Hin) as [i Hi].
    apply (Hrs (List.length pre + S i)%nat r'); [lia|].
    rewrite nth_error_app2 by lia.
    now replace (List.length pre + S i - List.length pre)%nat with (S i) by lia.
  - destruct (ToString (value r)) as [s|e] eqn:Hs.
    2:{ rewrite (editRow_throws _ _ _ _ (no_key_false r k Hk Hne) Hs) in H2.
        discriminate. }
    rewrite Ho, (editRow_object _ r k s ps1 b1 Hk Hne Hs) in H2.
    rewrite (pruned_renamed o k old ps1 Hold Holdne Hdiff) in H2.
    destruct (put_object (obj_delete ps1 old) b1 k (convertValueByType (type r) s))
      as (ps3 & b3 & Hp & Hfr & _).
    rewrite Hp in H2. injection H2 as <- <-.
    rewrite Hfr by congruence. now rewrite assoc_obj_delete, eqb_refl.
Qed.

Lemma convertible_update_row f rs :
  forall idx,
  forallb convertible rs = true ->
  (forall r, nth_error rs idx = Some r -> convertible (f r) = true) ->
  forallb convertible (update_row idx f rs) = true.
Proof.
  induction rs as [|r rs IH]; intros [|idx] Hc Hf; try reflexivity;
    cbn [forallb] in Hc; apply andb_true_iff in Hc as [Hr Hrs];
    cbn [update_row forallb].
  - now rewrite (Hf r eq_refl), Hrs.
  - rewrite Hr. cbn [andb]. apply IH; [exact Hrs|]. intros r'. apply Hf.
Qed.

Lemma In_update_row f rs :
  forall idx r', In r' (update_row idx f rs) ->
  In r' rs \/ exists r, nth_error rs idx = Some r /\ r' = f r.
Proof.
  induction rs as [|r rs IH]; intros [|idx] r'; cbn [update_row In nth_error];
    try tauto.
  - intros [<-|H]; [right; eauto|tauto].
  - intros [<-|H]; [tauto|]. destruct (IH idx r' H) as [H'|H']; tauto.
Qed.

(** the session of one typed input, as the handlers it runs *)
Lemma run_edit_value st idx text r :
  nth_error (originalRows st) idx = Some r ->
  no_key r = false -> is_container r = false ->
  run (edit_value idx text) st
  = handleSave (onValueChange idx text (handleEdit (useEffect st))).
Proof.
  intros Hn Hk Hc. unfold edit_value, run. cbn [fold_left step].
  change (fire st Opened) with (Some (useEffect st)). cbn [step].
  change (fire (useEffect st) ClickEdit) with (Some (handleEdit (useEffect st))).
  cbn [step].
  assert (E : fire (handleEdit (useEffect st)) (TypeValue idx text)
              = Some (onValueChange idx text (handleEdit (useEffect st)))).
  { unfold fire, enabled, value_shown.
    change (rows (handleEdit (useEffect st))) with (originalRows st).
    rewrite Hn, Hk.
    unfold is_container in Hc. apply orb_false_iff in Hc as [-> ->].
    reflexivity. }
  rewrite E. reflexivity.
Qed.

Lemma run_edit_key st idx text r :
  nth_error (originalRows st) idx = Some r -> no_key r = false ->
  run (edit_key idx text) st
  = handleSave (onKeyChange idx text (handleEdit (useEffect st))).
Proof.
  intros Hn Hk. unfold edit_key, run. cbn [fold_left step].
  change (fire st Opened) with (Some (useEffect st)). cbn [step].
  change (fire (useEffect st) ClickEdit) with (Some (handleEdit (useEffect st))).
  cbn [step].
  assert (E : fire (handleEdit (useEffect st)) (TypeKey idx text)
              = Some (onKeyChange idx text (handleEdit (useEffect st)))).
  { unfold fire, enabled, key_shown.
    change (rows (handleEdit (useEffect st))) with (originalRows st).
    rewrite Hn, Hk. reflexivity. }
  rewrite E. reflexivity.
Qed.

(** X18. The main use: the dialog is opened on a node of an object, Edit
    is clicked, the value of one leaf row is typed over and Save is clicked.
    The rows have distinct keys, [String] converts their values and the
    edited row is not named [__proto__]. The save completes and writes the
    document in which the target holds, under the key of that row, the
    typed text coerced by the row's type. A field that no row names is
    unchanged. Every other row is written as well: its field holds the
    row's value as the save coerces it, which is the value the target had
    when the row agrees with the target, and the text of [String] for a
    row of an array or an object. *)
Theorem editing_one_value_sets_one_field st doc target ps idx r k text :
  JSON.parse (source_text st) = Ok doc ->
  objToEdit doc (targetPath st) = Some target ->
  referent target = VObj ps ->
  forallb convertible (originalRows st) = true ->
  distinct_keys (originalRows st) ->
  nth_error (originalRows st) idx = Some r ->
  key r = Some k -> k <> [] -> k <> proto_key -> is_container r = false ->
  exists st' ps',
    run (edit_value idx text) st = Some st'
    /\ contents st' = JSON.stringify (store_at (location target) (VObj ps') doc)
    /\ hasChanges st' = true /\ editing st' = false
    /\ assoc k ps' = Some (convertValueByType (type r) text)
    /\ (forall k', (forall r', In r' (originalRows st) -> key r' <> Some k') ->
                   assoc k' ps' = assoc k' ps)
    /\ (forall j r' k',
          nth_error (originalRows st) j = Some r' -> j <> idx ->
          key r' = Some k' -> k' <> [] -> k' <> proto_key ->
          (exists x, coerced r' = Ok x /\ assoc k' ps' = Some x)
          /\ (agrees ps r' -> assoc k' ps' = assoc k' ps)).
Proof.
  intros Hp Ht Hr Hc Hd Hn Hk Hne Hproto Hleaf.
  set (f := fun r0 : NodeRow =>
              {| key := key r0; value := VStr text; type := type r0 |}).
  set (st3 := onValueChange idx text (handleEdit (useEffect st))).
  assert (Hrows : rows st3 = update_row idx f (originalRows st)) by reflexivity.
  assert (Hc3 : forallb convertible (rows st3) = true).
  { rewrite Hrows. apply convertible_update_row; [exact Hc|].
    intros r0 _. unfold convertible, printable. cbn. apply orb_true_r. }
  destruct (save_on_object st3 doc target ps Hp Ht Hr Hc3)
    as (ps' & b' & Hf & _ & Hs).
  change (originalRows st3) with (originalRows st) in Hf. rewrite Hrows in Hf.
  assert (Hkeys : forall i r', nth_error (update_row idx f (originalRows st)) i
                               = Some r' ->
                  exists o, nth_error (originalRows st) i = Some o
                            /\ key r' = key o).
  { intros i r'. rewrite nth_error_update_row.
    destruct (Nat.eqb idx i); [|eauto].
    destruct (nth_error (originalRows st) i) as [o|]; [|discriminate].
    intros [= <-]. eauto. }
  exists (commit (JSON.stringify (store_at (location target) (VObj ps') doc)) st3), ps'.
  split.
  { rewrite (run_edit_value st idx text r Hn (no_key_false r k Hk Hne) Hleaf).
    exact Hs. }
  split; [reflexivity|]. split; [reflexivity|]. split; [reflexivity|]. split.
  { apply (forEach_written _ _ _ _ _ _ idx (f r) k text Hf); try assumption;
      try reflexivity.
    - now rewrite nth_error_update_row, Nat.eqb_refl, Hn.
    - intros i r' Hi Hr'. destruct (Hkeys i r' Hr') as (o & Ho & ->).
      apply (Hd idx i r o k Hn Ho); [lia|exact Hk|exact Hne].
    - intros i o Hi Ho. apply (Hd idx i r o k Hn Ho); [lia|exact Hk|exact Hne]. }
  split.
  { intros k' Hno. apply (forEach_frame k' _ _ _ _ _ _ _ Hf).
    - intros r' Hin. destruct (In_nth_error _ _ Hin) as [i Hi].
      destruct (Hkeys i r' Hi) as (o & Ho & ->).
      apply Hno. exact (nth_error_In _ _ Ho).
    - intros i o _ Ho. apply Hno. exact (nth_error_In _ _ Ho). }
  intros j r' k' Hj Hji Hk' Hne' Hproto'.
  assert (Hcr : convertible r' = true).
  { rewrite forallb_forall in Hc. apply Hc. exact (nth_error_In _ _ Hj). }
  destruct (convertible_text r' Hcr (no_key_false r' k' Hk' Hne')) as [s Hs'].
  assert (Hw : assoc k' ps' = Some (convertValueByType (type r') s)).
  { apply (forEach_written _ _ _ _ _ _ j r' k' s Hf); try assumption.
    - rewrite nth_error_update_row.
      destruct (Nat.eqb_spec idx j) as [E|_]; [congruence|exact Hj].
    - intros i r0 Hi Hr0. destruct (Hkeys i r0 Hr0) as (o & Ho & ->).
      apply (Hd j i r' o k' Hj Ho); [lia|exact Hk'|exact Hne'].
    - intros i o Hi Ho. apply (Hd j i r' o k' Hj Ho); [lia|exact Hk'|exact Hne']. }
  assert (Hx : coerced r' = Ok (convertValueByType (type r') s))
    by (unfold coerced; now rewrite Hs').
  split; [eauto|].
  intros Ha. destruct (Ha k' Hk' Hne') as (x & Hx' & Hold).
  rewrite Hw, Hold. congruence.
Qed.

Lemma editing_one_value_sets_one_field_witness :
  exists st' ps',
    run (edit_value 0 (js "Bob")) household = Some st'
    /\ contents st'
       = JSON.stringify (store_at [js "customer"] (VObj ps') household_doc)
    /\ assoc (js "name") ps' = Some (Scenario.str "Bob")
    /\ assoc (js "address") ps' = Some (Scenario.str "[object Object]").
Proof.
  assert (Hp : JSON.parse (source_text household) = Ok household_doc)
    by (vm_compute; reflexivity).
  assert (Ht : objToEdit household_doc (targetPath household)
               = Some {| location := [js "customer"];
                         referent := VObj household_target |})
    by (vm_compute; reflexivity).
  assert (Hc : forallb convertible (originalRows household) = true)
    by (vm_compute; reflexivity).
  assert (Hd : distinct_keys (originalRows household)).
  { intros [|[|[|i]]] [|[|[|j]]] ri rj k Hi Hj Hij Hk Hne;
      vm_compute in Hi, Hj; try discriminate; try congruence;
      injection Hi as <-; injection Hj as <-; vm_compute in Hk;
      injection Hk as <-; intros E; vm_compute in E; discriminate. }
  assert (Hne : js "name" <> []) by discriminate.
  assert (Hnp : js "name" <> proto_key) by discriminate.
  pose proof (editing_one_value_sets_one_field household household_doc _
                household_target 0 (row "name" (Scenario.str "Alice") "string")
                (js "name") (js "Bob") Hp Ht eq_refl Hc Hd eq_refl eq_refl
                Hne Hnp eq_refl)
    as (st' & ps' & Hrun & Hcont & _ & _ & Hname & _ & Hother).
  exists st', ps'. split; [exact Hrun|]. split; [exact Hcont|].
  split; [exact Hname|].
  assert (Ha : js "address" <> []) by discriminate.
  assert (Hap : js "address" <> proto_key) by discriminate.
  assert (Hidx : 1%nat <> 0%nat) by discriminate.
  destruct (Hother 1%nat
              (row "address"
                 (Scenario.obj [("city"%string, Scenario.str "Paris")]) "object")
              (js "address") eq_refl Hidx eq_refl Ha Hap) as [(x & Hx & Hax) _].
  vm_compute in Hx. injection Hx as <-. rewrite Hax. reflexivity.
Defined.

(** X19. Renaming a field. The dialog is opened on a node of an object,
    Edit is clicked, the key of one row is typed over with a key that no
    row has and that is not [__proto__], and Save is clicked. The rows have
    distinct keys and [String] converts their values. The save completes
    and writes the document in which the target has lost the old key and
    holds, under the new key, the row's value as the save coerces it: the
    old value of the field when the row agrees with the target. A field
    that no row names is unchanged, and every other row is written as
    well. *)
Theorem renaming_one_key_writes_its_row st doc target ps idx r k new_key :
  JSON.parse (source_text st) = Ok doc ->
  objToEdit doc (targetPath st) = Some target ->
  referent target = VObj ps ->
  forallb convertible (originalRows st) = true ->
  distinct_keys (originalRows st) ->
  nth_error (originalRows st) idx = Some r ->
  key r = Some k -> k <> [] ->
  new_key <> [] -> new_key <> k -> new_key <> proto_key ->
  (forall r', In r' (originalRows st) -> key r' <> Some new_key) ->
  exists st' ps' x,
    run (edit_key idx new_key) st = Some st'
    /\ contents st' = JSON.stringify (store_at (location target) (VObj ps') doc)
    /\ hasChanges st' = true /\ editing st' = false
    /\ coerced r = Ok x
    /\ assoc new_key ps' = Some x
    /\ assoc k ps' = None
    /\ (agrees ps r -> assoc new_key ps' = assoc k ps)
    /\ (forall k', (forall r', In r' (originalRows st) -> key r' <> Some k') ->
                   k' <> new_key -> assoc k' ps' = assoc k' ps)
    /\ (forall j r' k',
          nth_error (originalRows st) j = Some r' -> j <> idx ->
          key r' = Some k' -> k' <> [] -> k' <> proto_key ->
          (exists y, coerced r' = Ok y /\ assoc k' ps' = Some y)
          /\ (agrees ps r' -> assoc k' ps' = assoc k' ps)).
Proof.
  intros Hp Ht Hr Hc Hd Hn Hk Hne Hnew Hdiff Hproto Hfresh.
  set (f := fun r0 : NodeRow =>
              {| key := Some new_key; value := value r0; type := type r0 |}).
  set (st3 := onKeyChange idx new_key (handleEdit (useEffect st))).
  assert (Hrows : rows st3 = update_row idx f (originalRows st)) by reflexivity.
  assert (Hcr : convertible r = true).
  { rewrite forallb_forall in Hc. apply Hc. exact (nth_error_In _ _ Hn). }
  destruct (convertible_text r Hcr (no_key_false r k Hk Hne)) as [s Hs].
  assert (Hc3 : forallb convertible (rows st3) = true).
  { rewrite Hrows. apply convertible_update_row; [exact Hc|].
    intros r0 Hr0. assert (r0 = r) as -> by congruence.
    unfold convertible, printable. cbn [f value NodeModal.value].
    rewrite Hs. apply orb_true_r. }
  destruct (save_on_object st3 doc target ps Hp Ht Hr Hc3)
    as (ps' & b' & Hf & _ & Hsave).
  change (originalRows st3) with (originalRows st) in Hf. rewrite Hrows in Hf.
  assert (Hkeys : forall i r', nth_error (update_row idx f (originalRows st)) i
                               = Some r' -> i <> idx ->
                  nth_error (originalRows st) i = Some r').
  { intros i r'. rewrite nth_error_update_row.
    destruct (Nat.eqb_spec idx i) as [E|_]; [congruence|auto]. }
  assert (Hat : nth_error (update_row idx f (originalRows st)) idx = Some (f r))
    by (now rewrite nth_error_update_row, Nat.eqb_refl, Hn).
  assert (Hw : assoc new_key ps' = Some (convertValueByType (type r) s)).
  { apply (forEach_written _ _ _ _ _ _ idx (f r) new_key s Hf); try assumption;
      try reflexivity.
    - intros i r' Hi Hr'. apply Hfresh.
      apply (nth_error_In _ i). apply Hkeys; [exact Hr'|lia].
    - intros i o _ Ho. apply Hfresh. exact (nth_error_In _ _ Ho). }
  exists (commit (JSON.stringify (store_at (location target) (VObj ps') doc)) st3),
         ps', (convertValueByType (type r) s).
  split.
  { rewrite (run_edit_key st idx new_key r Hn (no_key_false r k Hk Hne)).
    exact Hsave. }
  split; [reflexivity|]. split; [reflexivity|]. split; [reflexivity|].
  split; [unfold coerced; now rewrite Hs|]. split; [exact Hw|]. split.
  { apply (forEach_deleted _ _ _ _ _ _ idx (f r) new_key r k Hf); try assumption;
      try reflexivity; [congruence|].
    intros i r' Hi Hr'. apply (Hd idx i r r' k Hn); [|lia|exact Hk|exact Hne].
    apply Hkeys; [exact Hr'|lia]. }
  split.
  { intros Ha. destruct (Ha k Hk Hne) as (x & Hx & Hold).
    rewrite Hw, Hold. unfold coerced in Hx. rewrite Hs in Hx. cbn [bind] in Hx.
    congruence. }
  split.
  { intros k' Hno Hk'. apply (forEach_frame k' _ _ _ _ _ _ _ Hf).
    - intros r' Hin. destruct (In_update_row _ _ _ _ Hin) as [H|(r0 & _ & ->)].
      + now apply Hno.
      + cbn [f key NodeModal.key]. congruence.
    - intros i o _ Ho. apply Hno. exact (nth_error_In _ _ Ho). }
  intros j r' k' Hj Hji Hk' Hne' Hproto'.
  assert (Hcr' : convertible r' = true).
  { rewrite forallb_forall in Hc. apply Hc. exact (nth_error_In _ _ Hj). }
  destruct (convertible_text r' Hcr' (no_key_false r' k' Hk' Hne')) as [s' Hs'].
  assert (Hnk : k' <> new_key).
  { intros ->. exact (Hfresh r' (nth_error_In _ _ Hj) Hk'). }
  assert (Hw' : assoc k' ps' = Some (convertValueByType (type r') s')).
  { apply (forEach_written _ _ _ _ _ _ j r' k' s' Hf); try assumption.
    - rewrite nth_error_update_row.
      destruct (Nat.eqb_spec idx j) as [E|_]; [congruence|exact Hj].
    - intros i r0 Hi Hr0. destruct (Nat.eq_dec i idx) as [->|Hii].
      + rewrite Hat in Hr0. injection Hr0 as <-. cbn [f key NodeModal.key].
        congruence.
      + apply (Hd j i r' r0 k' Hj); [|lia|exact Hk'|exact Hne'].
        now apply Hkeys.
    - intros i o Hi Ho. apply (Hd j i r' o k' Hj Ho); [lia|exact Hk'|exact Hne']. }
  split.
  { exists (convertValueByType (type r') s'). split; [|exact Hw'].
    unfold coerced. now rewrite Hs'. }
  intros Ha. destruct (Ha k' Hk' Hne') as (x & Hx & Hold).
  rewrite Hw', Hold. unfold coerced in Hx. rewrite Hs' in Hx. cbn [bind] in Hx.
  congruence.
Qed.

Lemma renaming_one_key_writes_its_row_witness :
  exists st' ps',
    run (edit_key 1 (js "years")) account = Some st'
    /\ contents st'
       = JSON.stringify (store_at [js "customer"] (VObj ps') account_doc)
    /\ assoc (js "years") ps' = Some (Scenario.num 30)
    /\ assoc (js "age") ps' = None.
Proof.
  assert (Hp : JSON.parse (source_text account) = Ok account_doc)
    by (vm_compute; reflexivity).
  assert (Ht : objToEdit account_doc (targetPath account)
               = Some {| location := [js "customer"];
                         referent := VObj account_target |})
    by (vm_compute; reflexivity).
  assert (Hc : forallb convertible (originalRows account) = true)
    by (vm_compute; reflexivity).
  assert (Hd : distinct_keys (originalRows account)).
  { intros [|[|[|i]]] [|[|[|j]]] ri rj k Hi Hj Hij Hk Hne;
      vm_compute in Hi, Hj; try discriminate; try congruence;
      injection Hi as <-; injection Hj as <-; vm_compute in Hk;
      injection Hk as <-; intros E; vm_compute in E; discriminate. }
  assert (Hne : js "age" <> []) by discriminate.
  assert (Hnew : js "years" <> []) by discriminate.
  assert (Hdiff : js "years" <> js "age") by discriminate.
  assert (Hnp : js "years" <> proto_key) by discriminate.
  assert (Hfresh : forall r', In r' (originalRows account) ->
                              key r' <> Some (js "years")).
  { intros r' [<-|[<-|[]]]; discriminate. }
  pose proof (renaming_one_key_writes_its_row account account_doc _
                account_target 1 (row "age" (Scenario.num 30) "number")
                (js "age") (js "years") Hp Ht eq_refl Hc Hd eq_refl eq_refl
                Hne Hnew Hdiff Hnp Hfresh)
    as (st' & ps' & x & Hrun & Hcont & _ & _ & Hx & Hnewk & Hold & _).
  exists st', ps'. split; [exact Hrun|]. split; [exact Hcont|].
  split; [|exact Hold]. vm_compute in Hx. injection Hx as <-. rewrite Hnewk.
  reflexivity.
Defined.

End SaveFacts.
